(** * Nous knowledge index: path policy, index store, rebuild and ranked search

    A shallow embedding of [modules/path_policies.py] and
    [modules/data_indexer.py], and the properties of the index stated in the
    design document.

    Conventions of the embedding.
    - A [pathlib] path is the list of its [parts]; an absolute POSIX path
      starts with the anchor part ["/"].
    - Python [str] is [string]; [lower()] acts on the ASCII letters.
    - Python [float] values that take part in arithmetic (modification times,
      scores, similarity ratios) are rationals [Q]; [==], [<] and [>=] on
      floats are [Qeq_bool], [Qlt_bool] and [Qle_bool].  The size ceiling,
      which a caller may set to any float, is a [pyfloat] (a finite value, an
      infinity or a NaN).
    - The file system, the clock, the optional decoders and the full-text
      engine of SQLite are the fields of an environment record [Env].
    - A table of the SQLite database is the list of its rows in rowid order.
    - A [threading.Event] polled by the run is a schedule: the number of polls
      answered [False] before the flag is seen set. *)

From Stdlib Require Import ZArith QArith Qround Ascii String List Bool Lia Sorted.
From stdpp Require Import base decidable option list strings gmap sets pretty.

#[local] Set Warnings "-clear-no-such-hyp".

Local Open Scope Z_scope.

(** ** Strings *)

Definition lower_ascii (c : ascii) : ascii :=
  let n := nat_of_ascii c in
  if (Nat.leb 65 n && Nat.leb n 90)%bool then ascii_of_nat (n + 32) else c.

(** [str.lower()] *)
Fixpoint lower (s : string) : string :=
  match s with
  | EmptyString => EmptyString
  | String c rest => String (lower_ascii c) (lower rest)
  end.

(** [s.startswith(p)] *)
Definition startswith (p s : string) : bool := String.prefix p s.

(** [needle in s] *)
Fixpoint contains (needle s : string) : bool :=
  String.prefix needle s ||
  match s with
  | EmptyString => false
  | String _ rest => contains needle rest
  end.

(** [s[:n]] *)
Definition str_take (n : nat) (s : string) : string := String.substring 0 n s.

Definition Qlt_bool (a b : Q) : bool := negb (Qle_bool b a).

(** [max(a, b)] of Python on two floats: [b] when [b > a], otherwise [a]. *)
Definition pymax (a b : Q) : Q := if Qlt_bool a b then b else a.

(** ** Paths *)

Abbreviation Path := (list string).

Fixpoint join_parts (ps : list string) : string :=
  match ps with
  | [] => ""
  | [p] => p
  | p :: rest => p +:+ "/" +:+ join_parts rest
  end.

(** [str(path)] *)
Definition path_str (p : Path) : string :=
  match p with
  | [] => "."
  | "/" :: rest => "/" +:+ join_parts rest
  | _ => join_parts p
  end.

(** [path.as_posix().lower()], the key under which [normalise_paths]
    recognises a path it has seen. *)
Definition posix_key (p : Path) : string := lower (path_str p).

(** [path.name] *)
Definition path_name (p : Path) : string :=
  match p with
  | "/" :: rest => List.last rest ""
  | _ => List.last p ""
  end.

Definition is_absolute (p : Path) : bool :=
  match p with
  | "/" :: _ => true
  | _ => false
  end.

Fixpoint parts_prefix (parent path : Path) : bool :=
  match parent, path with
  | [], _ => true
  | a :: parent', b :: path' => bool_decide (a = b) && parts_prefix parent' path'
  | _ :: _, [] => false
  end.

(** [path.relative_to(parent)] returns (true) or raises [ValueError] (false):
    the parts of [parent] must be a prefix of the parts of [path]; against the
    empty path ["."], only a relative path passes. *)
Definition relative_to_ok (path parent : Path) : bool :=
  match parent with
  | [] => negb (is_absolute path)
  | _ => parts_prefix parent path
  end.

(** [Path.suffix]: the last dot-suffix of the final component, empty when the
    only dot starts or ends the name. *)
Fixpoint rindex_dot (s : string) (i : nat) (found : option nat) : option nat :=
  match s with
  | EmptyString => found
  | String c rest =>
      rindex_dot rest (S i) (if bool_decide (c = "."%char) then Some i else found)
  end.

Definition name_suffix (name : string) : string :=
  match rindex_dot name 0 None with
  | Some i =>
      if (Nat.ltb 0 i && Nat.ltb i (String.length name - 1))%bool
      then String.substring i (String.length name - i) name
      else ""
  | None => ""
  end.

Definition path_suffix (p : Path) : string := name_suffix (path_name p).

(** ** IndexStore: the SQLite tables behind [DataIndexer._conn] *)

Module Store.

(** A row of [files].  The TEXT column [path] holds [str(path)], and
    [Path(row["path"])] gives the path back: the row carries the path. *)
Record file_row := {
  f_id : Z;
  f_path : Path;
  f_mtime : Q;
  f_size : Z;
  f_indexed_at : string;
}.

(** A row of the fts5 table [file_content(path UNINDEXED, content)]. *)
Record fts_row := {
  fts_rowid : Z;
  fts_path : Path;
  fts_content : string;
}.

(** A row of the fallback table [file_content(file_id, content)]. *)
Record plain_row := {
  pc_file_id : Z;
  pc_content : string;
}.

(** [_fts_available] is true exactly when [file_content] is the fts5 table:
    [_prepare_schema] sets both together. *)
Inductive content_table :=
  | FtsTable (rows : list fts_row)
  | PlainTable (rows : list plain_row).

Inductive meta_value :=
  | MetaPath (p : Path)
  | MetaText (s : string).

Record db := {
  files : list file_row;
  file_content : content_table;
  metadata : list (string * meta_value);
}.

Definition _fts_available (d : db) : bool :=
  match file_content d with
  | FtsTable _ => true
  | PlainTable _ => false
  end.

(** [_prepare_schema] on a database file that does not exist yet. *)
Definition empty_db (fts5 : bool) : db :=
  {| files := [];
     file_content := if fts5 then FtsTable [] else PlainTable [];
     metadata := [] |}.

Definition max_id (rows : list file_row) : Z :=
  fold_right (fun r m => Z.max (f_id r) m) 0 rows.

Definition max_rowid (rows : list fts_row) : Z :=
  fold_right (fun r m => Z.max (fts_rowid r) m) 0 rows.

(** [INSERT OR REPLACE INTO files(path, mtime, size, indexed_at)]: the new
    rowid is one more than the largest rowid in use, the row that holds the
    same [path] is deleted, the new row is inserted. *)
Definition insert_or_replace_file
    (path : Path) (mtime : Q) (size : Z) (indexed_at : string)
    (rows : list file_row) : list file_row :=
  let new_id := max_id rows + 1 in
  filter (fun r => f_path r ≠ path) rows
  ++ [ {| f_id := new_id; f_path := path; f_mtime := mtime;
          f_size := size; f_indexed_at := indexed_at |} ].

(** [SELECT id FROM files WHERE path = ?] *)
Definition select_id (path : Path) (rows : list file_row) : option Z :=
  f_id <$> List.find (fun r => bool_decide (f_path r = path)) rows.

(** [INSERT OR REPLACE INTO file_content(rowid, path, content)]; a NULL
    rowid (the subquery found no row) lets SQLite choose the next one. *)
Definition insert_or_replace_fts
    (rowid : option Z) (path : Path) (content : string)
    (rows : list fts_row) : list fts_row :=
  let r := match rowid with
           | Some i => i
           | None => max_rowid rows + 1
           end in
  filter (fun c => fts_rowid c ≠ r) rows
  ++ [ {| fts_rowid := r; fts_path := path; fts_content := content |} ].

(** [INSERT OR REPLACE INTO file_content(file_id, content)] *)
Definition insert_or_replace_plain
    (file_id : Z) (content : string) (rows : list plain_row) : list plain_row :=
  filter (fun c => pc_file_id c ≠ file_id) rows
  ++ [ {| pc_file_id := file_id; pc_content := content |} ].

(** [_upsert_file]: both statements, then one commit.  In the fallback
    branch [fetchone()[0]] on a missing row would raise [TypeError]; the row
    was inserted by the first statement (lemma [select_id_inserted]). *)
Definition _upsert_file
    (d : db) (path : Path) (stat : Q * Z) (content : string) (now : string) : db :=
  let files' := insert_or_replace_file path (fst stat) (snd stat) now (files d) in
  let content' :=
    match file_content d with
    | FtsTable rows =>
        FtsTable (insert_or_replace_fts (select_id path files') path content rows)
    | PlainTable rows =>
        match select_id path files' with
        | Some file_id => PlainTable (insert_or_replace_plain file_id content rows)
        | None => PlainTable rows
        end
    end in
  {| files := files'; file_content := content'; metadata := metadata d |}.

(** [_delete_file] *)
Definition _delete_file (d : db) (path : Path) : db :=
  let files' := filter (fun r => f_path r ≠ path) (files d) in
  let content' :=
    match file_content d with
    | FtsTable rows => FtsTable (filter (fun c => fts_path c ≠ path) rows)
    | PlainTable rows =>
        PlainTable (filter (fun c => pc_file_id c ∈ f_id <$> files') rows)
    end in
  {| files := files'; file_content := content'; metadata := metadata d |}.

(** [_count_files] *)
Definition _count_files (d : db) : nat := length (files d).

(** [INSERT OR REPLACE INTO metadata (key, value)] *)
Fixpoint meta_replace (key : string) (v : meta_value)
    (rows : list (string * meta_value)) : list (string * meta_value) :=
  match rows with
  | [] => [(key, v)]
  | (k, w) :: rest =>
      if bool_decide (k = key) then (key, v) :: rest
      else (k, w) :: meta_replace key v rest
  end.

(** [_update_meta] *)
Definition _update_meta (d : db) (key : string) (v : meta_value) : db :=
  {| files := files d; file_content := file_content d;
     metadata := meta_replace key v (metadata d) |}.

(** [_get_meta] *)
Definition _get_meta (d : db) (key : string) : option meta_value :=
  snd <$> List.find (fun kv => bool_decide (fst kv = key)) (metadata d).

(** [{Path(row["path"]): (row["mtime"], row["size"]) for row in rows}] over
    [SELECT path, mtime, size FROM files] *)
Definition snapshot_from (m : gmap Path (Q * Z)) (rows : list file_row)
  : gmap Path (Q * Z) :=
  fold_left (fun m r => <[f_path r := (f_mtime r, f_size r)]> m) rows m.

Definition snapshot (d : db) : gmap Path (Q * Z) := snapshot_from ∅ (files d).

(** The content linked to a path, through the join
    [files.id = file_content.rowid] (fts5) or
    [files.id = file_content.file_id] (fallback) that [search] uses. *)
Definition content_of (d : db) (path : Path) : option string :=
  match select_id path (files d) with
  | None => None
  | Some i =>
      match file_content d with
      | FtsTable rows =>
          fts_content <$> List.find (fun c => bool_decide (fts_rowid c = i)) rows
      | PlainTable rows =>
          pc_content <$> List.find (fun c => bool_decide (pc_file_id c = i)) rows
      end
  end.

(** *** The invariant of the store *)

(** A [files] row for [path] exists. *)
Definition has_file (d : db) (path : Path) : Prop :=
  exists r, r ∈ files d /\ f_path r = path.

(** A content row for [path] exists: in the fts5 table, a row whose [path]
    column is [path]; in the fallback table, which has no such column, a
    row whose [file_id] is the id of the [files] row of [path]. *)
Definition has_content (d : db) (path : Path) : Prop :=
  match file_content d with
  | FtsTable rows => exists c, c ∈ rows /\ fts_path c = path
  | PlainTable rows =>
      exists r c, r ∈ files d /\ f_path r = path /\ c ∈ rows /\ pc_file_id c = f_id r
  end.

(** Every [files] row has its content row, under its own rowid. *)
Definition linked (d : db) : Prop :=
  forall r, r ∈ files d ->
    match file_content d with
    | FtsTable rows =>
        exists c, c ∈ rows /\ fts_rowid c = f_id r /\ fts_path c = f_path r
    | PlainTable rows => exists c, c ∈ rows /\ pc_file_id c = f_id r
    end.

(** Every content row belongs to a file: an fts5 row carries the path of a
    [files] row whose id is not below its rowid; a fallback row has a
    [file_id] not above the largest id in [files]. *)
Definition owned (d : db) : Prop :=
  match file_content d with
  | FtsTable rows =>
      forall c, c ∈ rows ->
        exists r, r ∈ files d /\ f_path r = fts_path c /\ fts_rowid c <= f_id r
  | PlainTable rows => forall c, c ∈ rows -> pc_file_id c <= max_id (files d)
  end.

Definition content_ids (d : db) : list Z :=
  match file_content d with
  | FtsTable rows => fts_rowid <$> rows
  | PlainTable rows => pc_file_id <$> rows
  end.

(** What holds of every database the indexer has written: the keys of the
    tables are unique, every file has its content and every content row
    its file. *)
Record store_ok (d : db) : Prop := {
  ok_paths : NoDup (f_path <$> files d);
  ok_ids : NoDup (f_id <$> files d);
  ok_content_ids : NoDup (content_ids d);
  ok_linked : linked d;
  ok_owned : owned d;
}.

End Store.

Inductive platform := Nt | Darwin | Linux.

(** ** The environment of the indexer *)

(** A directory as [os.walk] sees it: [d_subdirs] are the entries for which
    [is_dir()] holds (a symbolic link to a directory among them, [d_islink]),
    [d_files] the other entries; [d_readable = false] when [scandir] fails. *)
#[warnings="-register-all"]
Inductive fstree :=
  FsDir (d_name : string) (d_islink d_readable : bool)
        (d_subdirs : list fstree) (d_files : list string).

(** The result of an operation that can raise: the value, or the text of the
    exception. *)
Inductive attempt (A : Type) :=
  | Done (a : A)
  | Raises (msg : string).
Arguments Done {A} a.
Arguments Raises {A} msg.

(** The size ceiling as a Python float. *)
Inductive pyfloat := PFinite (q : Q) | PInf | PNegInf | PNaN.

(** [f"{x:.1f}"]: the exact value rounded to one decimal, ties to even. *)
Definition round_half_even (q : Q) : Z :=
  let n := Qfloor q in
  let r := (q - inject_Z n)%Q in
  match (r ?= 1 # 2)%Q with
  | Lt => n
  | Gt => n + 1
  | Eq => if Z.even n then n else n + 1
  end.

Definition format_tenths (q : Q) : string :=
  let t := round_half_even (q * 10) in
  pretty (t / 10) +:+ "." +:+ pretty (t mod 10).

Definition format_1f (x : pyfloat) : string :=
  match x with
  | PFinite q =>
      if Qle_bool 0 q then format_tenths q else "-" +:+ format_tenths (- q)
  | PInf => "inf"
  | PNegInf => "-inf"
  | PNaN => "nan"
  end.

Record Env := {
(** [path.expanduser().resolve()], the path itself on [OSError] *)
clean : Path -> Path;
os_platform : platform;
home : Path;
cwd : option Path;                       (* [None]: [Path.cwd()] raises *)
userprofile : Path;                      (* [%USERPROFILE%] expanded *)
project_root : Path;                     (* [Path(__file__).parent.parent] *)
path_exists : Path -> bool;
(** the tree [os.walk] enumerates under a base directory *)
walk_tree : Path -> fstree;
(** [path.stat()]: [(st_mtime, st_size)], or the [OSError] *)
fs_stat : Path -> attempt (Q * Z);
(** [path.read_text(encoding="utf-8", errors="ignore")] *)
read_text : Path -> attempt string;
fitz_available : bool;
pdf_text : Path -> attempt string;       (* the joined page texts *)
docx_available : bool;
docx_text : Path -> attempt string;      (* the joined paragraph texts *)
ipynb_markdown : Path -> attempt string; (* the joined markdown cell sources *)
(** [datetime.utcnow().isoformat()] at the n-th reading of the clock *)
utcnow_iso : nat -> string;
(** whether SQLite was built with the fts5 module *)
fts5_supported : bool;
(** [SELECT rowid, snippet(file_content, 1, '[', ']', ' ... ', 16),
    bm25(file_content) FROM file_content WHERE file_content MATCH ?
    ORDER BY rank]: rowid, preview and rank of the matching rows *)
fts5_match : list Store.fts_row -> string -> list (Z * option string * option Q);
(** [datetime.fromtimestamp(t).isoformat()] *)
fromtimestamp_iso : Q -> string;
(** [humanize.naturaltime(datetime.fromtimestamp(t))] at the time [now] *)
naturaltime : Q -> Q -> string;
(** [humanize.naturalsize(n, binary=True)] *)
naturalsize : Z -> string;
}.

(** ** PathPolicy: [modules/path_policies.py] *)

Module PathPolicy.
Section WithEnv.
Variable E : Env.

(** [_clean] *)
Definition _clean (p : Path) : Path := clean E p.

Fixpoint normalise_loop (values : list Path) (seen : list string) : list Path :=
  match values with
  | [] => []
  | entry :: rest =>
      let path := _clean entry in
      let key := lower (path_str path) in
      if bool_decide (key ∈ seen) then normalise_loop rest seen
      else path :: normalise_loop rest (key :: seen)
  end.

(** [normalise_paths]; [None] is the Python [None] argument. *)
Definition normalise_paths (values : option (list Path)) : list Path :=
  match values with
  | None => []
  | Some vs => normalise_loop vs []
  end.

Definition _windows_exclusions : list Path :=
  let system_dirs :=
    [ ["C:\"; "Windows"]; ["C:\"; "Program Files"];
      ["C:\"; "Program Files (x86)"]; ["C:\"; "ProgramData"] ] in
  let appdata := userprofile E ++ ["AppData"] in
  normalise_paths (Some (system_dirs ++
    [ appdata; ["C:\"; "pagefile.sys"]; ["C:\"; "hiberfil.sys"];
      ["C:\"; "System Volume Information"]; ["C:\"; "$Recycle.Bin"] ])).

Definition _posix_exclusions : list Path :=
  let linux :=
    [ ["/"; "bin"]; ["/"; "boot"]; ["/"; "dev"]; ["/"; "etc"]; ["/"; "lib"];
      ["/"; "proc"]; ["/"; "root"]; ["/"; "run"]; ["/"; "sbin"]; ["/"; "sys"];
      ["/"; "tmp"]; ["/"; "usr"] ] in
  let mac :=
    [ ["/"; "System"]; ["/"; "bin"]; ["/"; "sbin"]; ["/"; "usr"];
      ["/"; "private"; "var"]; ["/"; "Library"]; ["/"; "dev"] ] in
  match os_platform E with
  | Darwin => normalise_paths (Some mac)
  | _ => normalise_paths (Some linux)
  end.

Definition default_allowed_roots : list Path :=
  let roots := [home E] in
  let roots :=
    match cwd E with
    | Some c => let c := clean E c in
                if bool_decide (c ∈ roots) then roots else roots ++ [c]
    | None => roots
    end in
  normalise_paths (Some roots).

Definition default_excluded_paths : list Path :=
  match os_platform E with
  | Nt => _windows_exclusions
  | _ => _posix_exclusions
  end.

Definition is_under (path parent : Path) : bool :=
  relative_to_ok (_clean path) (_clean parent).

Definition is_allowed (path : Path) (allowed_roots excluded : list Path)
  : bool * option string :=
  let path := _clean path in
  match find (fun entry => is_under path entry) excluded with
  | Some entry => (false, Some ("Excluded path: " +:+ path_str entry))
  | None =>
      if existsb (fun root => is_under path root || bool_decide (path = root))
                 allowed_roots
      then (true, None)
      else (false, Some "Outside allowed roots")
  end.
End WithEnv.
End PathPolicy.

(** ** DataIndexer: configuration, extraction, crawl and rebuild *)

Module Indexer.
Import Store.

Definition ALLOWED_EXTENSIONS : list string :=
  [ ".txt"; ".md"; ".markdown"; ".rst"; ".py"; ".json"; ".cfg"; ".ini";
    ".yaml"; ".yml"; ".csv"; ".toml"; ".js"; ".ts"; ".jsx"; ".tsx"; ".html";
    ".css"; ".scss"; ".less"; ".pdf"; ".docx"; ".log"; ".ipynb" ].

Definition TEXT_EXTENSIONS : list string :=
  [ ".txt"; ".md"; ".markdown"; ".rst"; ".json"; ".cfg"; ".ini"; ".yaml";
    ".yml"; ".csv"; ".toml"; ".log"; ".html"; ".css"; ".scss"; ".less" ].

Definition CODE_EXTENSIONS : list string := [ ".py"; ".js"; ".ts"; ".jsx"; ".tsx" ].

Definition MAX_SNIPPET_CHARS : nat := Z.to_nat 6000.

Record DataIndexer := {
  base_path : Path;
  allowed_extensions : list string;
  allowed_roots : list Path;
  excluded_paths : list Path;
  max_file_size_mb : pyfloat;
  max_file_size_bytes : Z;
  _conn : db;
  _last_skipped : list (string * string);   (* {"path": .., "reason": ..} *)
  _last_errors : list (string * string);
  clock_reads : nat;                        (* readings of the clock so far *)
}.

Definition with_conn (self : DataIndexer) (d : db) : DataIndexer :=
  {| base_path := base_path self; allowed_extensions := allowed_extensions self;
     allowed_roots := allowed_roots self; excluded_paths := excluded_paths self;
     max_file_size_mb := max_file_size_mb self;
     max_file_size_bytes := max_file_size_bytes self;
     _conn := d; _last_skipped := _last_skipped self;
     _last_errors := _last_errors self; clock_reads := clock_reads self |}.

Definition with_diagnostics (self : DataIndexer)
    (skipped errors : list (string * string)) : DataIndexer :=
  {| base_path := base_path self; allowed_extensions := allowed_extensions self;
     allowed_roots := allowed_roots self; excluded_paths := excluded_paths self;
     max_file_size_mb := max_file_size_mb self;
     max_file_size_bytes := max_file_size_bytes self;
     _conn := _conn self; _last_skipped := skipped;
     _last_errors := errors; clock_reads := clock_reads self |}.

Definition with_policy (self : DataIndexer)
    (allowed excluded : list Path) (mb : pyfloat) (bytes : Z) : DataIndexer :=
  {| base_path := base_path self; allowed_extensions := allowed_extensions self;
     allowed_roots := allowed; excluded_paths := excluded;
     max_file_size_mb := mb; max_file_size_bytes := bytes;
     _conn := _conn self; _last_skipped := _last_skipped self;
     _last_errors := _last_errors self; clock_reads := clock_reads self |}.

Definition with_base_path (self : DataIndexer) (p : Path) : DataIndexer :=
  {| base_path := p; allowed_extensions := allowed_extensions self;
     allowed_roots := allowed_roots self; excluded_paths := excluded_paths self;
     max_file_size_mb := max_file_size_mb self;
     max_file_size_bytes := max_file_size_bytes self;
     _conn := _conn self; _last_skipped := _last_skipped self;
     _last_errors := _last_errors self; clock_reads := clock_reads self |}.

(** The configuration of the indexer, which a rebuild only reads. *)
Definition policy_of (self : DataIndexer)
  : Path * list string * list Path * list Path * pyfloat * Z :=
  (base_path self, allowed_extensions self, allowed_roots self,
   excluded_paths self, max_file_size_mb self, max_file_size_bytes self).

Definition tick (self : DataIndexer) : DataIndexer :=
  {| base_path := base_path self; allowed_extensions := allowed_extensions self;
     allowed_roots := allowed_roots self; excluded_paths := excluded_paths self;
     max_file_size_mb := max_file_size_mb self;
     max_file_size_bytes := max_file_size_bytes self;
     _conn := _conn self; _last_skipped := _last_skipped self;
     _last_errors := _last_errors self; clock_reads := S (clock_reads self) |}.

(** [max(1.0, float(x))]: the second argument wins only when it compares
    greater, so a NaN and minus infinity give [1.0], plus infinity itself. *)
Definition clamp_mb (x : pyfloat) : pyfloat :=
  match x with
  | PFinite q => if Qlt_bool 1 q then PFinite q else PFinite 1
  | PInf => PInf
  | PNegInf | PNaN => PFinite 1
  end.


Definition Qtrunc (q : Q) : Z := if Qle_bool 0 q then Qfloor q else Qceiling q.

(** [int(mb * 1024 * 1024)]: the products by a power of two are exact;
    [None] when the product is infinite ([OverflowError]) or a NaN. *)
Definition mb_to_bytes (mb : pyfloat) : option Z :=
  match mb with
  | PFinite q =>
      let b := (q * inject_Z 1024 * inject_Z 1024)%Q in
      if Qle_bool (inject_Z (2 ^ 1024)) b then None else Some (Qtrunc b)
  | _ => None
  end.

(** [a or b] on lists *)
Definition list_or {A} (a b : list A) : list A :=
  match a with
  | [] => b
  | _ => a
  end.

Section WithEnv.
Variable E : Env.

(** [DataIndexer.__init__]; [persisted] is the database found at [db_path],
    if any. *)
Definition __init__
    (base : option Path) (persisted : option db)
    (allowed excluded : option (list Path)) (max_mb : pyfloat)
  : attempt DataIndexer :=
  let base_path := clean E (default (project_root E ++ ["data"]) base) in
  let allowed_roots :=
    list_or (PathPolicy.normalise_paths E allowed) (PathPolicy.default_allowed_roots E) in
  let excluded_paths :=
    list_or (PathPolicy.normalise_paths E excluded) (PathPolicy.default_excluded_paths E) in
  let mb := clamp_mb max_mb in
  match mb_to_bytes mb with
  | None => Raises "OverflowError"
  | Some bytes =>
      Done {| base_path := base_path;
              allowed_extensions := lower <$> ALLOWED_EXTENSIONS;
              allowed_roots := allowed_roots;
              excluded_paths := excluded_paths;
              max_file_size_mb := mb;
              max_file_size_bytes := bytes;
              _conn := default (empty_db (fts5_supported E)) persisted;
              _last_skipped := [];
              _last_errors := [];
              clock_reads := 0 |}
  end.

(** [update_policy]: the indexer after the call, and the exception raised,
    if any (the assignments before it stay). *)
Definition update_policy (self : DataIndexer)
    (allowed excluded : option (list Path)) (max_mb : option pyfloat)
  : DataIndexer * option string :=
  let allowed_roots :=
    match allowed with
    | Some _ => list_or (PathPolicy.normalise_paths E allowed)
                        (PathPolicy.default_allowed_roots E)
    | None => allowed_roots self
    end in
  let excluded_paths :=
    match excluded with
    | Some _ =>
        let base := PathPolicy.default_excluded_paths E in
        let extras := PathPolicy.normalise_paths E excluded in
        base ++ filter (fun path => path ∉ base) extras
    | None => excluded_paths self
    end in
  match max_mb with
  | None =>
      (with_policy self allowed_roots excluded_paths
                   (max_file_size_mb self) (max_file_size_bytes self), None)
  | Some x =>
      let mb := clamp_mb x in
      match mb_to_bytes mb with
      | Some bytes => (with_policy self allowed_roots excluded_paths mb bytes, None)
      | None =>
          (with_policy self allowed_roots excluded_paths mb (max_file_size_bytes self),
           Some "OverflowError")
      end
  end.

(** [_check_allowed] *)
Definition _check_allowed (self : DataIndexer) (path : Path) : bool * option string :=
  PathPolicy.is_allowed E path (allowed_roots self) (excluded_paths self).

(** [_record_skip], [_record_error] *)
Definition _record_skip (self : DataIndexer) (path : Path) (reason : string) : DataIndexer :=
  with_diagnostics self (_last_skipped self ++ [(path_str path, reason)]) (_last_errors self).

Definition _record_error (self : DataIndexer) (path : Path) (reason : string) : DataIndexer :=
  with_diagnostics self (_last_skipped self) (_last_errors self ++ [(path_str path, reason)]).

(** [get_base_path]; the key [base_path] is only written by
    [set_base_path], with the text of a resolved path. *)
Definition get_base_path (self : DataIndexer) : Path :=
  match _get_meta (_conn self) "base_path" with
  | Some (MetaPath p) => clean E p
  | _ => base_path self
  end.

Definition unavailable (path : Path) (what : string) : option string * option string :=
  (Some (path_name path), Some (what +:+ " text extraction unavailable")).

Definition extracted (r : attempt string) : option string * option string :=
  match r with
  | Done text => (Some (str_take MAX_SNIPPET_CHARS text), None)
  | Raises msg => (None, Some ("Read error: " +:+ msg))
  end.

(** [_read_text_snippet]: [(snippet, note)] *)
Definition _read_text_snippet (self : DataIndexer) (path : Path) (size : Z)
  : option string * option string :=
  let suffix := lower (path_suffix path) in
  if max_file_size_bytes self <? size then
    (Some (path_name path),
     Some ("Skipped content (>" +:+ format_1f (max_file_size_mb self) +:+ " MB)"))
  else if bool_decide (suffix ∈ TEXT_EXTENSIONS) || bool_decide (suffix ∈ CODE_EXTENSIONS)
  then extracted (read_text E path)
  else if bool_decide (suffix = ".pdf") then
    if fitz_available E then extracted (pdf_text E path) else unavailable path "PDF"
  else if bool_decide (suffix = ".docx") then
    if docx_available E then extracted (docx_text E path) else unavailable path "DOCX"
  else if bool_decide (suffix = ".ipynb") then extracted (ipynb_markdown E path)
  else (None, Some "Unsupported format").

(** [set_base_path]: the indexer after the call, or the exception. *)
Definition set_base_path (self : DataIndexer) (path : Path) : attempt DataIndexer :=
  let resolved := clean E path in
  match _check_allowed self resolved with
  | (false, reason) =>
      Raises ("PermissionError: Cannot index '" +:+ path_str resolved +:+ "': "
              +:+ default "None" reason)
  | (true, _) =>
      if path_exists E resolved then
        Done (with_conn (with_base_path self resolved)
                (_update_meta (_conn self) "base_path" (MetaPath resolved)))
      else Raises ("FileNotFoundError: Base path '" +:+ path_str resolved
                   +:+ "' does not exist")
  end.

(** *** Cancellation *)

(** [event.is_set()] at the n-th poll of a run: the flag is cleared when the
    run starts and, once another thread has set it, stays set. *)
Definition poll (cancel_at : option nat) (n : nat) : bool :=
  match cancel_at with
  | Some k => Nat.leb k n
  | None => false
  end.

(** *** The crawl: [_collect_candidates] over [os.walk(root, followlinks=False)] *)

(** The locals of the crawl, the skips it records in [_last_skipped] and
    the polls of the cancellation flag. *)
Record walk_state := {
  w_skipped : list (string * string);
  w_candidates : list Path;
  w_visited : gset Path;
  w_polls : nat;
  w_stopped : bool;          (* the loop was left by [break] *)
}.

Definition sub_name (t : fstree) : string :=
  match t with FsDir n _ _ _ _ => n end.

Definition sub_islink (t : fstree) : bool :=
  match t with FsDir _ l _ _ _ => l end.

(** [reason or "Excluded path"] *)
Definition reason_or (reason : option string) (dflt : string) : string :=
  match reason with
  | Some r => if bool_decide (r = "") then dflt else r
  | None => dflt
  end.

(** The crawl reads the policy of the indexer through [_check_allowed] and
    [allowed_extensions], here [allowed] and [extensions]. *)
Section Crawl.
Variable allowed : Path -> bool * option string.
Variable extensions : list string.
Variable cancel_at : option nat.

(** The loop over [dirnames]: a skip is recorded for every pruned entry. *)
Definition prune_dirs (current_dir : Path) (subdirs : list fstree)
    (skipped : list (string * string)) : list (string * string) :=
  fold_left
    (fun skipped sub =>
       let subdir := current_dir ++ [sub_name sub] in
       match allowed subdir with
       | (true, _) => skipped
       | (false, reason) =>
           skipped ++ [(path_str subdir, reason_or reason "Excluded path")]
       end)
    subdirs skipped.

(** The loop over [filenames]. *)
Definition scan_files (current_dir : Path) (filenames : list string)
    (acc : list (string * string) * list Path)
  : list (string * string) * list Path :=
  fold_left
    (fun '(skipped, candidates) filename =>
       let path := current_dir ++ [filename] in
       if bool_decide (lower (path_suffix path) ∈ extensions) then
         match allowed path with
         | (true, _) => (skipped, candidates ++ [path])
         | (false, reason) =>
             (skipped ++ [(path_str path, reason_or reason "Excluded path")],
              candidates)
         end
       else (skipped, candidates))
    filenames acc.

(** One directory handed out by [os.walk], the body of the [for] loop on
    it, then the walk of the entries left in [dirnames] that are no
    links. *)
Fixpoint walk (t : fstree) (dirpath : Path) (w : walk_state) {struct t}
  : walk_state :=
  match t with
  | FsDir _ _ readable subdirs filenames =>
      if w_stopped w || negb readable then w
      else if poll cancel_at (w_polls w) then
        {| w_skipped := w_skipped w; w_candidates := w_candidates w;
           w_visited := w_visited w; w_polls := S (w_polls w);
           w_stopped := true |}
      else
        let resolved := clean E dirpath in
        if bool_decide (resolved ∈ w_visited w) then
          {| w_skipped := w_skipped w; w_candidates := w_candidates w;
             w_visited := w_visited w; w_polls := S (w_polls w);
             w_stopped := false |}
        else
          let visited := {[resolved]} ∪ w_visited w in
          match allowed dirpath with
          | (false, reason) =>
              {| w_skipped :=
                   w_skipped w
                   ++ [(path_str dirpath, reason_or reason "Excluded path")];
                 w_candidates := w_candidates w;
                 w_visited := visited; w_polls := S (w_polls w);
                 w_stopped := false |}
          | (true, _) =>
              let skipped1 := prune_dirs dirpath subdirs (w_skipped w) in
              let '(skipped2, candidates) :=
                scan_files dirpath filenames (skipped1, w_candidates w) in
              (fix descend (subs : list fstree) (w : walk_state) : walk_state :=
                 match subs with
                 | [] => w
                 | sub :: rest =>
                     let subdir := dirpath ++ [sub_name sub] in
                     if fst (allowed subdir) && negb (sub_islink sub)
                     then descend rest (walk sub subdir w)
                     else descend rest w
                 end)
                subdirs
                {| w_skipped := skipped2; w_candidates := candidates;
                   w_visited := visited; w_polls := S (w_polls w);
                   w_stopped := false |}
          end
  end.
End Crawl.

(** [_collect_candidates]: the state of the crawl when it ends. *)
Definition _collect_candidates (self : DataIndexer) (root : Path)
    (cancel_at : option nat) : walk_state :=
  walk (_check_allowed self) (allowed_extensions self) cancel_at
    (walk_tree E root) root
    {| w_skipped := _last_skipped self; w_candidates := []; w_visited := ∅;
       w_polls := 0; w_stopped := false |}.

(** *** The rebuild: [rebuild_index] *)

(** The dictionary returned by [rebuild_index]; the early return on a
    missing base directory has no ["updated"] and no ["processed"] key. *)
Record report := {
  r_documents : nat;
  r_total_scanned : nat;
  r_updated : option nat;
  r_processed : option nat;
  r_skipped : nat;
  r_errors : nat;
  r_cancelled : bool;
}.

(** The locals of the loop over the candidates, with what the loop does to
    the world outside the indexer: the calls of [on_progress] and the files
    handed to [_read_text_snippet], to [_upsert_file] and to
    [_delete_file]. *)
Record loop_state := {
  l_self : DataIndexer;
  l_updated : nat;
  l_processed : nat;
  l_seen_paths : gset Path;
  l_cancelled : bool;
  l_polls : nat;
  l_progress : list (nat * nat * string);
  l_extracted : list Path;
  l_upserted : list Path;
}.

Definition unchanged (existing : gmap Path (Q * Z)) (path : Path) (stat : Q * Z) : bool :=
  match existing !! path with
  | Some previous =>
      Qeq_bool (fst previous) (fst stat) && bool_decide (snd previous = snd stat)
  | None => false
  end.

(** [if on_progress: on_progress(idx, total, str(path))] *)
Definition report_progress (on_progress : bool) (idx total : nat) (path : Path)
    (calls : list (nat * nat * string)) : list (nat * nat * string) :=
  if on_progress then calls ++ [(idx, total, path_str path)] else calls.

(** [with self._lock: self._upsert_file(path, stat, snippet)] *)
Definition upsert (self : DataIndexer) (path : Path) (stat : Q * Z)
    (snippet : string) : DataIndexer :=
  tick (with_conn self
          (_upsert_file (_conn self) path stat snippet
                        (utcnow_iso E (clock_reads self)))).

(** [if note: self._record_skip(path, note)] *)
Definition record_note (self : DataIndexer) (path : Path) (note : option string)
  : DataIndexer :=
  match note with
  | Some n => if bool_decide (n = "") then self else _record_skip self path n
  | None => self
  end.

(** The body of the loop for one candidate, after the check of the
    cancellation flag. *)
Definition process_candidate (on_progress : bool)
    (existing : gmap Path (Q * Z)) (total idx : nat) (path : Path)
    (l : loop_state) : loop_state :=
  let seen := {[path]} ∪ l_seen_paths l in
  let processed := S (l_processed l) in
  let polls := S (l_polls l) in
  match fs_stat E path with
  | Raises exc =>
      (* record the error and [continue] *)
      {| l_self := _record_error (l_self l) path ("Stat failed: " +:+ exc);
         l_updated := l_updated l; l_processed := processed;
         l_seen_paths := seen; l_cancelled := l_cancelled l;
         l_polls := polls; l_progress := l_progress l;
         l_extracted := l_extracted l; l_upserted := l_upserted l |}
  | Done stat =>
      if unchanged existing path stat then
        {| l_self := l_self l;
           l_updated := l_updated l; l_processed := processed;
           l_seen_paths := seen; l_cancelled := l_cancelled l;
           l_polls := polls;
           l_progress := report_progress on_progress idx total path (l_progress l);
           l_extracted := l_extracted l; l_upserted := l_upserted l |}
      else
        let '(snippet, note) := _read_text_snippet (l_self l) path (snd stat) in
        let snippet :=
          default (path_name path +:+ " (no readable text found)") snippet in
        let self1 := upsert (l_self l) path stat snippet in
        {| l_self := record_note self1 path note;
           l_updated := S (l_updated l); l_processed := processed;
           l_seen_paths := seen; l_cancelled := l_cancelled l;
           l_polls := polls;
           l_progress := report_progress on_progress idx total path (l_progress l);
           l_extracted := l_extracted l ++ [path];
           l_upserted := l_upserted l ++ [path] |}
  end.

(** [if event.is_set(): cancelled = True; break] *)
Definition cancel_loop (l : loop_state) : loop_state :=
  {| l_self := l_self l; l_updated := l_updated l;
     l_processed := l_processed l; l_seen_paths := l_seen_paths l;
     l_cancelled := true; l_polls := S (l_polls l);
     l_progress := l_progress l; l_extracted := l_extracted l;
     l_upserted := l_upserted l |}.

(** [for idx, path in enumerate(candidates, start=1)] *)
Fixpoint rebuild_loop (on_progress : bool) (cancel_at : option nat)
    (existing : gmap Path (Q * Z)) (total idx : nat)
    (candidates : list Path) (l : loop_state) : loop_state :=
  match candidates with
  | [] => l
  | path :: rest =>
      if poll cancel_at (l_polls l) then cancel_loop l
      else
        rebuild_loop on_progress cancel_at existing total (S idx) rest
          (process_candidate on_progress existing total idx path l)
  end.

(** The candidates that a loop started after [polls] polls gets to before
    the flag is seen set. *)
Definition processed_prefix (cancel_at : option nat) (polls : nat)
    (candidates : list Path) : list Path :=
  match cancel_at with
  | Some k => take (k - polls) candidates
  | None => candidates
  end.

(** The state of the [files] table during a loop that started from the
    snapshot [existing]: a path holds what the snapshot held or what [stat]
    gives now; a path the loop has seen and whose [stat] succeeds holds
    what [stat] gives; no path is there that was neither in the snapshot
    nor seen. *)
Definition in_step (existing : gmap Path (Q * Z)) (l : loop_state) : Prop :=
  (forall p, snapshot (_conn (l_self l)) !! p = existing !! p
             \/ exists stat, fs_stat E p = Done stat
                             /\ snapshot (_conn (l_self l)) !! p = Some stat)
  /\ (forall p stat, p ∈ l_seen_paths l -> fs_stat E p = Done stat ->
                     unchanged (snapshot (_conn (l_self l))) p stat = true)
  /\ dom (snapshot (_conn (l_self l))) ⊆ dom existing ∪ l_seen_paths l.



(** Whether [path.stat()] returns. *)
Definition stat_succeeds (path : Path) : bool :=
  match fs_stat E path with
  | Done _ => true
  | Raises _ => false
  end.

(** What a run of [rebuild_index] leaves behind. *)
Record run := {
  run_self : DataIndexer;
  run_report : report;
  run_candidates : list Path;
  run_seen : gset Path;
  run_progress : list (nat * nat * string);
  run_extracted : list Path;
  run_upserted : list Path;
  run_deleted : list Path;
}.

(** [for stale in stale_paths: self._delete_file(stale)] *)
Definition delete_stale (self : DataIndexer) (stale_paths : list Path) : DataIndexer :=
  fold_left (fun self stale => with_conn self (_delete_file (_conn self) stale))
            stale_paths self.

(** The locals before the first candidate. *)
Definition start_loop (self : DataIndexer) (polls : nat) : loop_state :=
  {| l_self := self; l_updated := 0; l_processed := 0;
     l_seen_paths := ∅; l_cancelled := false; l_polls := polls;
     l_progress := []; l_extracted := []; l_upserted := [] |}.

(** The part of [rebuild_index] from the reset of the diagnostics to the
    end of the loop: the crawl, the snapshot [existing], the loop. *)
Definition crawl_and_loop (self : DataIndexer) (on_progress : bool)
    (cancel_at : option nat) : list Path * gmap Path (Q * Z) * loop_state :=
  let base := get_base_path self in
  let self0 := with_diagnostics self [] [] in
  let w := _collect_candidates self0 base cancel_at in
  let self1 := with_diagnostics self0 (w_skipped w) [] in
  let candidates := w_candidates w in
  let existing := snapshot (_conn self1) in
  (candidates, existing,
   rebuild_loop on_progress cancel_at existing (length candidates) 1 candidates
                (start_loop self1 (w_polls w))).

(** The part of [rebuild_index] after the loop: the stale paths are
    deleted, the metadata written, the report made. *)
Definition finish_run (candidates : list Path) (existing : gmap Path (Q * Z))
    (l : loop_state) : run :=
  let stale_paths := elements (dom existing ∖ l_seen_paths l) in
  let self1 := delete_stale (l_self l) stale_paths in
  let documents := _count_files (_conn self1) in
  let self2 :=
    tick (with_conn self1
            (_update_meta (_conn self1) "last_indexed"
                          (MetaText (utcnow_iso E (clock_reads self1))))) in
  let self3 :=
    with_conn self2
      (_update_meta (_conn self2) "document_count" (MetaText (pretty documents))) in
  {| run_self := self3;
     run_report := {| r_documents := documents;
                      r_total_scanned := length candidates;
                      r_updated := Some (l_updated l);
                      r_processed := Some (l_processed l);
                      r_skipped := length (_last_skipped self3);
                      r_errors := length (_last_errors self3);
                      r_cancelled := l_cancelled l |};
     run_candidates := candidates; run_seen := l_seen_paths l;
     run_progress := l_progress l;
     run_extracted := l_extracted l; run_upserted := l_upserted l;
     run_deleted := stale_paths |}.

(** [rebuild_index].  [on_progress] says whether a callback was given;
    [cancel_at] is the schedule of the cancellation flag of this run, its
    polls counted from the crawl on. *)
Definition rebuild_index (self : DataIndexer) (on_progress : bool)
    (cancel_at : option nat) : run :=
  let base := get_base_path self in
  if negb (path_exists E base) then
    {| run_self := self;
       run_report := {| r_documents := 0; r_total_scanned := 0; r_updated := None;
                        r_processed := None; r_skipped := 0; r_errors := 0;
                        r_cancelled := false |};
       run_candidates := []; run_seen := ∅; run_progress := [];
       run_extracted := []; run_upserted := []; run_deleted := [] |}
  else
    let '(candidates, existing, l) := crawl_and_loop self on_progress cancel_at in
    finish_run candidates existing l.

(** *** [stats] and [last_run_details] *)

(** The dictionary returned by [stats]. *)
Record stats_report := {
  s_documents : nat;
  s_last_indexed : string;
  s_base_path : string;
  s_skipped : nat;
  s_errors : nat;
}.

(** The text of a metadata value. *)
Definition meta_text (v : meta_value) : string :=
  match v with
  | MetaPath p => path_str p
  | MetaText s => s
  end.

(** [stats] *)
Definition stats (self : DataIndexer) : stats_report :=
  let base := get_base_path self in
  {| s_documents := length (files (_conn self));
     s_last_indexed :=
       default "Never" (meta_text <$> _get_meta (_conn self) "last_indexed");
     s_base_path := path_str base;
     s_skipped := length (_last_skipped self);
     s_errors := length (_last_errors self) |}.

(** [last_run_details]: copies of the two lists, [(skipped, errors)]. *)
Definition last_run_details (self : DataIndexer)
  : list (string * string) * list (string * string) :=
  (_last_skipped self, _last_errors self).

End WithEnv.
End Indexer.

(** ** [difflib.SequenceMatcher(None, a, b).ratio()] *)

Module Difflib.
Local Open Scope nat_scope.

Definition chars (s : string) : list ascii := list_ascii_of_string s.

(** The indices of [c] in [b], ascending: [b2j[c]] before the purge. *)
Fixpoint indices_from (c : ascii) (b : list ascii) (j : nat) : list nat :=
  match b with
  | [] => []
  | d :: rest =>
      if bool_decide (d = c) then j :: indices_from c rest (S j)
      else indices_from c rest (S j)
  end.

(** [__chain_b] with [isjunk = None] and [autojunk = True]: in a [b] of 200
    elements or more, an element that occurs more than [n // 100 + 1] times
    is popular and leaves [b2j]. *)
Definition b2j (b : list ascii) (c : ascii) : list nat :=
  let idxs := indices_from c b 0 in
  let n := length b in
  if Nat.leb 200 n && Nat.ltb (n / 100 + 1) (length idxs) then [] else idxs.

(** [j2len.get(j, 0)] *)
Fixpoint j2len_get (j2len : list (nat * nat)) (j : nat) : nat :=
  match j2len with
  | [] => 0
  | (j', k) :: rest => if Nat.eqb j' j then k else j2len_get rest j
  end.

(** [j2len.get(j - 1, 0)]: the key [-1] is never present. *)
Definition j2len_prev (j2len : list (nat * nat)) (j : nat) : nat :=
  match j with
  | O => 0
  | S j' => j2len_get j2len j'
  end.

Definition match_block : Type := nat * nat * nat.   (* besti, bestj, bestsize *)

(** The inner loop of [find_longest_match] for one [i]. *)
Definition scan_row (b : list ascii) (blo bhi i : nat) (ai : ascii)
    (j2len : list (nat * nat)) (best : match_block)
  : list (nat * nat) * match_block :=
  fold_left
    (fun '(newj2len, best) j =>
       if Nat.ltb j blo then (newj2len, best)
       else if Nat.leb bhi j then (newj2len, best)
       else
         let k := j2len_prev j2len j + 1 in
         let newj2len := (j, k) :: newj2len in
         if Nat.ltb (snd best) k then (newj2len, (i + 1 - k, j + 1 - k, k))
         else (newj2len, best))
    (b2j b ai) ([], best).

(** [while besti > alo and bestj > blo and a[besti-1] == b[bestj-1]] *)
Fixpoint extend_left (fuel : nat) (a b : list ascii) (alo blo : nat)
    (best : match_block) : match_block :=
  match fuel with
  | O => best
  | S fuel' =>
      let '(besti, bestj, bestsize) := best in
      if Nat.ltb alo besti && Nat.ltb blo bestj
         && bool_decide (a !! (besti - 1) = b !! (bestj - 1))
      then extend_left fuel' a b alo blo (besti - 1, bestj - 1, bestsize + 1)
      else best
  end.

(** [while besti+bestsize < ahi and bestj+bestsize < bhi and
    a[besti+bestsize] == b[bestj+bestsize]] *)
Fixpoint extend_right (fuel : nat) (a b : list ascii) (ahi bhi : nat)
    (best : match_block) : match_block :=
  match fuel with
  | O => best
  | S fuel' =>
      let '(besti, bestj, bestsize) := best in
      if Nat.ltb (besti + bestsize) ahi && Nat.ltb (bestj + bestsize) bhi
         && bool_decide (a !! (besti + bestsize) = b !! (bestj + bestsize))
      then extend_right fuel' a b ahi bhi (besti, bestj, bestsize + 1)
      else best
  end.

(** [find_longest_match(alo, ahi, blo, bhi)]; no element is junk, so the two
    loops over junk elements never run.  The first extension loop runs at
    most [besti] times, the second at most [ahi] times. *)
Definition find_longest_match (a b : list ascii) (alo ahi blo bhi : nat) : match_block :=
  let '(_, best) :=
    fold_left
      (fun '(j2len, best) i =>
         match a !! i with
         | Some ai => scan_row b blo bhi i ai j2len best
         | None => ([], best)
         end)
      (seq alo (ahi - alo)) ([], (alo, blo, 0)%nat) in
  let best := extend_left (fst (fst best)) a b alo blo best in
  extend_right ahi a b ahi bhi best.

(** The sum of the sizes of [get_matching_blocks()]: the longest match of
    the range, then the ranges left and right of it.  Each level leaves
    ranges of [a] that are strictly shorter, so [fuel] above the length of
    the range is never used up. *)
Fixpoint matching_size (fuel : nat) (a b : list ascii) (alo ahi blo bhi : nat) : nat :=
  match fuel with
  | O => 0
  | S fuel' =>
      let '(i, j, k) := find_longest_match a b alo ahi blo bhi in
      if Nat.eqb k 0 then 0
      else
        k + (if Nat.ltb alo i && Nat.ltb blo j
             then matching_size fuel' a b alo i blo j else 0)
          + (if Nat.ltb (i + k) ahi && Nat.ltb (j + k) bhi
             then matching_size fuel' a b (i + k) ahi (j + k) bhi else 0)
  end.

(** A block that starts at or after [alo] and ends at or before [hi]. *)
Definition block_within (alo hi : nat) (best : match_block) : Prop :=
  alo <= best.1.1 /\ best.1.1 + best.2 <= hi.

(** No run recorded in [j2len] is longer than [n]. *)
Definition j2len_below (n : nat) (j2len : list (nat * nat)) : Prop :=
  forall j k, (j, k) ∈ j2len -> k <= n.

Definition matches (a b : string) : nat :=
  let a := chars a in
  let b := chars b in
  matching_size (S (length a)) a b 0 (length a) 0 (length b).

(** [ratio()]: [2.0 * matches / length], and [1.0] for two empty strings. *)
Definition ratio (a b : string) : Q :=
  let total := (String.length a + String.length b)%nat in
  if Nat.eqb total 0 then 1%Q
  else (inject_Z (2 * Z.of_nat (matches a b)) / inject_Z (Z.of_nat total))%Q.

End Difflib.

(** ** RankedSearch: [DataIndexer.search] *)

Module Search.
Import Store Indexer.

(** A Python [dict] with keys of type [K]: the items in insertion order. *)
Fixpoint dict_set {K V} `{EqDecision K} (k : K) (v : V) (d : list (K * V)) : list (K * V) :=
  match d with
  | [] => [(k, v)]
  | (k', v') :: rest =>
      if bool_decide (k' = k) then (k, v) :: rest else (k', v') :: dict_set k v rest
  end.

Definition dict_get {K V} `{EqDecision K} (k : K) (d : list (K * V)) : option V :=
  snd <$> List.find (fun kv => bool_decide (fst kv = k)) d.

(** [str.isspace()] on the ASCII range *)
Definition is_space (c : ascii) : bool :=
  let n := nat_of_ascii c in
  (Nat.leb 9 n && Nat.leb n 13) || (Nat.leb 28 n && Nat.leb n 32).

Fixpoint lstrip (s : string) : string :=
  match s with
  | EmptyString => EmptyString
  | String c rest => if is_space c then lstrip rest else s
  end.

Fixpoint rstrip (s : string) : string :=
  match s with
  | EmptyString => EmptyString
  | String c rest =>
      match rstrip rest with
      | EmptyString => if is_space c then EmptyString else String c EmptyString
      | rest' => String c rest'
      end
  end.

(** [str.strip()] *)
Definition strip (s : string) : string := rstrip (lstrip s).

(** The character class of the pattern [r"[\\w]+"]: in a raw string the two
    backslashes are an escaped backslash, so the class holds the backslash
    and the letter [w]. *)
Definition in_token_class (c : ascii) : bool :=
  bool_decide (c = "\"%char) || bool_decide (c = "w"%char).

(** [re.findall(r"[\\w]+", s)]: the maximal runs of class characters.
    [run] is the run being read, its characters in reverse. *)
Fixpoint findall_runs (s : string) (run : list ascii) : list string :=
  let flush := match run with
               | [] => []
               | _ => [string_of_list_ascii (rev run)]
               end in
  match s with
  | EmptyString => flush
  | String c rest =>
      if in_token_class c then findall_runs rest (c :: run)
      else flush ++ findall_runs rest []
  end.

(** [[tok for tok in re.findall(r"[\\w]+", lower_query) if tok]] *)
Definition tokenize (lower_query : string) : list string :=
  filter (fun tok => tok ≠ "") (findall_runs lower_query []).

(** The score of a file name against the query, before the recency bonus
    and the depth penalty.  The threshold [0.6] is the rational 3/5: the
    quotient [2.0 * matches / length] of two small integers rounds to a
    double at or above the double [0.6] exactly when it is at least 3/5. *)
Definition filename_score (lower_query : string) (tokens : list string)
    (filename : string) : Q :=
  let score :=
    if bool_decide (filename = lower_query) then 150%Q
    else if startswith lower_query filename then 110%Q
    else if contains lower_query filename then 90%Q
    else 0%Q in
  let score :=
    if Qeq_bool score 0 && Nat.leb 3 (String.length lower_query) then
      let ratio := Difflib.ratio lower_query filename in
      if Qle_bool (6 # 10) ratio then (score + ratio * 70)%Q else score
    else score in
  fold_left
    (fun score token =>
       if bool_decide (token ≠ "") && contains token filename
       then (score + 15)%Q else score)
    tokens score.

(** [name_scores[path] += score + recency_bonus - depth_penalty] *)
Definition name_scores (now : Q) (lower_query : string) (tokens : list string)
    (file_rows : list file_row) : list (Path * Q) :=
  fold_left
    (fun scores row =>
       let path := f_path row in
       let filename := lower (path_name path) in
       let score := filename_score lower_query tokens filename in
       if Qlt_bool 0 score then
         let age_days := pymax 0 ((now - f_mtime row) / 86400) in
         let recency_bonus := pymax 5 (35 - age_days) in
         let depth_penalty :=
           pymax 0 (inject_Z (Z.of_nat (length path)) * (15 # 10)) in
         let sofar := default 0%Q (dict_get path scores) in
         dict_set path (sofar + (score + recency_bonus - depth_penalty))%Q scores
       else scores)
    file_rows [].

(** The two characters [%] and [_] of an SQL [LIKE] pattern; the comparison
    of the others ignores the case of ASCII letters. *)
Fixpoint sql_like (pattern : string) : string -> bool :=
  match pattern with
  | EmptyString => fun s => bool_decide (s = "")
  | String c pattern' =>
      if bool_decide (c = "%"%char) then
        fix any (s : string) : bool :=
          sql_like pattern' s ||
          match s with
          | EmptyString => false
          | String _ s' => any s'
          end
      else if bool_decide (c = "_"%char) then
        fun s => match s with
                 | EmptyString => false
                 | String _ s' => sql_like pattern' s'
                 end
      else
        fun s => match s with
                 | EmptyString => false
                 | String d s' =>
                     bool_decide (lower_ascii c = lower_ascii d) && sql_like pattern' s'
                 end
  end.

(** [" OR ".join(f"{token}*" for token in tokens)] *)
Fixpoint match_query (tokens : list string) : string :=
  match tokens with
  | [] => ""
  | [t] => t +:+ "*"
  | t :: rest => t +:+ "*" +:+ " OR " +:+ match_query rest
  end.

Definition path_of_id (rows : list file_row) (i : Z) : option Path :=
  f_path <$> List.find (fun r => bool_decide (f_id r = i)) rows.

Section WithEnv.
Variable E : Env.

(** The rows of the full-text query: the matches of the engine in rank
    order, joined with [files] on [files.id = file_content.rowid], the first
    [2 * limit] of them. *)
Definition fts_rows (d : db) (rows : list fts_row) (tokens : list string)
    (limit : nat) : list (Path * option string * option Q) :=
  take (limit * 2)
    (omap (fun '(rowid, preview, rank) =>
             (fun path => (path, preview, rank)) <$> path_of_id (files d) rowid)
          (fts5_match E rows (match_query tokens))).

(** The rows of the fallback query: the content rows in rowid order, joined
    with [files] on [files.id = file_content.file_id], those whose lowered
    content is [LIKE '%query%'], the first [2 * limit] of them. *)
Definition like_rows (d : db) (rows : list plain_row) (lower_query : string)
    (limit : nat) : list (Path * option string * option Q) :=
  let like_term := "%" +:+ lower_query +:+ "%" in
  take (limit * 2)
    (omap (fun c =>
             if sql_like like_term (lower (pc_content c)) then
               (fun path => (path, Some (str_take 400 (pc_content c)), None))
                 <$> path_of_id (files d) (pc_file_id c)
             else None)
          rows).

(** [content_scores]: [path -> (score, preview)] *)
Definition content_scores (d : db) (lower_query : string) (tokens : list string)
    (limit : nat) : list (Path * (Q * option string)) :=
  match tokens with
  | [] => []
  | _ =>
      match file_content d with
      | FtsTable rows =>
          fold_left
            (fun scores '(path, preview, rank) =>
               let rank := default 0%Q rank in
               dict_set path (pymax 0 (120 - rank), preview) scores)
            (fts_rows d rows tokens limit) []
      | PlainTable rows =>
          fold_left
            (fun scores '(path, preview, _) => dict_set path (60%Q, preview) scores)
            (like_rows d rows lower_query limit) []
      end
  end.

(** A result of [search]. *)
Record entry := {
  e_path : string;
  e_name : string;
  e_score : Q;
  e_snippet : string;
  e_modified : string;
  e_modified_human : string;
  e_size_bytes : Z;
  e_size_human : string;
}.

Definition with_score (e : entry) (score : Q) (snippet : string) : entry :=
  {| e_path := e_path e; e_name := e_name e; e_score := score;
     e_snippet := snippet; e_modified := e_modified e;
     e_modified_human := e_modified_human e; e_size_bytes := e_size_bytes e;
     e_size_human := e_size_human e |}.

(** The entry of a file before any score is added. *)
Definition blank_entry (now : Q) (row : file_row) : entry :=
  {| e_path := path_str (f_path row);
     e_name := path_name (f_path row);
     e_score := 0;
     e_snippet := "";
     e_modified := fromtimestamp_iso E (f_mtime row);
     e_modified_human := naturaltime E now (f_mtime row);
     e_size_bytes := f_size row;
     e_size_human := naturalsize E (f_size row) |}.

(** [merged[path] = entry] for every row of [files] *)
Definition merged_blank (now : Q) (file_rows : list file_row) : list (Path * entry) :=
  fold_left (fun merged row => dict_set (f_path row) (blank_entry now row) merged)
            file_rows [].

(** The loop over [name_scores.items()] *)
Definition merge_names (query : string) (scores : list (Path * Q))
    (merged : list (Path * entry)) : list (Path * entry) :=
  fold_left
    (fun merged '(path, score) =>
       match dict_get path merged with
       | Some e =>
           let snippet :=
             if bool_decide (e_snippet e = "")
             then "Filename match for '" +:+ query +:+ "'"
             else e_snippet e in
           dict_set path (with_score e (e_score e + score)%Q snippet) merged
       | None => merged
       end)
    scores merged.

(** The loop over [content_scores.items()] *)
Definition merge_contents (scores : list (Path * (Q * option string)))
    (merged : list (Path * entry)) : list (Path * entry) :=
  fold_left
    (fun merged '(path, (score, snippet)) =>
       match dict_get path merged with
       | Some e =>
           let snippet_text := strip (default "" snippet) in
           let snippet :=
             if bool_decide (snippet_text ≠ "") then snippet_text
             else if bool_decide (e_snippet e = "") then "Content match"
             else e_snippet e in
           dict_set path (with_score e (e_score e + score)%Q snippet) merged
       | None => merged
       end)
    scores merged.

(** The order of the keys [(-float(item["score"]), item["name"],
    item["path"])]: [key_lt x y] when the key of [x] is below the key
    of [y]. *)
Definition key_lt (x y : entry) : bool :=
  match (- e_score x ?= - e_score y)%Q with
  | Lt => true
  | Gt => false
  | Eq =>
      match String.compare (e_name x) (e_name y) with
      | Lt => true
      | Gt => false
      | Eq => String.ltb (e_path x) (e_path y)
      end
  end.

(** [sorted(items, key=...)], a stable sort: an item goes in front of the
    first item that is not below it. *)
Fixpoint insert_sorted (x : entry) (l : list entry) : list entry :=
  match l with
  | [] => [x]
  | y :: rest => if key_lt y x then y :: insert_sorted x rest else x :: l
  end.

Definition sorted (l : list entry) : list entry := fold_right insert_sorted [] l.

(** [search(query, limit)]; [now] is the reading of [time.time()]. *)
Definition search (self : DataIndexer) (now : Q) (query : string) (limit : Z)
  : list entry :=
  let query := strip query in
  if bool_decide (query = "") then []
  else
    let limit := Z.to_nat (Z.max 1 limit) in
    let lower_query := lower query in
    let tokens := tokenize lower_query in
    let file_rows := files (_conn self) in
    let names := name_scores now lower_query tokens file_rows in
    let contents := content_scores (_conn self) lower_query tokens limit in
    let merged := merged_blank now file_rows in
    let merged := merge_names query names merged in
    let merged := merge_contents contents merged in
    let ranked := sorted (snd <$> merged) in
    take limit ranked.

End WithEnv.
End Search.

(** ** The application's policy settings: [app_core.py] *)

Module AppCore.

(** A value of the JSON configuration that the policy settings write. *)
Inductive cfg_value :=
  | CfgPaths (paths : list string)
  | CfgFloat (x : pyfloat).

(** The fields of [NousApp] that hold the access policy.  [data_indexer] is
    [None] until the constructor has created the indexer
    ([hasattr(self, "data_indexer")]).  A list written as
    [[str(p) for p in paths]] and read back through [Path(entry)] is the
    list of the paths. *)
Record NousApp := {
  index_root : Path;
  allowed_roots : list Path;
  excluded_custom : list Path;
  default_excluded : list Path;
  excluded_paths : list Path;
  max_index_file_size_mb : pyfloat;
  mode : string;
  _secure_allowed_roots_snapshot : list Path;
  data_indexer : option Indexer.DataIndexer;
  config : list (string * cfg_value);
}.

Definition with_allowed (app : NousApp) (roots : list Path) : NousApp :=
  {| index_root := index_root app; allowed_roots := roots;
     excluded_custom := excluded_custom app; default_excluded := default_excluded app;
     excluded_paths := excluded_paths app;
     max_index_file_size_mb := max_index_file_size_mb app; mode := mode app;
     _secure_allowed_roots_snapshot := _secure_allowed_roots_snapshot app;
     data_indexer := data_indexer app; config := config app |}.

Definition with_excluded (app : NousApp) (custom effective : list Path) : NousApp :=
  {| index_root := index_root app; allowed_roots := allowed_roots app;
     excluded_custom := custom; default_excluded := default_excluded app;
     excluded_paths := effective;
     max_index_file_size_mb := max_index_file_size_mb app; mode := mode app;
     _secure_allowed_roots_snapshot := _secure_allowed_roots_snapshot app;
     data_indexer := data_indexer app; config := config app |}.

Definition with_max_size (app : NousApp) (mb : pyfloat) : NousApp :=
  {| index_root := index_root app; allowed_roots := allowed_roots app;
     excluded_custom := excluded_custom app; default_excluded := default_excluded app;
     excluded_paths := excluded_paths app;
     max_index_file_size_mb := mb; mode := mode app;
     _secure_allowed_roots_snapshot := _secure_allowed_roots_snapshot app;
     data_indexer := data_indexer app; config := config app |}.

Definition with_snapshot (app : NousApp) (roots : list Path) : NousApp :=
  {| index_root := index_root app; allowed_roots := allowed_roots app;
     excluded_custom := excluded_custom app; default_excluded := default_excluded app;
     excluded_paths := excluded_paths app;
     max_index_file_size_mb := max_index_file_size_mb app; mode := mode app;
     _secure_allowed_roots_snapshot := roots;
     data_indexer := data_indexer app; config := config app |}.

Definition with_indexer (app : NousApp) (ix : option Indexer.DataIndexer) : NousApp :=
  {| index_root := index_root app; allowed_roots := allowed_roots app;
     excluded_custom := excluded_custom app; default_excluded := default_excluded app;
     excluded_paths := excluded_paths app;
     max_index_file_size_mb := max_index_file_size_mb app; mode := mode app;
     _secure_allowed_roots_snapshot := _secure_allowed_roots_snapshot app;
     data_indexer := ix; config := config app |}.

(** [self.config.set(key, value)] *)
Definition config_set (app : NousApp) (key : string) (v : cfg_value) : NousApp :=
  {| index_root := index_root app; allowed_roots := allowed_roots app;
     excluded_custom := excluded_custom app; default_excluded := default_excluded app;
     excluded_paths := excluded_paths app;
     max_index_file_size_mb := max_index_file_size_mb app; mode := mode app;
     _secure_allowed_roots_snapshot := _secure_allowed_roots_snapshot app;
     data_indexer := data_indexer app;
     config := Search.dict_set key v (config app) |}.

(** [min(size, 2048.0)]: the second argument wins only when it compares
    smaller, so a NaN stays a NaN. *)
Definition min_2048 (size : pyfloat) : pyfloat :=
  match size with
  | PFinite q => if Qlt_bool 2048 q then PFinite 2048 else PFinite q
  | PInf => PFinite 2048
  | PNegInf => PNegInf
  | PNaN => PNaN
  end.

Section WithEnv.
Variable E : Env.

(** [_sync_indexer_policy]: the application after the call and the exception
    that [update_policy] raised, if any. *)
Definition _sync_indexer_policy (app : NousApp) : NousApp * option string :=
  match data_indexer app with
  | Some ix =>
      let '(ix', raised) :=
        Indexer.update_policy E ix (Some (allowed_roots app))
          (Some (excluded_paths app)) (Some (max_index_file_size_mb app)) in
      (with_indexer app (Some ix'), raised)
  | None => (app, None)
  end.

(** [_rebuild_exclusion_list] *)
Definition _rebuild_exclusion_list (app : NousApp) : NousApp :=
  with_excluded app (excluded_custom app)
    (default_excluded app
     ++ filter (fun path => path ∉ default_excluded app) (excluded_custom app)).

(** [_persist_allowed_roots] *)
Definition _persist_allowed_roots (app : NousApp) : NousApp * option string :=
  let app := with_allowed app (PathPolicy.normalise_paths E (Some (allowed_roots app))) in
  let app := config_set app "allowed_roots" (CfgPaths (path_str <$> allowed_roots app)) in
  _sync_indexer_policy app.

(** [_persist_excluded_paths] *)
Definition _persist_excluded_paths (app : NousApp) : NousApp * option string :=
  let app :=
    with_excluded app (PathPolicy.normalise_paths E (Some (excluded_custom app)))
                  (excluded_paths app) in
  let app := _rebuild_exclusion_list app in
  let app := config_set app "excluded_paths" (CfgPaths (path_str <$> excluded_custom app)) in
  _sync_indexer_policy app.

(** [is_path_allowed] *)
Definition is_path_allowed (app : NousApp) (path : Path) : bool :=
  fst (PathPolicy.is_allowed E path (allowed_roots app) (excluded_paths app)).

(** [set_max_index_file_size]; [value = None] when [float(value)] raises
    [TypeError] or [ValueError]. *)
Definition set_max_index_file_size (app : NousApp) (value : option pyfloat)
  : NousApp * option string :=
  match value with
  | None => (app, None)
  | Some size =>
      let size := Indexer.clamp_mb (min_2048 size) in
      let app := with_max_size app size in
      let app := config_set app "max_index_file_size_mb" (CfgFloat size) in
      _sync_indexer_policy app
  end.

(** [if self.mode == "secure": self._secure_allowed_roots_snapshot = ...] *)
Definition snapshot_if_secure (app : NousApp) : NousApp :=
  if bool_decide (mode app = "secure") then with_snapshot app (allowed_roots app)
  else app.

(** [add_allowed_root].  In the four methods below
    [Path(path).expanduser().resolve()] is taken to return, as it does in
    [_clean]. *)
Definition add_allowed_root (app : NousApp) (path : Path) : NousApp * option string :=
  let resolved := clean E path in
  if bool_decide (resolved ∈ allowed_roots app) then (app, None)
  else
    let '(app, raised) :=
      _persist_allowed_roots (with_allowed app (allowed_roots app ++ [resolved])) in
    match raised with
    | Some exc => (app, Some exc)
    | None => (snapshot_if_secure app, None)
    end.

(** [remove_allowed_root] *)
Definition remove_allowed_root (app : NousApp) (path : Path) : NousApp * option string :=
  let resolved := clean E path in
  if bool_decide (resolved = index_root app) then (app, None)
  else
    let roots := filter (fun p => p ≠ resolved) (allowed_roots app) in
    let roots := Indexer.list_or roots (PathPolicy.default_allowed_roots E) in
    let '(app, raised) := _persist_allowed_roots (with_allowed app roots) in
    match raised with
    | Some exc => (app, Some exc)
    | None => (snapshot_if_secure app, None)
    end.

(** [add_excluded_path] *)
Definition add_excluded_path (app : NousApp) (path : Path) : NousApp * option string :=
  let resolved := clean E path in
  if bool_decide (resolved ∉ excluded_custom app)
     && bool_decide (resolved ∉ default_excluded app)
  then _persist_excluded_paths
         (with_excluded app (excluded_custom app ++ [resolved]) (excluded_paths app))
  else (app, None).

(** [remove_excluded_path] *)
Definition remove_excluded_path (app : NousApp) (path : Path) : NousApp * option string :=
  let resolved := clean E path in
  _persist_excluded_paths
    (with_excluded app (filter (fun p => p ≠ resolved) (excluded_custom app))
                   (excluded_paths app)).

End WithEnv.
End AppCore.


(** ** Concrete environments and stores for the examples *)

Module Fixtures.
Import Store Indexer Search.

(** A POSIX machine on which every path is already canonical, with the
    given tree under the base directory, file metadata and file texts. *)
Definition posix_env (tree : fstree) (stat : Path -> attempt (Q * Z))
    (text : Path -> attempt string) (fts5 : bool) : Env :=
  {| clean := fun p => p;
     os_platform := Linux;
     home := ["/"; "home"; "u"];
     cwd := Some ["/"; "home"; "u"];
     userprofile := ["C:\"; "Users"; "u"];
     project_root := ["/"; "opt"; "nous"];
     path_exists := fun _ => true;
     walk_tree := fun _ => tree;
     fs_stat := stat;
     read_text := text;
     fitz_available := false;
     pdf_text := fun _ => Raises "no decoder";
     docx_available := false;
     docx_text := fun _ => Raises "no decoder";
     ipynb_markdown := fun _ => Raises "no decoder";
     utcnow_iso := fun n => "2025-01-01T00:00:" +:+ pretty n;
     fts5_supported := fts5;
     fts5_match := fun _ _ => [];
     fromtimestamp_iso := fun _ => "1970-01-01T00:00:00";
     naturaltime := fun _ _ => "a moment ago";
     naturalsize := fun n => pretty n +:+ " Bytes" |}.

Definition docs : Path := ["/"; "home"; "u"; "docs"].

(** [/home/u/docs] holding [notes.md] and [notes2.md] *)
Definition notes_tree : fstree :=
  FsDir "docs" false true [] ["notes.md"; "notes2.md"].

Definition notes_stat (p : Path) : attempt (Q * Z) :=
  if bool_decide (p = docs ++ ["notes.md"]) then Done (1700000000%Q, 24)
  else if bool_decide (p = docs ++ ["notes2.md"]) then Done (1700000100%Q, 12)
  else Raises "[Errno 2] No such file or directory".

Definition notes_text (p : Path) : attempt string :=
  if bool_decide (p = docs ++ ["notes.md"]) then Done "quarterly revenue report"
  else if bool_decide (p = docs ++ ["notes2.md"]) then Done "grocery list"
  else Raises "[Errno 2] No such file or directory".

Definition notes_env (fts5 : bool) : Env :=
  posix_env notes_tree notes_stat notes_text fts5.

(** The indexer built on [docs] with the defaults of the application. *)
Definition new_indexer (E : Env) (excluded : option (list Path)) (mb : pyfloat)
  : option DataIndexer :=
  match __init__ E (Some docs) None (Some [["/"; "home"; "u"]]) excluded mb with
  | Done self => Some self
  | Raises _ => None
  end.

(** The indexer that [__init__] builds on [docs] with the home directory
    as allowed root, the default exclusions, and a size ceiling of [mb]
    MB, on a new database. *)
Definition indexer_on (E : Env) (mb : Z) : DataIndexer :=
  {| base_path := docs;
     allowed_extensions := ALLOWED_EXTENSIONS;
     allowed_roots := [["/"; "home"; "u"]];
     excluded_paths := PathPolicy.default_excluded_paths E;
     max_file_size_mb := PFinite (inject_Z mb);
     max_file_size_bytes := mb * 1024 * 1024;
     _conn := empty_db (fts5_supported E);
     _last_skipped := [];
     _last_errors := [];
     clock_reads := 0 |}.





(** [/home/u/docs] listing [gone.txt], a file that is removed before the
    rebuild loop gets to it: its [stat] fails. *)
Definition gone_tree : fstree := FsDir "docs" false true [] ["gone.txt"].

Definition gone_env : Env :=
  posix_env gone_tree
    (fun _ => Raises "[Errno 2] No such file or directory")
    (fun _ => Raises "[Errno 2] No such file or directory") true.

(** The index of [notes.md] and [notes2.md] after a rebuild, and its two
    [files] rows. *)
Definition notes_index (fts5 : bool) : DataIndexer :=
  run_self (rebuild_index (notes_env fts5) (indexer_on (notes_env fts5) 8) false None).

Definition notes_row : file_row :=
  {| f_id := 1; f_path := docs ++ ["notes.md"]; f_mtime := 1700000000;
     f_size := 24; f_indexed_at := "2025-01-01T00:00:0" |}.

Definition notes2_row : file_row :=
  {| f_id := 2; f_path := docs ++ ["notes2.md"]; f_mtime := 1700000100;
     f_size := 12; f_indexed_at := "2025-01-01T00:00:1" |}.

(** The application on the machine of the examples: the home directory as
    its one allowed root, the default exclusions, secure mode, and the
    indexer of the examples. *)
Definition notes_app : AppCore.NousApp :=
  {| AppCore.index_root := docs;
     AppCore.allowed_roots := [["/"; "home"; "u"]];
     AppCore.excluded_custom := [];
     AppCore.default_excluded := PathPolicy.default_excluded_paths (notes_env true);
     AppCore.excluded_paths := PathPolicy.default_excluded_paths (notes_env true);
     AppCore.max_index_file_size_mb := PFinite 8;
     AppCore.mode := "secure";
     AppCore._secure_allowed_roots_snapshot := [["/"; "home"; "u"]];
     AppCore.data_indexer := Some (indexer_on (notes_env true) 8);
     AppCore.config := [] |}.

End Fixtures.

(** ** Predicates of the statements *)

(** The path [P], cleaned, is under [root] or is [root] itself. *)
Definition covered_by (E : Env) (P root : Path) : Prop :=
  PathPolicy.is_under E (clean E P) root = true \/ clean E P = root.

(** The indexer of the application, if it has one, holds the allowed roots
    of the application. *)
Definition roots_in_sync (app : AppCore.NousApp) : Prop :=
  match AppCore.data_indexer app with
  | Some ix => Indexer.allowed_roots ix = AppCore.allowed_roots app
  | None => True
  end.

(** The defaults of the application are among its effective exclusions, and
    the defaults of the platform among those of its indexer. *)
Definition defaults_excluded (E : Env) (app : AppCore.NousApp) : Prop :=
  AppCore.default_excluded app ⊆ AppCore.excluded_paths app
  /\ match AppCore.data_indexer app with
     | Some ix => PathPolicy.default_excluded_paths E ⊆ Indexer.excluded_paths ix
     | None => True
     end.


(** The candidate is one the loop refreshes: its [stat] succeeds and is not
    what the snapshot [existing] holds for it. *)
Definition changed (E : Env) (existing : gmap Path (Q * Z)) (p : Path) : bool :=
  match fs_stat E p with
  | Done stat => negb (Indexer.unchanged existing p stat)
  | Raises _ => false
  end.

(** The error the loop records for a candidate whose [stat] fails. *)
Definition stat_error (E : Env) (p : Path) : option (string * string) :=
  match fs_stat E p with
  | Done _ => None
  | Raises exc => Some (path_str p, "Stat failed: " +:+ exc)
  end.


(** [SELECT 1 FROM files WHERE path = ?] finds a row. *)
Definition indexed (d : Store.db) (path : Path) : bool :=
  match Store.select_id path (Store.files d) with
  | Some _ => true
  | None => false
  end.


(** The directory [dir] is [top] or lies below it, and the check [allowed]
    accepts every directory from [top] down to [dir]. *)
Definition below_allowed (allowed : Path -> bool * option string)
    (top dir : Path) : Prop :=
  top `prefix_of` dir
  /\ forall d, top `prefix_of` d -> d `prefix_of` dir -> fst (allowed d) = true.

(** What the crawl asks of a candidate: the check accepts it, its suffix
    is listed, and it is an entry of a directory reached through accepted
    directories only. *)
Definition good_candidate (allowed : Path -> bool * option string)
    (extensions : list string) (top c : Path) : Prop :=
  fst (allowed c) = true
  /\ lower (path_suffix c) ∈ extensions
  /\ exists dir name, c = dir ++ [name] /\ below_allowed allowed top dir.


(** The text a rebuild stores for a file it extracts: the snippet of
    [_read_text_snippet], or the file name with a remark when there is
    none. *)
Definition stored_snippet (E : Env) (self : Indexer.DataIndexer) (p : Path)
    (stat : Q * Z) : string :=
  default (path_name p +:+ " (no readable text found)")
          (fst (Indexer._read_text_snippet E self p (snd stat))).


(** The row and the linked content of [p] in the index of [s]. *)
Definition held (p : Path) (s : Indexer.DataIndexer)
  : option (Q * Z) * option string :=
  (Store.snapshot (Indexer._conn s) !! p, Store.content_of (Indexer._conn s) p).


(** The calls [on_progress(idx, total, str(path))] for the candidates
    [reached], the first of them at position [idx]: one for each candidate
    whose [stat] succeeds. *)
Fixpoint progress_calls (E : Env) (total idx : nat) (reached : list Path)
  : list (nat * nat * string) :=
  match reached with
  | [] => []
  | p :: rest =>
      (if Indexer.stat_succeeds E p then [(idx, total, path_str p)] else [])
      ++ progress_calls E total (S idx) rest
  end.


(** The entry [e] of a result of [search] describes the row [row] of
    [files]: its path, its name, its size and its time of modification. *)
Definition from_row (E : Env) (row : Store.file_row) (e : Search.entry) : Prop :=
  Search.e_path e = path_str (Store.f_path row)
  /\ Search.e_name e = path_name (Store.f_path row)
  /\ Search.e_size_bytes e = Store.f_size row
  /\ Search.e_modified e = fromtimestamp_iso E (Store.f_mtime row).

(** The entries of [search] before the ranking, [m], are entries of rows of
    [rows], one per path. *)
Definition merged_of (E : Env) (rows : list Store.file_row)
    (m : list (Path * Search.entry)) : Prop :=
  NoDup (fst <$> m)
  /\ forall k e, (k, e) ∈ m ->
       exists row, row ∈ rows /\ Store.f_path row = k /\ from_row E row e.

(** [x] may stand in front of [y] in a ranking: the key of [y] is not below
    the key of [x]. *)
Definition ranked_before (x y : Search.entry) : Prop := Search.key_lt y x = false.


(** * Properties *)

(** ** PathPolicy: an excluded path is denied whatever the allowed roots *)

Section PathPolicyFacts.
Variable E : Env.

Lemma find_first_excluding (path : Path) (excluded : list Path) (entry : Path) :
  entry ∈ excluded ->
  PathPolicy.is_under E path entry = true ->
  exists first,
    List.find (fun e => PathPolicy.is_under E path e) excluded = Some first
    /\ first ∈ excluded
    /\ PathPolicy.is_under E path first = true.
Proof.
  induction excluded as [|e rest IH]; intros Hin Hunder.
  - inversion Hin.
  - simpl. destruct (PathPolicy.is_under E path e) eqn:He.
    + exists e. repeat split; [constructor | exact He].
    + assert (entry ∈ rest) as Hrest.
      { apply elem_of_cons in Hin as [-> | Hin]; [congruence | exact Hin]. }
      destruct (IH Hrest Hunder) as (first & Hfind & Hmem & Hu).
      exists first. repeat split; [exact Hfind | by constructor | exact Hu].
Qed.

(** The denial as the code computes it: on the cleaned path. *)
Lemma is_allowed_excluded_clean (P : Path) (allowed_roots excluded : list Path)
    (entry : Path) :
  entry ∈ excluded ->
  PathPolicy.is_under E (PathPolicy._clean E P) entry = true ->
  exists first,
    first ∈ excluded
    /\ PathPolicy.is_under E (PathPolicy._clean E P) first = true
    /\ PathPolicy.is_allowed E P allowed_roots excluded
       = (false, Some ("Excluded path: " +:+ path_str first)).
Proof.
  intros Hin Hunder.
  destruct (find_first_excluding _ _ _ Hin Hunder) as (first & Hfind & Hmem & Hu).
  exists first. repeat split; [exact Hmem | exact Hu |].
  unfold PathPolicy.is_allowed. by rewrite Hfind.
Qed.

Lemma is_under_clean_idem (P entry : Path) :
  (forall p, clean E (clean E p) = clean E p) ->
  PathPolicy.is_under E (PathPolicy._clean E P) entry = PathPolicy.is_under E P entry.
Proof.
  intros Hidem. unfold PathPolicy.is_under, PathPolicy._clean. by rewrite Hidem.
Qed.

(** C1. Explicit deny wins over allow.  For every path [P], every list of
    allowed roots and every list of excluded paths: when [P] equals or is
    nested under an excluded entry ([is_under P entry], which holds for
    [P = entry] too), [is_allowed] returns [False] with the reason
    ["Excluded path: ..."] naming an excluded entry that contains [P],
    whatever the allowed roots are.  Resolving a resolved path changes
    nothing ([clean] is idempotent). *)
Theorem is_allowed_excluded_wins (P : Path) (allowed_roots excluded : list Path)
    (entry : Path) :
  (forall p, clean E (clean E p) = clean E p) ->
  entry ∈ excluded ->
  PathPolicy.is_under E P entry = true ->
  exists first,
    first ∈ excluded
    /\ PathPolicy.is_under E P first = true
    /\ PathPolicy.is_allowed E P allowed_roots excluded
       = (false, Some ("Excluded path: " +:+ path_str first)).
Proof.
  intros Hidem Hin Hunder.
  rewrite <- (is_under_clean_idem _ _ Hidem) in Hunder.
  destruct (is_allowed_excluded_clean P allowed_roots excluded entry Hin Hunder)
    as (first & Hmem & Hu & Hres).
  exists first. rewrite (is_under_clean_idem _ _ Hidem) in Hu. auto.
Qed.

Lemma parts_prefix_refl (p : Path) : parts_prefix p p = true.
Proof.
  induction p as [|a p IH]; simpl; [done|].
  rewrite bool_decide_eq_true_2 by done. exact IH.
Qed.

(** A path is under itself: [is_under] covers the case [P = entry]. *)
Lemma is_under_self (p : Path) : PathPolicy.is_under E p p = true.
Proof.
  unfold PathPolicy.is_under, PathPolicy._clean, relative_to_ok.
  destruct (clean E p) eqn:Hp; [done|]. apply parts_prefix_refl.
Qed.

End PathPolicyFacts.

(** The scenario of the design document: [/etc/passwd] with [/etc] excluded
    and [/] allowed. *)
Lemma is_allowed_excluded_wins_witness :
  exists first,
    first ∈ [["/"; "etc"]]
    /\ PathPolicy.is_under (Fixtures.notes_env true) ["/"; "etc"; "passwd"] first = true
    /\ PathPolicy.is_allowed (Fixtures.notes_env true)
         ["/"; "etc"; "passwd"] [["/"]] [["/"; "etc"]]
       = (false, Some ("Excluded path: " +:+ path_str first)).
Proof.
  apply (is_allowed_excluded_wins (Fixtures.notes_env true)
           ["/"; "etc"; "passwd"] [["/"]] [["/"; "etc"]] ["/"; "etc"]).
  - reflexivity.
  - constructor.
  - reflexivity.
Defined.

(** ** Configuration: the excluded paths and the size ceiling *)

Section PolicyFacts.
Import Indexer.
Variable E : Env.

(** [update_policy] with a list of excluded paths puts the defaults of the
    platform in front of it. *)
Lemma update_policy_keeps_defaults (self : DataIndexer)
    (allowed : option (list Path)) (extras : list Path)
    (max_mb : option pyfloat) (p : Path) :
  p ∈ PathPolicy.default_excluded_paths E ->
  p ∈ excluded_paths (fst (update_policy E self allowed (Some extras) max_mb)).
Proof.
  intros Hp. unfold update_policy.
  destruct max_mb as [x|]; [destruct (mb_to_bytes (clamp_mb x))|];
    simpl; apply elem_of_app; by left.
Qed.

(** [update_policy] without a list of excluded paths leaves them alone. *)
Lemma update_policy_none_excluded (self : DataIndexer)
    (allowed : option (list Path)) (max_mb : option pyfloat) :
  excluded_paths (fst (update_policy E self allowed None max_mb)) = excluded_paths self.
Proof.
  unfold update_policy.
  destruct max_mb as [x|]; [destruct (mb_to_bytes (clamp_mb x))|]; reflexivity.
Qed.

Lemma clamp_mb_finite (q : Q) :
  exists m, clamp_mb (PFinite q) = PFinite m
            /\ (1 <= m)%Q /\ (q <= m)%Q /\ (m = 1%Q \/ m = q).
Proof.
  unfold clamp_mb, Qlt_bool. destruct (Qle_bool q 1) eqn:Hq; simpl.
  - exists 1%Q. apply Qle_bool_iff in Hq. repeat split; auto with qarith.
  - exists q. assert (~ (q <= 1)%Q) as Hn.
    { intros H. apply Qle_bool_iff in H. congruence. }
    apply Qnot_le_lt in Hn. repeat split; auto with qarith.
Qed.

Lemma mb_to_bytes_finite (m : Q) :
  (1 <= m)%Q ->
  (m * inject_Z 1024 * inject_Z 1024 < inject_Z (2 ^ 1024))%Q ->
  mb_to_bytes (PFinite m) = Some (Qfloor (m * inject_Z 1024 * inject_Z 1024))
  /\ 1024 * 1024 <= Qfloor (m * inject_Z 1024 * inject_Z 1024).
Proof.
  intros H1 Hlt.
  assert (inject_Z (1024 * 1024) <= m * inject_Z 1024 * inject_Z 1024)%Q as Hge.
  { apply Qle_trans with (1 * inject_Z 1024 * inject_Z 1024)%Q.
    - vm_compute. discriminate.
    - repeat apply Qmult_le_compat_r; [exact H1 | vm_compute; discriminate ..]. }
  split.
  - unfold mb_to_bytes.
    destruct (Qle_bool (inject_Z (2 ^ 1024)) (m * inject_Z 1024 * inject_Z 1024)) eqn:Hov.
    + apply Qle_bool_iff in Hov. exfalso. eapply Qlt_not_le; eauto.
    + unfold Qtrunc.
      destruct (Qle_bool 0 (m * inject_Z 1024 * inject_Z 1024)) eqn:H0; [done|].
      exfalso. assert (0 <= m * inject_Z 1024 * inject_Z 1024)%Q as Hpos.
      { eapply Qle_trans; [|exact Hge]. vm_compute. discriminate. }
      apply Qle_bool_iff in Hpos. congruence.
  - rewrite <- (Qfloor_Z (1024 * 1024)). by apply Qfloor_resp_le.
Qed.

End PolicyFacts.

Section SizeCeiling.
Import Indexer.
Variable E : Env.



(** The floats that are no numbers: a NaN and minus infinity become [1.0];
    plus infinity stays, and the conversion to bytes raises. *)
Lemma size_ceiling_not_finite :
  clamp_mb PNaN = PFinite 1 /\ clamp_mb PNegInf = PFinite 1
  /\ clamp_mb PInf = PInf /\ mb_to_bytes PInf = None.
Proof. repeat split. Qed.
End SizeCeiling.

(** C3, at the failing input: an indexer constructed with the one excluded
    path [/home/u/private] has exactly that path excluded; [/etc], excluded
    by default on this platform, is not among its excluded paths, and stays
    out after an [update_policy] call that passes no excluded paths. *)
Lemma init_user_exclusions_replace_defaults :
  let E := Fixtures.notes_env true in
  let user := [["/"; "home"; "u"; "private"]] in
  exists self,
    Fixtures.new_indexer E (Some user) (PFinite 8) = Some self
    /\ Indexer.excluded_paths self = user
    /\ (["/"; "etc"] ∈ PathPolicy.default_excluded_paths E)
    /\ (["/"; "etc"] ∉ Indexer.excluded_paths self)
    /\ (["/"; "etc"] ∉ Indexer.excluded_paths
                         (fst (Indexer.update_policy E self None None (Some (PFinite 16))))).
Proof.
  eexists. split; [reflexivity|]. split; [reflexivity|].
  repeat split; apply (bool_decide_unpack _); vm_compute; exact I.
Qed.



(** ** IndexStore: what [_upsert_file] and [_delete_file] do to the tables *)

Section StoreFacts.
Import Store.

Lemma find_snoc {A} (f : A -> bool) (l : list A) (x : A) :
  List.find f (l ++ [x])
  = match List.find f l with
    | Some y => Some y
    | None => if f x then Some x else None
    end.
Proof.
  induction l as [|a l IH]; simpl; [done|]. destruct (f a); [done | exact IH].
Qed.

Lemma find_filter_keep {A} (f : A -> bool) (P : A -> Prop)
    `{forall x, Decision (P x)} (l : list A) :
  (forall x, x ∈ l -> f x = true -> P x) ->
  List.find f (filter P l) = List.find f l.
Proof.
  induction l as [|a l IH]; intros Hkeep; [done|].
  rewrite filter_cons. simpl. destruct (f a) eqn:Hfa.
  - rewrite decide_True by (apply Hkeep; [constructor | done]). simpl. by rewrite Hfa.
  - assert (List.find f (filter P l) = List.find f l) as IH'.
    { apply IH. intros x Hx. apply Hkeep. by constructor. }
    destruct (decide (P a)); simpl; by rewrite ?Hfa.
Qed.

Lemma find_filter_none {A} (f : A -> bool) (P : A -> Prop)
    `{forall x, Decision (P x)} (l : list A) :
  (forall x, f x = true -> ~ P x) ->
  List.find f (filter P l) = None.
Proof.
  intros Hno. induction l as [|a l IH]; [done|].
  rewrite filter_cons. destruct (decide (P a)) as [Hp|]; [|exact IH].
  simpl. destruct (f a) eqn:Hfa; [|exact IH]. by destruct (Hno a Hfa).
Qed.

Lemma find_elem {A} (f : A -> bool) (l : list A) (x : A) :
  List.find f l = Some x -> x ∈ l /\ f x = true.
Proof.
  intros H. apply List.find_some in H as [Hin Hf]. split; [by apply list_elem_of_In | done].
Qed.

Lemma find_first_unique {A B} `{EqDecision B} (key : A -> B) (l : list A) (x : A) :
  NoDup (key <$> l) -> x ∈ l ->
  List.find (fun y => bool_decide (key y = key x)) l = Some x.
Proof.
  induction l as [|a l IH]; intros Hnd Hin; [inversion Hin|].
  rewrite fmap_cons in Hnd. simpl. apply NoDup_cons in Hnd as [Hna Hnd].
  apply elem_of_cons in Hin as [-> | Hin].
  - by rewrite bool_decide_eq_true_2.
  - rewrite bool_decide_eq_false_2; [by apply IH|].
    intros Heq. apply Hna. rewrite Heq. by apply list_elem_of_fmap_2.
Qed.

Lemma max_id_ge (rows : list file_row) (r : file_row) :
  r ∈ rows -> f_id r <= max_id rows.
Proof.
  induction rows as [|a rows IH]; intros Hin; [inversion Hin|].
  simpl. apply elem_of_cons in Hin as [-> | Hin]; [lia|]. specialize (IH Hin). lia.
Qed.

Lemma max_id_snoc (rows : list file_row) (r : file_row) :
  max_id (rows ++ [r]) = Z.max (max_id rows) (Z.max (f_id r) 0).
Proof.
  induction rows as [|a rows IH]; simpl; [lia|]. rewrite IH. lia.
Qed.

Lemma max_id_filter_le (P : file_row -> Prop) `{forall x, Decision (P x)}
    (rows : list file_row) :
  max_id (filter P rows) <= max_id rows.
Proof.
  induction rows as [|a rows IH]; [done|].
  rewrite filter_cons. destruct (decide (P a)); simpl; lia.
Qed.

Lemma max_id_nonneg (rows : list file_row) : 0 <= max_id rows.
Proof. induction rows as [|a rows IH]; simpl; lia. Qed.

(** *** [select_id] after the statements on [files] *)

Lemma select_id_elem (path : Path) (rows : list file_row) (i : Z) :
  select_id path rows = Some i ->
  exists r, r ∈ rows /\ f_path r = path /\ f_id r = i.
Proof.
  unfold select_id. intros H.
  destruct (List.find _ rows) as [r|] eqn:Hfind; [|done].
  apply find_elem in Hfind as [Hin Hp]. apply bool_decide_eq_true in Hp.
  exists r. by simplify_eq/=.
Qed.

Lemma select_id_none (path : Path) (rows : list file_row) :
  select_id path rows = None -> forall r, r ∈ rows -> f_path r <> path.
Proof.
  unfold select_id. intros H r Hin Hp.
  destruct (List.find _ rows) as [x|] eqn:Hfind; [done|].
  apply list_elem_of_In in Hin.
  pose proof (List.find_none _ _ Hfind r Hin) as Hno. simpl in Hno.
  by rewrite bool_decide_eq_true_2 in Hno.
Qed.

Lemma select_id_inserted (path : Path) (mtime : Q) (size : Z) (now : string)
    (rows : list file_row) :
  select_id path (insert_or_replace_file path mtime size now rows)
  = Some (max_id rows + 1).
Proof.
  unfold select_id, insert_or_replace_file. rewrite find_snoc.
  rewrite find_filter_none.
  - simpl. by rewrite bool_decide_eq_true_2.
  - intros x Hx. apply bool_decide_eq_true in Hx. by intros Hne.
Qed.

Lemma select_id_insert_other (path other : Path) (mtime : Q) (size : Z)
    (now : string) (rows : list file_row) :
  other <> path ->
  select_id other (insert_or_replace_file path mtime size now rows)
  = select_id other rows.
Proof.
  intros Hne. unfold select_id, insert_or_replace_file. rewrite find_snoc.
  rewrite find_filter_keep.
  - destruct (List.find _ rows); [done|]. simpl.
    by rewrite bool_decide_eq_false_2.
  - intros x _ Hx. apply bool_decide_eq_true in Hx. congruence.
Qed.

Lemma select_id_filter_other (path other : Path) (rows : list file_row) :
  other <> path ->
  select_id other (filter (fun r => f_path r ≠ path) rows) = select_id other rows.
Proof.
  intros Hne. unfold select_id. rewrite find_filter_keep; [done|].
  intros x _ Hx. apply bool_decide_eq_true in Hx. congruence.
Qed.

Lemma select_id_filter_same (path : Path) (rows : list file_row) :
  select_id path (filter (fun r => f_path r ≠ path) rows) = None.
Proof.
  unfold select_id. rewrite find_filter_none; [done|].
  intros x Hx. apply bool_decide_eq_true in Hx. by intros Hne.
Qed.

(** *** The snapshot [{path: (mtime, size)}] *)

Lemma snapshot_from_snoc (m : gmap Path (Q * Z)) (rows : list file_row) (r : file_row) :
  snapshot_from m (rows ++ [r])
  = <[f_path r := (f_mtime r, f_size r)]> (snapshot_from m rows).
Proof. unfold snapshot_from. by rewrite fold_left_app. Qed.

Lemma snapshot_from_filter (path : Path) (rows : list file_row) :
  snapshot_from ∅ (filter (fun r => f_path r ≠ path) rows)
  = delete path (snapshot_from ∅ rows).
Proof.
  induction rows as [|r rows IH] using rev_ind.
  - simpl. by rewrite delete_empty.
  - rewrite filter_app, filter_cons, filter_nil.
    destruct (decide (f_path r ≠ path)) as [Hne | Heq].
    + rewrite !snapshot_from_snoc, IH. by rewrite delete_insert_ne.
    + apply dec_stable in Heq. rewrite app_nil_r, snapshot_from_snoc, IH.
      rewrite <- Heq. by rewrite delete_insert_eq.
Qed.

Lemma snapshot_lookup_elem (rows : list file_row) (path : Path) (s : Q * Z) :
  snapshot_from ∅ rows !! path = Some s ->
  exists r, r ∈ rows /\ f_path r = path /\ (f_mtime r, f_size r) = s.
Proof.
  induction rows as [|r rows IH] using rev_ind; [cbn; by rewrite lookup_empty|].
  rewrite snapshot_from_snoc. intros H.
  destruct (decide (f_path r = path)) as [Heq | Hne].
  - rewrite Heq, lookup_insert_eq in H. exists r.
    split; [apply elem_of_app; right; constructor | by simplify_eq].
  - rewrite lookup_insert_ne in H by done. destruct (IH H) as (x & Hin & Hx).
    exists x. split; [apply elem_of_app; by left | done].
Qed.

Lemma snapshot_lookup_none (rows : list file_row) (path : Path) :
  snapshot_from ∅ rows !! path = None -> forall r, r ∈ rows -> f_path r <> path.
Proof.
  induction rows as [|r rows IH] using rev_ind; [intros _ x Hx; inversion Hx|].
  rewrite snapshot_from_snoc. intros H x Hx Hp.
  destruct (decide (f_path r = path)) as [Heq | Hne].
  - by rewrite Heq, lookup_insert_eq in H.
  - rewrite lookup_insert_ne in H by done.
    apply elem_of_app in Hx as [Hx | Hx]; [by apply (IH H x)|].
    apply list_elem_of_singleton in Hx. congruence.
Qed.

Lemma snapshot_upsert (d : db) (path : Path) (stat : Q * Z) (content now : string) :
  snapshot (_upsert_file d path stat content now) = <[path := stat]> (snapshot d).
Proof.
  unfold snapshot, _upsert_file, insert_or_replace_file. simpl.
  rewrite snapshot_from_snoc, snapshot_from_filter. simpl.
  destruct stat as [m s]. simpl. by rewrite insert_delete_eq.
Qed.

Lemma snapshot_delete (d : db) (path : Path) :
  snapshot (_delete_file d path) = delete path (snapshot d).
Proof.
  unfold snapshot, _delete_file. simpl.
  apply snapshot_from_filter.
Qed.

End StoreFacts.

(** ** IndexStore: the invariant *)

Section StoreInvariant.
Import Store.

Lemma store_ok_empty (fts5 : bool) : store_ok (empty_db fts5).
Proof.
  destruct fts5; split; unfold linked, owned, content_ids; simpl;
    try apply NoDup_nil_2; intros x Hx; inversion Hx.
Qed.

Lemma NoDup_fmap_filter_snoc {A B} (key : A -> B) (P : A -> Prop)
    `{forall x, Decision (P x)} (l : list A) (x : A) :
  NoDup (key <$> l) ->
  (forall y, y ∈ l -> P y -> key y <> key x) ->
  NoDup (key <$> (filter P l ++ [x])).
Proof.
  intros Hnd Hfresh. rewrite fmap_app. apply NoDup_app. repeat split.
  - eapply sublist_NoDup; [exact Hnd|]. apply fmap_sublist, sublist_filter.
  - intros k Hk Hk'. apply list_elem_of_fmap in Hk as (y & -> & Hy).
    apply list_elem_of_filter in Hy as [HP Hy].
    apply list_elem_of_singleton in Hk'. by apply (Hfresh y).
  - apply NoDup_singleton.
Qed.

Lemma files_after_insert (path : Path) (mtime : Q) (size : Z) (now : string)
    (rows : list file_row) (r : file_row) :
  r ∈ insert_or_replace_file path mtime size now rows <->
  (r ∈ rows /\ f_path r <> path)
  \/ r = {| f_id := max_id rows + 1; f_path := path; f_mtime := mtime;
            f_size := size; f_indexed_at := now |}.
Proof.
  unfold insert_or_replace_file. rewrite elem_of_app, list_elem_of_filter.
  rewrite list_elem_of_singleton. naive_solver.
Qed.

Lemma max_id_after_insert (path : Path) (mtime : Q) (size : Z) (now : string)
    (rows : list file_row) :
  max_id (insert_or_replace_file path mtime size now rows) = max_id rows + 1.
Proof.
  unfold insert_or_replace_file. rewrite max_id_snoc. simpl.
  pose proof (max_id_filter_le (fun r => f_path r ≠ path) rows).
  pose proof (max_id_nonneg rows). lia.
Qed.

(** [_upsert_file] keeps the invariant. *)
Lemma store_ok_upsert (d : db) (path : Path) (stat : Q * Z) (content now : string) :
  store_ok d -> store_ok (_upsert_file d path stat content now).
Proof.
  intros [Hpaths Hids Hcids Hlinked Howned].
  unfold linked, owned, content_ids in *.
  unfold _upsert_file. rewrite select_id_inserted.
  set (n := max_id (files d) + 1).
  assert (forall r, r ∈ files d -> f_id r <> n) as Hfresh.
  { intros r Hr. pose proof (max_id_ge _ _ Hr). unfold n. lia. }
  destruct (file_content d) as [rows | rows] eqn:Hc; split;
    unfold linked, owned, content_ids; cbn [files file_content].
  - apply NoDup_fmap_filter_snoc; [done|]. intros y _ Hy. exact Hy.
  - apply NoDup_fmap_filter_snoc; [done|]. intros y Hy _. by apply Hfresh.
  - unfold insert_or_replace_fts. apply NoDup_fmap_filter_snoc; [done|].
    intros y _ Hy. exact Hy.
  - intros r Hr. apply files_after_insert in Hr as [[Hr Hne] | ->].
    + destruct (Hlinked r Hr) as (c & Hcin & Hcid & Hcp).
      exists c. repeat split; try done.
      unfold insert_or_replace_fts. apply elem_of_app. left.
      apply list_elem_of_filter. split; [|done]. rewrite Hcid. by apply Hfresh.
    + exists {| fts_rowid := n; fts_path := path; fts_content := content |}.
      split; [|split; reflexivity].
      unfold insert_or_replace_fts. apply elem_of_app. right. constructor.
  - intros c Hcin. unfold insert_or_replace_fts in Hcin.
    apply elem_of_app in Hcin as [Hcin | Hcin].
    + apply list_elem_of_filter in Hcin as [_ Hcin].
      destruct (Howned c Hcin) as (r & Hr & Hrp & Hle).
      destruct (decide (f_path r = path)) as [Heq | Hne].
      * eexists. split; [apply files_after_insert; right; reflexivity|].
        cbn [f_path f_id]. split; [congruence|]. pose proof (max_id_ge _ _ Hr). lia.
      * exists r. split; [apply files_after_insert; by left | done].
    + apply list_elem_of_singleton in Hcin as ->. cbn [fts_path fts_rowid].
      eexists. split; [apply files_after_insert; right; reflexivity|].
      cbn [f_path f_id]. split; [done | unfold n; lia].
  - apply NoDup_fmap_filter_snoc; [done|]. intros y _ Hy. exact Hy.
  - apply NoDup_fmap_filter_snoc; [done|]. intros y Hy _. by apply Hfresh.
  - unfold insert_or_replace_plain. apply NoDup_fmap_filter_snoc; [done|].
    intros y _ Hy. exact Hy.
  - intros r Hr. apply files_after_insert in Hr as [[Hr Hne] | ->].
    + destruct (Hlinked r Hr) as (c & Hcin & Hcid).
      exists c. split; [|done].
      unfold insert_or_replace_plain. apply elem_of_app. left.
      apply list_elem_of_filter. split; [|done]. rewrite Hcid. by apply Hfresh.
    + exists {| pc_file_id := n; pc_content := content |}.
      split; [|reflexivity].
      unfold insert_or_replace_plain. apply elem_of_app. right. constructor.
  - intros c Hcin. rewrite max_id_after_insert.
    unfold insert_or_replace_plain in Hcin.
    apply elem_of_app in Hcin as [Hcin | Hcin].
    + apply list_elem_of_filter in Hcin as [_ Hcin]. specialize (Howned c Hcin). lia.
    + apply list_elem_of_singleton in Hcin as ->. cbn [pc_file_id]. unfold n. lia.
Qed.

(** [_delete_file] keeps the invariant. *)
Lemma store_ok_delete (d : db) (path : Path) :
  store_ok d -> store_ok (_delete_file d path).
Proof.
  intros [Hpaths Hids Hcids Hlinked Howned].
  unfold linked, owned, content_ids in *. unfold _delete_file.
  destruct (file_content d) as [rows | rows] eqn:Hc; split;
    unfold linked, owned, content_ids; cbn [files file_content].
  - eapply sublist_NoDup; [exact Hpaths|]. apply fmap_sublist, sublist_filter.
  - eapply sublist_NoDup; [exact Hids|]. apply fmap_sublist, sublist_filter.
  - eapply sublist_NoDup; [exact Hcids|]. apply fmap_sublist, sublist_filter.
  - intros r Hr. apply list_elem_of_filter in Hr as [Hne Hr].
    destruct (Hlinked r Hr) as (c & Hcin & Hcid & Hcp).
    exists c. repeat split; try done.
    apply list_elem_of_filter. split; [congruence | done].
  - intros c Hcin. apply list_elem_of_filter in Hcin as [Hne Hcin].
    destruct (Howned c Hcin) as (r & Hr & Hrp & Hle).
    exists r. split; [|done]. apply list_elem_of_filter. split; [congruence | done].
  - eapply sublist_NoDup; [exact Hpaths|]. apply fmap_sublist, sublist_filter.
  - eapply sublist_NoDup; [exact Hids|]. apply fmap_sublist, sublist_filter.
  - eapply sublist_NoDup; [exact Hcids|]. apply fmap_sublist, sublist_filter.
  - intros r Hr. pose proof Hr as Hr'. apply list_elem_of_filter in Hr as [Hne Hr].
    destruct (Hlinked r Hr) as (c & Hcin & Hcid).
    exists c. split; [|done]. apply list_elem_of_filter. split; [|done].
    rewrite Hcid. by apply list_elem_of_fmap_2.
  - intros c Hcin. apply list_elem_of_filter in Hcin as [Hid Hcin].
    apply list_elem_of_fmap in Hid as (r & -> & Hr). by apply max_id_ge.
Qed.

(** Under the invariant a path has a content row exactly when it has a
    [files] row. *)
Lemma has_content_iff_has_file (d : db) (path : Path) :
  store_ok d -> has_content d path <-> has_file d path.
Proof.
  intros [_ _ _ Hlinked Howned]. unfold has_content, has_file, linked, owned in *.
  destruct (file_content d) as [rows | rows]; split.
  - intros (c & Hc & Hp). destruct (Howned c Hc) as (r & Hr & Hrp & _).
    exists r. split; [done | congruence].
  - intros (r & Hr & Hp). destruct (Hlinked r Hr) as (c & Hc & _ & Hcp).
    exists c. split; [done | congruence].
  - intros (r & c & Hr & Hp & _). by exists r.
  - intros (r & Hr & Hp). destruct (Hlinked r Hr) as (c & Hc & Hid).
    by exists r, c.
Qed.

End StoreInvariant.

(** ** IndexStore: the content linked to a path *)

Section StoreContent.
Import Store.

Lemma unique_key {A B} `{EqDecision B} (key : A -> B) (l : list A) (x y : A) :
  NoDup (key <$> l) -> x ∈ l -> y ∈ l -> key x = key y -> x = y.
Proof.
  intros Hnd Hx Hy Hk.
  pose proof (find_first_unique key l x Hnd Hx) as Fx.
  pose proof (find_first_unique key l y Hnd Hy) as Fy.
  rewrite Hk in Fx. congruence.
Qed.

Lemma content_of_upsert_same (d : db) (path : Path) (stat : Q * Z)
    (content now : string) :
  content_of (_upsert_file d path stat content now) path = Some content.
Proof.
  unfold content_of, _upsert_file. cbn [files file_content].
  rewrite select_id_inserted.
  destruct (file_content d) as [rows | rows].
  - unfold insert_or_replace_fts. rewrite find_snoc, find_filter_none.
    + cbn [fts_rowid]. by rewrite bool_decide_eq_true_2.
    + intros x Hx. apply bool_decide_eq_true in Hx. by intros Hne.
  - unfold insert_or_replace_plain. rewrite find_snoc, find_filter_none.
    + cbn [pc_file_id]. by rewrite bool_decide_eq_true_2.
    + intros x Hx. apply bool_decide_eq_true in Hx. by intros Hne.
Qed.

Lemma content_of_upsert_other (d : db) (path other : Path) (stat : Q * Z)
    (content now : string) :
  other <> path ->
  content_of (_upsert_file d path stat content now) other = content_of d other.
Proof.
  intros Hne. unfold content_of, _upsert_file. cbn [files file_content].
  rewrite select_id_insert_other by done. rewrite select_id_inserted.
  destruct (select_id other (files d)) as [i|] eqn:Hsel; [|done].
  apply select_id_elem in Hsel as (r & Hr & _ & Hi).
  pose proof (max_id_ge _ _ Hr) as Hmax.
  assert (i <> max_id (files d) + 1) as Hfresh by lia.
  destruct (file_content d) as [rows | rows].
  - unfold insert_or_replace_fts. rewrite find_snoc, find_filter_keep.
    + destruct (List.find _ rows); [done|]. cbn [fts_rowid].
      by rewrite bool_decide_eq_false_2.
    + intros x _ Hx. apply bool_decide_eq_true in Hx. congruence.
  - unfold insert_or_replace_plain. rewrite find_snoc, find_filter_keep.
    + destruct (List.find _ rows); [done|]. cbn [pc_file_id].
      by rewrite bool_decide_eq_false_2.
    + intros x _ Hx. apply bool_decide_eq_true in Hx. congruence.
Qed.

Lemma content_of_delete_same (d : db) (path : Path) :
  content_of (_delete_file d path) path = None.
Proof.
  unfold content_of, _delete_file. cbn [files]. by rewrite select_id_filter_same.
Qed.

Lemma content_of_delete_other (d : db) (path other : Path) :
  store_ok d -> other <> path ->
  content_of (_delete_file d path) other = content_of d other.
Proof.
  intros [_ _ Hcids Hlinked _] Hne. unfold linked, content_ids in *.
  unfold content_of, _delete_file. cbn [files file_content].
  rewrite select_id_filter_other by done.
  destruct (select_id other (files d)) as [i|] eqn:Hsel; [|done].
  apply select_id_elem in Hsel as (r & Hr & Hp & Hi).
  destruct (file_content d) as [rows | rows].
  - destruct (Hlinked r Hr) as (c & Hc & Hcid & Hcp).
    f_equal. apply find_filter_keep. intros x Hx Hxi.
    apply bool_decide_eq_true in Hxi.
    assert (x = c) as -> by (apply (unique_key fts_rowid rows); congruence).
    congruence.
  - f_equal. apply find_filter_keep. intros x Hx Hxi.
    apply bool_decide_eq_true in Hxi. rewrite Hxi, <- Hi.
    apply list_elem_of_fmap_2. apply list_elem_of_filter. split; [congruence | done].
Qed.

Lemma has_file_snapshot (d : db) (path : Path) :
  has_file d path <-> is_Some (snapshot d !! path).
Proof.
  unfold has_file, snapshot. split.
  - intros (r & Hr & Hp). destruct (snapshot_from ∅ (files d) !! path) eqn:Hs; [done|].
    by destruct (snapshot_lookup_none _ _ Hs r Hr).
  - intros [s Hs]. apply snapshot_lookup_elem in Hs as (r & Hr & Hp & _). by exists r.
Qed.

(** C5. The store invariant is kept by every upsert and every delete, on
    the fts5 and on the fallback backend (the two forms of [file_content]):
    after either, a content row for a path [p] exists exactly when a
    [files] row for [p] exists.  [_upsert_file], one transaction, leaves
    [path] with the new [(mtime, size)] and with the new content as its
    linked content row, and touches no other path; [_delete_file] removes
    the [files] row of [path] together with its content rows, and touches
    no other path. *)
Theorem store_invariant_preserved (d : db) (path : Path) (stat : Q * Z)
    (content now : string) :
  store_ok d ->
  let up := _upsert_file d path stat content now in
  let del := _delete_file d path in
  (store_ok up /\ forall p, has_content up p <-> has_file up p)
  /\ (store_ok del /\ forall p, has_content del p <-> has_file del p)
  /\ (snapshot up !! path = Some stat
      /\ content_of up path = Some content
      /\ forall p, p <> path ->
           snapshot up !! p = snapshot d !! p /\ content_of up p = content_of d p)
  /\ (~ has_file del path
      /\ ~ has_content del path
      /\ content_of del path = None
      /\ forall p, p <> path ->
           snapshot del !! p = snapshot d !! p /\ content_of del p = content_of d p).
Proof.
  intros Hok up del.
  pose proof (store_ok_upsert d path stat content now Hok) as Hup.
  pose proof (store_ok_delete d path Hok) as Hdel.
  assert (~ has_file del path) as Hgone.
  { rewrite has_file_snapshot. unfold del. rewrite snapshot_delete, lookup_delete_eq.
    by intros [? ?]. }
  split; [|split; [|split]].
  - split; [exact Hup|]. intros p. by apply has_content_iff_has_file.
  - split; [exact Hdel|]. intros p. by apply has_content_iff_has_file.
  - unfold up. rewrite snapshot_upsert, lookup_insert_eq.
    split; [done|]. split; [apply content_of_upsert_same|].
    intros p Hne. rewrite lookup_insert_ne by done.
    split; [done | by apply content_of_upsert_other].
  - split; [exact Hgone|]. split; [by rewrite has_content_iff_has_file|].
    split; [apply content_of_delete_same|].
    intros p Hne. unfold del. rewrite snapshot_delete, lookup_delete_ne by done.
    split; [done | by apply content_of_delete_other].
Qed.

End StoreContent.

(** ** The rebuild loop *)

Section LoopFacts.
Import Store Indexer.
Variable E : Env.

Lemma read_text_snippet_policy (self self' : DataIndexer) (path : Path) (size : Z) :
  policy_of self = policy_of self' ->
  _read_text_snippet E self path size = _read_text_snippet E self' path size.
Proof.
  unfold policy_of, _read_text_snippet. intros H.
  injection H as _ _ _ _ Hmb Hby. by rewrite Hmb, Hby.
Qed.


Lemma record_note_policy (self : DataIndexer) (path : Path) (note : option string) :
  policy_of (record_note self path note) = policy_of self.
Proof. unfold record_note. destruct note as [n|]; [case_bool_decide|]; done. Qed.

Lemma record_note_conn (self : DataIndexer) (path : Path) (note : option string) :
  _conn (record_note self path note) = _conn self.
Proof. unfold record_note. destruct note as [n|]; [case_bool_decide|]; done. Qed.

Lemma record_note_skipped (self : DataIndexer) (path : Path) (note : option string)
    (x : string * string) :
  x ∈ _last_skipped self -> x ∈ _last_skipped (record_note self path note).
Proof.
  unfold record_note. intros H.
  destruct note as [n|]; [case_bool_decide|]; try done.
  simpl. apply elem_of_app. by left.
Qed.

(** One candidate: what [process_candidate] does to the database. *)
Lemma process_candidate_conn (on_progress : bool) (existing : gmap Path (Q * Z))
    (total idx : nat) (path : Path) (l : loop_state) :
  let l' := process_candidate E on_progress existing total idx path l in
  (_conn (l_self l') = _conn (l_self l)
   /\ l_updated l' = l_updated l
   /\ l_extracted l' = l_extracted l
   /\ l_upserted l' = l_upserted l
   /\ (forall stat, fs_stat E path = Done stat -> unchanged existing path stat = true))
  \/ (exists stat snippet,
        fs_stat E path = Done stat
        /\ unchanged existing path stat = false
        /\ snippet = default (path_name path +:+ " (no readable text found)")
                             (fst (_read_text_snippet E (l_self l) path (snd stat)))
        /\ _conn (l_self l')
           = _upsert_file (_conn (l_self l)) path stat snippet
                          (utcnow_iso E (clock_reads (l_self l)))
        /\ l_updated l' = S (l_updated l)
        /\ l_extracted l' = l_extracted l ++ [path]
        /\ l_upserted l' = l_upserted l ++ [path]).
Proof.
  unfold process_candidate.
  destruct (fs_stat E path) as [stat | exc] eqn:Hstat.
  - destruct (unchanged existing path stat) eqn:Hun.
    + left. repeat split. intros s Hs. by simplify_eq.
    + right. exists stat.
      destruct (_read_text_snippet E (l_self l) path (snd stat)) as [snippet note].
      eexists. repeat split; try done. cbn [l_self]. by rewrite record_note_conn.
  - left. repeat split. intros s Hs. done.
Qed.

Lemma process_candidate_frame (on_progress : bool) (existing : gmap Path (Q * Z))
    (total idx : nat) (path : Path) (l : loop_state) :
  let l' := process_candidate E on_progress existing total idx path l in
  policy_of (l_self l') = policy_of (l_self l)
  /\ l_seen_paths l' = {[path]} ∪ l_seen_paths l
  /\ l_processed l' = S (l_processed l)
  /\ l_polls l' = S (l_polls l)
  /\ l_cancelled l' = l_cancelled l
  /\ (forall x, x ∈ _last_skipped (l_self l) -> x ∈ _last_skipped (l_self l')).
Proof.
  unfold process_candidate.
  destruct (fs_stat E path) as [stat | exc].
  - destruct (unchanged existing path stat); [done|].
    destruct (_read_text_snippet E (l_self l) path (snd stat)) as [snippet note].
    cbn [l_self l_seen_paths l_processed l_polls l_cancelled].
    rewrite record_note_policy. repeat split. intros x Hx.
    by apply record_note_skipped.
  - done.
Qed.

Lemma process_candidate_store_ok (on_progress : bool) (existing : gmap Path (Q * Z))
    (total idx : nat) (path : Path) (l : loop_state) :
  store_ok (_conn (l_self l)) ->
  store_ok (_conn (l_self (process_candidate E on_progress existing total idx path l))).
Proof.
  intros Hok.
  destruct (process_candidate_conn on_progress existing total idx path l)
    as [(-> & _) | (stat & snippet & _ & _ & _ & -> & _)]; [done|].
  by apply store_ok_upsert.
Qed.

End LoopFacts.

Section LoopInduction.
Import Store Indexer.
Variable E : Env.
Variable on_progress : bool.
Variable cancel_at : option nat.
Variable existing : gmap Path (Q * Z).
Variable total : nat.

Lemma processed_prefix_nil (polls : nat) : processed_prefix cancel_at polls [] = [].
Proof. unfold processed_prefix. destruct cancel_at; [apply take_nil | done]. Qed.

Lemma processed_prefix_cancel (polls : nat) (cands : list Path) :
  poll cancel_at polls = true -> processed_prefix cancel_at polls cands = [].
Proof.
  unfold poll, processed_prefix. destruct cancel_at as [k|]; [|done].
  intros H. apply Nat.leb_le in H. replace (k - polls)%nat with 0%nat by lia.
  apply take_0.
Qed.

Lemma processed_prefix_cons (polls : nat) (path : Path) (rest : list Path) :
  poll cancel_at polls = false ->
  processed_prefix cancel_at polls (path :: rest)
  = path :: processed_prefix cancel_at (S polls) rest.
Proof.
  unfold poll, processed_prefix. destruct cancel_at as [k|]; [|done].
  intros H. apply Nat.leb_gt in H.
  replace (k - polls)%nat with (S (k - S polls)) by lia. done.
Qed.

(** What the loop leaves alone, and what it has seen and counted. *)
Lemma rebuild_loop_frame (cands : list Path) (idx : nat) (l : loop_state) :
  let l' := rebuild_loop E on_progress cancel_at existing total idx cands l in
  policy_of (l_self l') = policy_of (l_self l)
  /\ l_seen_paths l'
     = list_to_set (processed_prefix cancel_at (l_polls l) cands) ∪ l_seen_paths l
  /\ l_processed l'
     = (l_processed l + length (processed_prefix cancel_at (l_polls l) cands))%nat
  /\ (forall x, x ∈ _last_skipped (l_self l) -> x ∈ _last_skipped (l_self l'))
  /\ (store_ok (_conn (l_self l)) -> store_ok (_conn (l_self l'))).
Proof.
  revert idx l. induction cands as [|path rest IH]; intros idx l; simpl.
  - rewrite processed_prefix_nil. simpl.
    split; [done|]. split; [set_solver|]. split; [lia|]. split; auto.
  - destruct (poll cancel_at (l_polls l)) eqn:Hpoll.
    + rewrite processed_prefix_cancel by done. simpl.
      split; [done|]. split; [set_solver|]. split; [lia|]. split; auto.
    + rewrite processed_prefix_cons by done.
      destruct (process_candidate_frame E on_progress existing total idx path l)
        as (Hpol & Hseen & Hproc & Hpolls & _ & Hskip).
      pose proof (process_candidate_store_ok E on_progress existing total idx path l)
        as Hok.
      destruct (IH (S idx) (process_candidate E on_progress existing total idx path l))
        as (IHpol & IHseen & IHproc & IHskip & IHok).
      rewrite Hpolls in IHseen, IHproc.
      split; [congruence|]. split; [|split; [|split]].
      * rewrite IHseen, Hseen. simpl. set_solver.
      * rewrite IHproc, Hproc. simpl. lia.
      * auto.
      * auto.
Qed.


End LoopInduction.

Section LoopSnapshot.
Import Store Indexer.
Variable E : Env.
Variable on_progress : bool.
Variable cancel_at : option nat.
Variable existing : gmap Path (Q * Z).
Variable total : nat.

Lemma unchanged_same (m : gmap Path (Q * Z)) (p : Path) (stat : Q * Z) :
  m !! p = Some stat -> unchanged m p stat = true.
Proof.
  intros H. unfold unchanged. rewrite H.
  rewrite (proj2 (Qeq_bool_iff _ _) (Qeq_refl _)). by rewrite bool_decide_eq_true_2.
Qed.

Lemma process_candidate_in_step (idx : nat) (path : Path) (l : loop_state) :
  in_step E existing l ->
  in_step E existing (process_candidate E on_progress existing total idx path l).
Proof.
  intros (Hinv & Hdone & Hdom).
  destruct (process_candidate_frame E on_progress existing total idx path l)
    as (_ & Hseen & _).
  destruct (process_candidate_conn E on_progress existing total idx path l)
    as [(Hconn & _ & _ & _ & Hun) | (stat & snippet & Hstat & Hch & _ & Hconn & _)];
    unfold in_step; rewrite Hconn, Hseen.
  - split; [exact Hinv|]. split.
    + intros p stat Hp Hstat. apply elem_of_union in Hp as [Hp | Hp]; [|by apply Hdone].
      apply elem_of_singleton in Hp as ->.
      destruct (Hinv path) as [Heq | (s & Hs & Hsnap)].
      * specialize (Hun stat Hstat). unfold unchanged in *. by rewrite Heq.
      * apply unchanged_same. congruence.
    + set_solver.
  - rewrite snapshot_upsert. split; [|split].
    + intros p. destruct (decide (p = path)) as [-> | Hne].
      * right. exists stat. by rewrite lookup_insert_eq.
      * rewrite lookup_insert_ne by done. apply Hinv.
    + intros p s Hp Hs. destruct (decide (p = path)) as [-> | Hne].
      * apply unchanged_same. rewrite lookup_insert_eq. congruence.
      * unfold unchanged. rewrite lookup_insert_ne by done.
        apply elem_of_union in Hp as [Hp | Hp]; [set_solver|].
        by apply (Hdone p s).
    + rewrite dom_insert_L. set_solver.
Qed.

Lemma rebuild_loop_in_step (cands : list Path) (idx : nat) (l : loop_state) :
  in_step E existing l ->
  in_step E existing (rebuild_loop E on_progress cancel_at existing total idx cands l).
Proof.
  revert idx l. induction cands as [|path rest IH]; intros idx l Hin; simpl; [done|].
  destruct (poll cancel_at (l_polls l)); [exact Hin|].
  by apply IH, process_candidate_in_step.
Qed.

End LoopSnapshot.

(** ** The end of a run: stale paths and metadata *)

Section FinishFacts.
Import Store Indexer.
Variable E : Env.

Lemma snapshot_update_meta (d : db) (key : string) (v : meta_value) :
  snapshot (_update_meta d key v) = snapshot d.
Proof. reflexivity. Qed.

Lemma content_of_update_meta (d : db) (key : string) (v : meta_value) (p : Path) :
  content_of (_update_meta d key v) p = content_of d p.
Proof. reflexivity. Qed.

Lemma content_of_no_file (d : db) (p : Path) :
  snapshot d !! p = None -> content_of d p = None.
Proof.
  intros Hs. unfold content_of.
  destruct (select_id p (files d)) as [i|] eqn:Hsel; [|done].
  apply select_id_elem in Hsel as (r & Hr & Hp & _).
  by destruct (snapshot_lookup_none _ _ Hs r Hr).
Qed.

Lemma delete_stale_frame (stale : list Path) (self : DataIndexer) :
  policy_of (delete_stale self stale) = policy_of self
  /\ _last_skipped (delete_stale self stale) = _last_skipped self
  /\ _last_errors (delete_stale self stale) = _last_errors self
  /\ clock_reads (delete_stale self stale) = clock_reads self
  /\ metadata (_conn (delete_stale self stale)) = metadata (_conn self).
Proof.
  revert self. induction stale as [|p stale IH]; intros self; [done|].
  simpl. destruct (IH (with_conn self (_delete_file (_conn self) p)))
    as (-> & -> & -> & -> & ->). done.
Qed.

Lemma delete_stale_store_ok (stale : list Path) (self : DataIndexer) :
  store_ok (_conn self) -> store_ok (_conn (delete_stale self stale)).
Proof.
  revert self. induction stale as [|p stale IH]; intros self Hok; [done|].
  simpl. apply IH. simpl. by apply store_ok_delete.
Qed.

(** A stale path is gone from [files] after the deletions. *)
Lemma delete_stale_gone (stale : list Path) (self : DataIndexer) (p : Path) :
  p ∈ stale \/ snapshot (_conn self) !! p = None ->
  snapshot (_conn (delete_stale self stale)) !! p = None.
Proof.
  revert self. induction stale as [|q stale IH]; intros self Hp.
  - destruct Hp as [Hp | Hp]; [inversion Hp | done].
  - simpl. apply IH. simpl. rewrite snapshot_delete.
    destruct (decide (p = q)) as [-> | Hne].
    + right. apply lookup_delete_eq.
    + rewrite lookup_delete_ne by done.
      destruct Hp as [Hp | Hp]; [|by right].
      left. apply elem_of_cons in Hp as [? | ?]; done.
Qed.

(** A path that is not stale keeps its row and its content. *)
Lemma delete_stale_kept (stale : list Path) (self : DataIndexer) (p : Path) :
  p ∉ stale ->
  snapshot (_conn (delete_stale self stale)) !! p = snapshot (_conn self) !! p
  /\ (store_ok (_conn self) ->
      content_of (_conn (delete_stale self stale)) p = content_of (_conn self) p).
Proof.
  revert self. induction stale as [|q stale IH]; intros self Hp; [done|].
  apply not_elem_of_cons in Hp as [Hne Hp].
  simpl. destruct (IH (with_conn self (_delete_file (_conn self) q)) Hp) as [-> IHc].
  simpl in *. rewrite snapshot_delete, lookup_delete_ne by done.
  split; [done|]. intros Hok. rewrite IHc by (by apply store_ok_delete).
  by apply content_of_delete_other.
Qed.

Lemma store_ok_update_meta (d : db) (key : string) (v : meta_value) :
  store_ok d -> store_ok (_update_meta d key v).
Proof. intros [? ? ? ? ?]. by split. Qed.

(** The database after [finish_run]: the stale paths deleted, the others
    as the loop left them. *)
Lemma finish_run_store (candidates : list Path) (existing : gmap Path (Q * Z))
    (l : loop_state) :
  let r := finish_run E candidates existing l in
  let stale := elements (dom existing ∖ l_seen_paths l) in
  run_deleted r = stale
  /\ policy_of (run_self r) = policy_of (l_self l)
  /\ _last_skipped (run_self r) = _last_skipped (l_self l)
  /\ (forall p, p ∈ stale -> snapshot (_conn (run_self r)) !! p = None)
  /\ (forall p, p ∉ stale ->
        snapshot (_conn (run_self r)) !! p = snapshot (_conn (l_self l)) !! p
        /\ (store_ok (_conn (l_self l)) ->
            content_of (_conn (run_self r)) p = content_of (_conn (l_self l)) p))
  /\ (store_ok (_conn (l_self l)) -> store_ok (_conn (run_self r)))
  /\ (stale = [] ->
      files (_conn (run_self r)) = files (_conn (l_self l))
      /\ file_content (_conn (run_self r)) = file_content (_conn (l_self l))).
Proof.
  intros r stale. unfold r, finish_run. fold stale. cbn [run_deleted run_self].
  unfold tick, with_conn. cbn [_conn policy_of base_path allowed_extensions
    allowed_roots excluded_paths max_file_size_mb max_file_size_bytes _last_skipped].
  destruct (delete_stale_frame stale (l_self l)) as (Hpol & Hsk & _).
  split; [done|]. split; [exact Hpol|]. split; [exact Hsk|].
  split; [|split; [|split]].
  - intros p Hp. rewrite !snapshot_update_meta. apply delete_stale_gone. by left.
  - intros p Hp. rewrite !snapshot_update_meta, !content_of_update_meta.
    by apply delete_stale_kept.
  - intros Hok. do 2 apply store_ok_update_meta. by apply delete_stale_store_ok.
  - intros ->. done.
Qed.

End FinishFacts.

(** ** Runs of [rebuild_index] *)

Section RunFacts.
Import Store Indexer.
Variable E : Env.

Lemma take_processed_prefix (cancel_at : option nat) (polls : nat) (cands : list Path) :
  take (length (processed_prefix cancel_at polls cands)) cands
  = processed_prefix cancel_at polls cands.
Proof.
  unfold processed_prefix. destruct cancel_at as [k|]; [|apply firstn_all].
  rewrite length_take. destruct (decide (k - polls <= length cands)%nat).
  - by rewrite Nat.min_l.
  - rewrite Nat.min_r by lia. rewrite !take_ge; [done | lia | lia].
Qed.

(** The run of an existing base directory, in its parts. *)
Lemma rebuild_index_parts (self : DataIndexer) (on_progress : bool)
    (cancel_at : option nat) :
  path_exists E (get_base_path E self) = true ->
  exists cands polls self1,
    let existing := snapshot (_conn self) in
    let l := rebuild_loop E on_progress cancel_at existing (length cands) 1 cands
               (start_loop self1 polls) in
    rebuild_index E self on_progress cancel_at = finish_run E cands existing l
    /\ cands = w_candidates
                 (_collect_candidates E (with_diagnostics self [] [])
                                      (get_base_path E self) cancel_at)
    /\ polls = w_polls
                 (_collect_candidates E (with_diagnostics self [] [])
                                      (get_base_path E self) cancel_at)
    /\ _conn self1 = _conn self
    /\ policy_of self1 = policy_of self
    /\ l_seen_paths l = list_to_set (processed_prefix cancel_at polls cands)
    /\ l_processed l = length (processed_prefix cancel_at polls cands)
    /\ policy_of (l_self l) = policy_of self
    /\ (store_ok (_conn self) -> store_ok (_conn (l_self l))).
Proof.
  intros Hex. unfold rebuild_index. rewrite Hex. cbn [negb].
  unfold crawl_and_loop.
  set (w := _collect_candidates E (with_diagnostics self [] []) (get_base_path E self)
                                cancel_at).
  set (self1 := with_diagnostics (with_diagnostics self [] []) (w_skipped w) []).
  exists (w_candidates w), (w_polls w), self1. cbn zeta.
  destruct (rebuild_loop_frame E on_progress cancel_at (snapshot (_conn self))
              (length (w_candidates w)) (w_candidates w) 1
              (start_loop self1 (w_polls w)))
    as (Hpol & Hseen & Hproc & _ & Hok).
  split; [reflexivity|]. do 4 (split; [reflexivity|]).
  split; [|split; [|split]].
  - rewrite Hseen. cbn. set_solver.
  - rewrite Hproc. cbn. lia.
  - exact Hpol.
  - exact Hok.
Qed.

(** C10. The stale-deletion pass runs against whatever the loop has seen,
    also when the run was cancelled after a prefix of the candidates or
    when the crawl was cut short and the candidate list is partial: a run
    that has processed the first [n] candidates deletes every previously
    indexed path that is not among them.  Nothing is asked of the file on
    disk: the record of a file that still exists is deleted too. *)
Theorem cancelled_run_deletes_unseen (self : DataIndexer) (on_progress : bool)
    (cancel_at : option nat) (p : Path) (n : nat) :
  path_exists E (get_base_path E self) = true ->
  let r := rebuild_index E self on_progress cancel_at in
  r_processed (run_report r) = Some n ->
  has_file (_conn self) p ->
  p ∉ take n (run_candidates r) ->
  p ∈ run_deleted r
  /\ ~ has_file (_conn (run_self r)) p
  /\ content_of (_conn (run_self r)) p = None.
Proof.
  intros Hex r Hn Hfile Hnot.
  destruct (rebuild_index_parts self on_progress cancel_at Hex)
    as (cands & polls & self1 & Hr & _ & _ & _ & _ & Hseen & Hproc & _).
  cbn zeta in *. unfold r in *. rewrite Hr in *.
  destruct (finish_run_store E cands (snapshot (_conn self))
              (rebuild_loop E on_progress cancel_at (snapshot (_conn self))
                 (length cands) 1 cands (start_loop self1 polls)))
    as (Hdel & _ & _ & Hgone & _).
  cbn [finish_run run_report r_processed run_candidates] in Hn, Hnot.
  assert (n = length (processed_prefix cancel_at polls cands)) as -> by congruence.
  rewrite take_processed_prefix in Hnot.
  assert (p ∈ elements (dom (snapshot (_conn self)) ∖
                        l_seen_paths (rebuild_loop E on_progress cancel_at
                           (snapshot (_conn self)) (length cands) 1 cands
                           (start_loop self1 polls)))) as Hstale.
  { apply elem_of_elements, elem_of_difference. split.
    - apply elem_of_dom. by apply has_file_snapshot.
    - rewrite Hseen. by rewrite elem_of_list_to_set. }
  split; [by rewrite Hdel|].
  specialize (Hgone p Hstale). split.
  - rewrite has_file_snapshot, Hgone. by intros [? ?].
  - by apply content_of_no_file.
Qed.

End RunFacts.

(** ** A second run on an unchanged file system *)

Section Idempotence.
Import Store Indexer.
Variable E : Env.


Lemma get_meta_replace_other (key other : string) (v : meta_value)
    (rows : list (string * meta_value)) :
  other <> key ->
  List.find (fun kv => bool_decide (kv.1 = other)) (meta_replace key v rows)
  = List.find (fun kv => bool_decide (kv.1 = other)) rows.
Proof.
  intros Hne. induction rows as [|[k w] rows IH]; simpl.
  - by rewrite bool_decide_eq_false_2.
  - destruct (decide (k = key)) as [-> | Hk].
    + rewrite bool_decide_eq_true_2 by done. simpl.
      by rewrite !bool_decide_eq_false_2.
    + rewrite bool_decide_eq_false_2 by done. simpl.
      destruct (bool_decide (k = other)); [done | exact IH].
Qed.






End Idempotence.

(** ** A file above the size ceiling *)

Section Oversize.
Import Store Indexer.
Variable E : Env.
Variable on_progress : bool.
Variable cancel_at : option nat.
Variable existing : gmap Path (Q * Z).
Variable total : nat.
Variable self : DataIndexer.
Variable p : Path.
Variable stat : Q * Z.
Hypothesis Hstat : fs_stat E p = Done stat.
Hypothesis Hsize : max_file_size_bytes self < snd stat.
Hypothesis Hchanged : unchanged existing p stat = false.





End Oversize.

Section OversizeRun.
Import Store Indexer.
Variable E : Env.


End OversizeRun.

(** ** The progress callback *)

Section ProgressFacts.
Import Store Indexer.
Variable E : Env.

Lemma process_candidate_progress (existing : gmap Path (Q * Z))
    (total idx : nat) (path : Path) (l : loop_state) :
  l_progress (process_candidate E true existing total idx path l)
  = l_progress l
    ++ (if stat_succeeds E path then [(idx, total, path_str path)] else []).
Proof.
  unfold process_candidate, stat_succeeds.
  destruct (fs_stat E path) as [stat | exc]; [|by rewrite app_nil_r].
  destruct (unchanged existing path stat); [done|].
  by destruct (_read_text_snippet E (l_self l) path (snd stat)).
Qed.

(** In a run that is not cancelled the callback is called once for every
    candidate whose [stat] succeeds, and for no other. *)
Lemma rebuild_loop_progress_count (existing : gmap Path (Q * Z)) (total : nat)
    (cands : list Path) (idx : nat) (l : loop_state) :
  length (l_progress (rebuild_loop E true None existing total idx cands l))
  = (length (l_progress l) + length (List.filter (stat_succeeds E) cands))%nat.
Proof.
  revert idx l. induction cands as [|path rest IH]; intros idx l; simpl; [lia|].
  rewrite IH, process_candidate_progress, length_app.
  destruct (stat_succeeds E path); simpl; lia.
Qed.

Lemma progress_calls_count (self : DataIndexer) :
  path_exists E (get_base_path E self) = true ->
  let r := rebuild_index E self true None in
  length (run_progress r) = length (List.filter (stat_succeeds E) (run_candidates r)).
Proof.
  intros Hex r.
  destruct (rebuild_index_parts E self true None Hex)
    as (cands & polls & self1 & Hr & _).
  cbn zeta in Hr. unfold r. rewrite Hr. cbn [finish_run run_progress run_candidates].
  by rewrite rebuild_loop_progress_count.
Qed.

End ProgressFacts.

(** ** The properties on concrete runs *)

Section Examples.
Import Store Indexer Fixtures.

(** The fixture is the indexer the constructor builds. *)
Example indexer_on_is_init :
  __init__ (notes_env true) (Some docs) None (Some [["/"; "home"; "u"]]) None
           (PFinite 8)
  = Done (indexer_on (notes_env true) 8).
Proof. vm_compute. reflexivity. Qed.

End Examples.

(** The fts5 backend, on the database that holds [notes.md]. *)
Lemma store_invariant_preserved_witness :
  let q := Fixtures.docs ++ ["notes2.md"] in
  let d := Store._upsert_file (Store.empty_db true) (Fixtures.docs ++ ["notes.md"])
                              (1700000000%Q, 24) "quarterly revenue report" "t0" in
  let up := Store._upsert_file d q (1700000100%Q, 12) "grocery list" "t1" in
  let del := Store._delete_file d q in
  (Store.store_ok up /\ forall p, Store.has_content up p <-> Store.has_file up p)
  /\ (Store.store_ok del /\ forall p, Store.has_content del p <-> Store.has_file del p)
  /\ (Store.snapshot up !! q = Some (1700000100%Q, 12)
      /\ Store.content_of up q = Some "grocery list"
      /\ forall p, p <> q ->
           Store.snapshot up !! p = Store.snapshot d !! p
           /\ Store.content_of up p = Store.content_of d p)
  /\ (~ Store.has_file del q
      /\ ~ Store.has_content del q
      /\ Store.content_of del q = None
      /\ forall p, p <> q ->
           Store.snapshot del !! p = Store.snapshot d !! p
           /\ Store.content_of del p = Store.content_of d p).
Proof.
  apply (store_invariant_preserved
           (Store._upsert_file (Store.empty_db true) (Fixtures.docs ++ ["notes.md"])
                               (1700000000%Q, 24) "quarterly revenue report" "t0")
           (Fixtures.docs ++ ["notes2.md"]) (1700000100%Q, 12) "grocery list" "t1").
  apply store_ok_upsert, store_ok_empty.
Defined.

(** The fallback backend: a second upsert of [notes.md] leaves the content
    row of the replaced [files] row behind, linked to no file; the next
    delete removes it. *)
Example fallback_replaced_row :
  let p := Fixtures.docs ++ ["notes.md"] in
  let d1 := Store._upsert_file (Store.empty_db false) p (1700000000%Q, 24) "old" "t0" in
  let d2 := Store._upsert_file d1 p (1700000500%Q, 30) "new" "t1" in
  Store.store_ok d2
  /\ Store.content_ids d2 = [1; 2]
  /\ Store.f_id <$> Store.files d2 = [2]
  /\ Store.content_of d2 p = Some "new"
  /\ Store.content_ids (Store._delete_file d2 (Fixtures.docs ++ ["notes2.md"])) = [2].
Proof.
  split; [do 2 apply store_ok_upsert; apply store_ok_empty|].
  vm_compute. repeat split.
Qed.



(** A run over [notes.md] and [notes2.md] that is cancelled after the first
    candidate (the flag is seen set at the third poll: one poll in the
    crawl, one before each candidate): the record of [notes2.md], a file
    whose [stat] succeeds, is deleted. *)
Lemma cancelled_run_deletes_unseen_witness :
  let E := Fixtures.notes_env true in
  let first := Indexer.rebuild_index E (Fixtures.indexer_on E 8) true None in
  let r := Indexer.rebuild_index E (Indexer.run_self first) true (Some 2%nat) in
  let p := Fixtures.docs ++ ["notes2.md"] in
  p ∈ Indexer.run_deleted r
  /\ ~ Store.has_file (Indexer._conn (Indexer.run_self r)) p
  /\ Store.content_of (Indexer._conn (Indexer.run_self r)) p = None.
Proof.
  apply (cancelled_run_deletes_unseen (Fixtures.notes_env true)
           (Indexer.run_self
              (Indexer.rebuild_index (Fixtures.notes_env true)
                 (Fixtures.indexer_on (Fixtures.notes_env true) 8) true None))
           true (Some 2%nat) (Fixtures.docs ++ ["notes2.md"]) 1%nat).
  - reflexivity.
  - vm_compute. reflexivity.
  - apply has_file_snapshot. vm_compute. eexists. reflexivity.
  - apply (bool_decide_unpack _). vm_compute. exact I.
Defined.

(** The cancelled run of the witness: it reports [cancelled], one candidate
    processed of two, and [notes2.md] still has its [stat]. *)
Example cancelled_run_report :
  let E := Fixtures.notes_env true in
  let first := Indexer.rebuild_index E (Fixtures.indexer_on E 8) true None in
  let r := Indexer.rebuild_index E (Indexer.run_self first) true (Some 2%nat) in
  Indexer.r_cancelled (Indexer.run_report r) = true
  /\ Indexer.r_processed (Indexer.run_report r) = Some 1%nat
  /\ Indexer.r_total_scanned (Indexer.run_report r) = 2%nat
  /\ Indexer.r_documents (Indexer.run_report r) = 1%nat
  /\ fs_stat E (Fixtures.docs ++ ["notes2.md"]) = Done (1700000100%Q, 12).
Proof. vm_compute. repeat split. Qed.

(** C6, at the failing input: a run that is not cancelled, with a progress
    callback, over the one candidate [gone.txt] whose [stat] fails.  The run
    scans one candidate, records one error, and never calls the callback. *)
Lemma progress_skipped_when_stat_fails :
  let E := Fixtures.gone_env in
  let r := Indexer.rebuild_index E (Fixtures.indexer_on E 8) true None in
  Indexer.run_candidates r = [Fixtures.docs ++ ["gone.txt"]]
  /\ Indexer.r_total_scanned (Indexer.run_report r) = 1%nat
  /\ Indexer.r_processed (Indexer.run_report r) = Some 1%nat
  /\ Indexer.r_errors (Indexer.run_report r) = 1%nat
  /\ Indexer.r_cancelled (Indexer.run_report r) = false
  /\ Indexer.run_progress r = [].
Proof. vm_compute. repeat split. Qed.

(** ** [SequenceMatcher]: the recursion over the matching blocks ends *)

Section DifflibFacts.
Import Difflib.
Local Open Scope nat_scope.

Lemma j2len_get_below (n : nat) (j2len : list (nat * nat)) (j : nat) :
  j2len_below n j2len -> j2len_get j2len j <= n.
Proof.
  induction j2len as [|[j' k] rest IH]; intros H; simpl; [lia|].
  destruct (Nat.eqb j' j).
  - apply (H j' k). constructor.
  - apply IH. intros x y Hxy. apply (H x y). by constructor.
Qed.

Lemma j2len_prev_below (n : nat) (j2len : list (nat * nat)) (j : nat) :
  j2len_below n j2len -> j2len_prev j2len j <= n.
Proof.
  intros H. destruct j as [|j']; simpl; [lia | by apply j2len_get_below].
Qed.

Lemma scan_fold_within (alo blo bhi i : nat) (j2len : list (nat * nat))
    (js : list nat) (acc : list (nat * nat)) (cur : match_block) :
  alo <= i ->
  j2len_below (i - alo) j2len ->
  j2len_below (S (i - alo)) acc ->
  block_within alo (S i) cur ->
  let out :=
    fold_left
      (fun '(newj2len, best) j =>
         if Nat.ltb j blo then (newj2len, best)
         else if Nat.leb bhi j then (newj2len, best)
         else
           let k := j2len_prev j2len j + 1 in
           let newj2len := (j, k) :: newj2len in
           if Nat.ltb (snd best) k then (newj2len, (i + 1 - k, j + 1 - k, k))
           else (newj2len, best))
      js (acc, cur) in
  j2len_below (S (i - alo)) out.1 /\ block_within alo (S i) out.2.
Proof.
  intros Hi Hj. revert acc cur.
  induction js as [|j js IH]; intros acc cur Hnew Hcur; [done|].
  simpl. destruct (j <? blo); [by apply IH|]. destruct (bhi <=? j); [by apply IH|].
  pose proof (j2len_prev_below _ _ j Hj) as Hk.
  assert (j2len_below (S (i - alo)) ((j, j2len_prev j2len j + 1) :: acc)) as Hnew'.
  { intros x y Hxy. apply elem_of_cons in Hxy as [Heq | Hxy]; [|by apply (Hnew x y)].
    injection Heq as -> ->. lia. }
  destruct (cur.2 <? j2len_prev j2len j + 1); apply IH; try done.
  unfold block_within. simpl. lia.
Qed.

Lemma scan_row_within (b : list ascii) (alo blo bhi i : nat) (ai : ascii)
    (j2len : list (nat * nat)) (best : match_block) :
  alo <= i ->
  j2len_below (i - alo) j2len ->
  block_within alo i best ->
  j2len_below (S (i - alo)) (scan_row b blo bhi i ai j2len best).1
  /\ block_within alo (S i) (scan_row b blo bhi i ai j2len best).2.
Proof.
  intros Hi Hj Hb. unfold scan_row. apply scan_fold_within; try done.
  - intros ? ? Hin. inversion Hin.
  - destruct Hb. split; lia.
Qed.

Lemma rows_within (a b : list ascii) (alo blo bhi : nat) (n start : nat)
    (j2len : list (nat * nat)) (best : match_block) :
  alo <= start ->
  j2len_below (start - alo) j2len ->
  block_within alo start best ->
  block_within alo (start + n)
    (fold_left
       (fun '(j2len, best) i =>
          match a !! i with
          | Some ai => scan_row b blo bhi i ai j2len best
          | None => ([], best)
          end)
       (seq start n) (j2len, best)).2.
Proof.
  revert start j2len best. induction n as [|n IH]; intros start j2len best Hs Hj Hb.
  - simpl. destruct Hb. split; simpl in *; lia.
  - simpl. replace (start + S n) with (S start + n) by lia.
    destruct (a !! start) as [ai|].
    + destruct (scan_row_within b alo blo bhi start ai j2len best Hs Hj Hb) as [Hj' Hb'].
      destruct (scan_row b blo bhi start ai j2len best) as [new best'].
      apply IH; [lia | | exact Hb']. replace (S start - alo) with (S (start - alo)) by lia.
      exact Hj'.
    + apply IH; [lia | intros ? ? Hin; inversion Hin |].
      destruct Hb. split; lia.
Qed.

Lemma extend_left_within (fuel : nat) (a b : list ascii) (alo blo hi : nat)
    (best : match_block) :
  block_within alo hi best -> block_within alo hi (extend_left fuel a b alo blo best).
Proof.
  revert best. induction fuel as [|fuel IH]; intros [[bi bj] bs] Hb; simpl; [done|].
  destruct (alo <? bi) eqn:Hlt; [|done]. simpl.
  destruct (blo <? bj); [|done]. simpl.
  destruct (bool_decide _); [|done]. simpl.
  apply IH. apply Nat.ltb_lt in Hlt. destruct Hb as [H1 H2].
  unfold block_within in *. simpl in *. lia.
Qed.

Lemma extend_right_within (fuel : nat) (a b : list ascii) (alo ahi bhi : nat)
    (best : match_block) :
  block_within alo ahi best -> block_within alo ahi (extend_right fuel a b ahi bhi best).
Proof.
  revert best. induction fuel as [|fuel IH]; intros [[bi bj] bs] Hb; simpl; [done|].
  destruct (bi + bs <? ahi) eqn:Hlt; [|done]. simpl.
  destruct (bj + bs <? bhi); [|done]. simpl.
  destruct (bool_decide _); [|done]. simpl.
  apply IH. apply Nat.ltb_lt in Hlt. destruct Hb as [H1 H2].
  unfold block_within in *. simpl in *. lia.
Qed.

(** The two extension loops end within the fuel they are given. *)
Lemma extend_left_fuel (fuel fuel' : nat) (a b : list ascii) (alo blo : nat)
    (best : match_block) :
  best.1.1 <= fuel -> best.1.1 <= fuel' ->
  extend_left fuel a b alo blo best = extend_left fuel' a b alo blo best.
Proof.
  revert fuel' best. induction fuel as [|fuel IH]; intros fuel' [[bi bj] bs] Hf Hf';
    simpl in Hf, Hf'.
  - destruct fuel' as [|fuel']; [done|]. simpl.
    replace (alo <? bi) with false; [done|]. symmetry. apply Nat.ltb_ge. lia.
  - destruct fuel' as [|fuel']; simpl.
    + replace (alo <? bi) with false; [done|]. symmetry. apply Nat.ltb_ge. lia.
    + destruct (alo <? bi) eqn:Hlt; [|done]. simpl.
      destruct (blo <? bj); [|done]. simpl.
      destruct (bool_decide _); [|done]. simpl.
      apply Nat.ltb_lt in Hlt. apply IH; simpl; lia.
Qed.

Lemma extend_right_fuel (fuel fuel' : nat) (a b : list ascii) (ahi bhi : nat)
    (best : match_block) :
  ahi - (best.1.1 + best.2) <= fuel -> ahi - (best.1.1 + best.2) <= fuel' ->
  extend_right fuel a b ahi bhi best = extend_right fuel' a b ahi bhi best.
Proof.
  revert fuel' best. induction fuel as [|fuel IH]; intros fuel' [[bi bj] bs] Hf Hf';
    simpl in Hf, Hf'.
  - destruct fuel' as [|fuel']; [done|]. simpl.
    replace (bi + bs <? ahi) with false; [done|]. symmetry. apply Nat.ltb_ge. lia.
  - destruct fuel' as [|fuel']; simpl.
    + replace (bi + bs <? ahi) with false; [done|]. symmetry. apply Nat.ltb_ge. lia.
    + destruct (bi + bs <? ahi) eqn:Hlt; [|done]. simpl.
      destruct (bj + bs <? bhi); [|done]. simpl.
      destruct (bool_decide _); [|done]. simpl.
      apply Nat.ltb_lt in Hlt. apply IH; simpl; lia.
Qed.

(** The longest match of a range of [a] lies within the range. *)
Lemma find_longest_match_within (a b : list ascii) (alo ahi blo bhi : nat) :
  alo <= ahi -> block_within alo ahi (find_longest_match a b alo ahi blo bhi).
Proof.
  intros Hle. unfold find_longest_match.
  match goal with
  | |- context [fold_left ?f ?l ?x] => set (res := fold_left f l x)
  end.
  assert (block_within alo ahi res.2) as Hres.
  { pose proof (rows_within a b alo blo bhi (ahi - alo) alo [] (alo, blo, 0)) as Hrows.
    replace (alo + (ahi - alo)) with ahi in Hrows by lia.
    apply Hrows; [lia | intros ? ? Hin; inversion Hin | split; simpl; lia]. }
  destruct res as [j2len best].
  by apply extend_right_within, extend_left_within.
Qed.

(** Fuel above the length of the range is never used up: the result is the
    same for every such fuel. *)
Lemma matching_size_fuel (a b : list ascii) (fuel fuel' alo ahi blo bhi : nat) :
  alo <= ahi -> ahi - alo < fuel -> ahi - alo < fuel' ->
  matching_size fuel a b alo ahi blo bhi = matching_size fuel' a b alo ahi blo bhi.
Proof.
  revert fuel' alo ahi blo bhi.
  induction fuel as [|fuel IH]; intros fuel' alo ahi blo bhi Hle Hf Hf'; [lia|].
  destruct fuel' as [|fuel']; [lia|]. simpl.
  pose proof (find_longest_match_within a b alo ahi blo bhi Hle) as [H1 H2].
  destruct (find_longest_match a b alo ahi blo bhi) as [[i j] k]. simpl in H1, H2.
  destruct (k =? 0) eqn:Hk; [done|]. apply Nat.eqb_neq in Hk.
  f_equal; [f_equal|].
  - destruct (alo <? i); [|done]. simpl. destruct (blo <? j); [|done]. simpl.
    apply IH; lia.
  - destruct (i + k <? ahi) eqn:Hik; [|done]. simpl. destruct (j + k <? bhi); [|done].
    simpl. apply Nat.ltb_lt in Hik. apply IH; lia.
Qed.

(** [matches] is the sum of the matching blocks whatever fuel above the
    length of [a] the recursion is given. *)
Lemma matches_any_fuel (a b : string) (fuel : nat) :
  length (chars a) < fuel ->
  matches a b = matching_size fuel (chars a) (chars b) 0 (length (chars a))
                              0 (length (chars b)).
Proof.
  intros Hf. unfold matches. apply matching_size_fuel; lia.
Qed.

End DifflibFacts.

(** ** RankedSearch *)

Section SearchFacts.
Import Store Indexer Search.
Variable E : Env.





End SearchFacts.


(** The ranking of the scenario comes from the tie-break on the file name:
    both files score zero, on either backend. *)
Example search_revenue_scores :
  (Search.e_score <$> Search.search (Fixtures.notes_env true) (Fixtures.notes_index true)
                        1700000200 "revenue" 20) = [0%Q; 0%Q]
  /\ (Search.e_score <$> Search.search (Fixtures.notes_env false)
                           (Fixtures.notes_index false) 1700000200 "revenue" 20)
     = [0%Q; 0%Q].
Proof. split; vm_compute; reflexivity. Qed.

(** C2, at the failing input: the index of [notes.md] and [notes2.md] on the
    fallback backend, searched for ["wombat"], a word that is in neither
    name and in neither content.  Both files are returned, each with the
    score zero. *)
Lemma search_returns_zero_score_files :
  let result := Search.search (Fixtures.notes_env false) (Fixtures.notes_index false)
                              1700000200 "wombat" 20 in
  Search.e_name <$> result = ["notes.md"; "notes2.md"]
  /\ Search.e_score <$> result = [0%Q; 0%Q]
  /\ Search.e_snippet <$> result = [""; ""].
Proof. vm_compute. repeat split. Qed.

(** A name match deep in the tree gets a negative score (the depth penalty
    exceeds the token bonus and the recency bonus) and is returned too. *)
Example search_returns_negative_score :
  let deep := ["/"; "a"; "b"; "c"; "d"; "e"; "f"; "g"; "h"; "i"; "j"; "k"; "l"; "m";
               "n"; "o"; "p"; "q"; "r"; "s"; "t"; "u"; "v"; "w.md"] in
  let d := Store._upsert_file (Store.empty_db false) deep (0%Q, 1) "text" "t0" in
  let self := Indexer.with_conn (Fixtures.indexer_on (Fixtures.notes_env false) 8) d in
  exists e, Search.search (Fixtures.notes_env false) self 1700000200 "wxyz" 20 = [e]
            /\ (Search.e_score e < 0)%Q.
Proof. eexists. split; [vm_compute; reflexivity|]. vm_compute. reflexivity. Qed.

(** * Further properties of the code *)

(** ** PathPolicy: [normalise_paths] *)

Section NormaliseFacts.
Variable E : Env.

Lemma normalise_loop_spec (values : list Path) (seen : list string) :
  let out := PathPolicy.normalise_loop E values seen in
  NoDup (posix_key <$> out)
  /\ (forall p, p ∈ out -> posix_key p ∉ seen)
  /\ out `sublist_of` (clean E <$> values)
  /\ (forall v, v ∈ values ->
        posix_key (clean E v) ∈ seen
        \/ exists p, p ∈ out /\ posix_key p = posix_key (clean E v)).
Proof.
  revert seen. induction values as [|v values IH]; intros seen; simpl.
  - repeat split; [apply NoDup_nil_2 | intros p Hp; inversion Hp | constructor
                  | intros v Hv; inversion Hv].
  - unfold PathPolicy._clean. fold (posix_key (clean E v)).
    case_bool_decide as Hseen.
    + destruct (IH seen) as (Hnd & Hfresh & Hsub & Hcov).
      repeat split; [done | done | by apply sublist_cons |].
      intros x Hx. apply elem_of_cons in Hx as [-> | Hx]; [by left | by apply Hcov].
    + destruct (IH (posix_key (clean E v) :: seen)) as (Hnd & Hfresh & Hsub & Hcov).
      repeat split.
      * rewrite fmap_cons. apply NoDup_cons. split; [|done].
        intros Hin. apply list_elem_of_fmap in Hin as (p & Hk & Hp).
        apply (Hfresh p Hp). rewrite <- Hk. constructor.
      * intros p Hp Hps. apply elem_of_cons in Hp as [-> | Hp]; [done|].
        apply (Hfresh p Hp). by constructor.
      * by apply sublist_skip.
      * intros x Hx. apply elem_of_cons in Hx as [-> | Hx].
        -- right. exists (clean E v). split; [constructor | done].
        -- destruct (Hcov x Hx) as [Hin | (p & Hp & Hk)].
           ++ apply elem_of_cons in Hin as [Heq | Hin]; [|by left].
              right. exists (clean E v). split; [constructor | done].
           ++ right. exists p. split; [by constructor | done].
Qed.

(** X1. [normalise_paths] returns the cleaned entries in their first-seen
    order, one per lower-cased POSIX text: the result is a subsequence of
    the cleaned input, no two results agree up to case, and every entry of
    the input is represented by a result that agrees with it up to case. *)
Theorem normalise_paths_first_seen_unique (values : list Path) :
  let out := PathPolicy.normalise_paths E (Some values) in
  out `sublist_of` (clean E <$> values)
  /\ NoDup (posix_key <$> out)
  /\ NoDup out
  /\ (forall v, v ∈ values -> exists p, p ∈ out /\ posix_key p = posix_key (clean E v)).
Proof.
  destruct (normalise_loop_spec values []) as (Hnd & _ & Hsub & Hcov).
  cbn zeta. unfold PathPolicy.normalise_paths.
  split; [done|]. split; [done|]. split.
  - by apply (NoDup_fmap_1 posix_key).
  - intros v Hv. destruct (Hcov v Hv) as [Hin | Hp]; [inversion Hin | done].
Qed.

(** [normalise_paths] gives the empty list for [None] and for the empty
    sequence only: a sequence with an entry keeps its first entry, cleaned,
    at the head. *)
Lemma normalise_paths_head (values : option (list Path)) :
  match values with
  | None | Some [] => PathPolicy.normalise_paths E values = []
  | Some (v :: _) => head (PathPolicy.normalise_paths E values) = Some (clean E v)
  end.
Proof. destruct values as [[|v rest]|]; reflexivity. Qed.

End NormaliseFacts.

(** ** PathPolicy: [is_allowed] *)

Section AllowedFacts.
Variable E : Env.

Lemma find_none_all {A} (f : A -> bool) (l : list A) :
  List.find f l = None <-> forall x, x ∈ l -> f x = false.
Proof.
  induction l as [|a l IH]; simpl.
  - split; [intros _ x Hx; inversion Hx | done].
  - destruct (f a) eqn:Hfa.
    + split; [done|]. intros H. specialize (H a (list_elem_of_here _ _)). congruence.
    + rewrite IH. split.
      * intros H x Hx. apply elem_of_cons in Hx as [-> | Hx]; auto.
      * intros H x Hx. apply H. by constructor.
Qed.

Lemma existsb_elem {A} (f : A -> bool) (l : list A) :
  existsb f l = true <-> exists x, x ∈ l /\ f x = true.
Proof.
  rewrite existsb_exists. split; intros (x & Hx & Hf); exists x;
    (split; [by apply list_elem_of_In | done]).
Qed.

Lemma is_allowed_true_iff (P : Path) (allowed_roots excluded : list Path) :
  (PathPolicy.is_allowed E P allowed_roots excluded).1 = true
  <-> (forall e, e ∈ excluded -> PathPolicy.is_under E (clean E P) e = false)
      /\ exists root, root ∈ allowed_roots /\ covered_by E P root.
Proof.
  unfold PathPolicy.is_allowed, PathPolicy._clean, covered_by.
  destruct (List.find _ excluded) as [first|] eqn:Hfind.
  - simpl. split; [done|]. intros [Hnone _].
    apply find_elem in Hfind as [Hin Hu]. rewrite (Hnone first Hin) in Hu. done.
  - pose proof (proj1 (find_none_all _ _) Hfind) as Hnone.
    destruct (existsb _ allowed_roots) eqn:Hex; simpl.
    + split; [|done]. intros _. split; [exact Hnone|].
      apply existsb_elem in Hex as (root & Hin & Hroot). exists root. split; [done|].
      apply orb_true_iff in Hroot as [Hu | Heq]; [by left|].
      right. by apply bool_decide_eq_true in Heq.
    + split; [done|]. intros [_ (root & Hin & Hroot)].
      assert (existsb (fun root => PathPolicy.is_under E (clean E P) root
                                   || bool_decide (clean E P = root))
                      allowed_roots = true) as Hyes.
      { apply existsb_elem. exists root. split; [done|]. apply orb_true_iff.
        destruct Hroot as [Hu | Heq]; [by left|]. right. by apply bool_decide_eq_true. }
      congruence.
Qed.

(** X2. [is_allowed] answers [True] exactly when no excluded entry contains
    the cleaned path and some allowed root contains it or is it; the reason
    is then [None].  A denial names the first excluded entry that contains
    the path, or is ["Outside allowed roots"] when none does.  With no
    allowed roots every path is denied. *)
Theorem is_allowed_decision (P : Path) (allowed_roots excluded : list Path) :
  let answer := PathPolicy.is_allowed E P allowed_roots excluded in
  (answer.1 = true
   <-> (forall e, e ∈ excluded -> PathPolicy.is_under E (clean E P) e = false)
       /\ exists root, root ∈ allowed_roots /\ covered_by E P root)
  /\ (answer.1 = true -> answer.2 = None)
  /\ (answer.1 = false ->
      (exists e, e ∈ excluded /\ PathPolicy.is_under E (clean E P) e = true
                 /\ answer.2 = Some ("Excluded path: " +:+ path_str e))
      \/ ((forall e, e ∈ excluded -> PathPolicy.is_under E (clean E P) e = false)
          /\ answer.2 = Some "Outside allowed roots"))
  /\ (PathPolicy.is_allowed E P [] excluded).1 = false.
Proof.
  cbn zeta. split; [apply is_allowed_true_iff|].
  unfold PathPolicy.is_allowed, PathPolicy._clean.
  destruct (List.find _ excluded) as [first|] eqn:Hfind; simpl.
  - apply find_elem in Hfind as [Hin Hu].
    split; [done|]. split; [|done]. intros _. left. by exists first.
  - pose proof (proj1 (find_none_all _ _) Hfind) as Hnone.
    destruct (existsb _ allowed_roots); simpl; split; try done.
    split; [|done]. intros _. by right.
Qed.

(** X3. More exclusions never allow more, and more allowed roots never deny
    more: a path allowed under the longer excluded list is allowed under
    the shorter one, and a path allowed with some roots stays allowed when
    roots are added. *)
Theorem is_allowed_monotone (P : Path) (allowed_roots more_roots excluded
    more_excluded : list Path) :
  ((PathPolicy.is_allowed E P allowed_roots (excluded ++ more_excluded)).1 = true ->
   (PathPolicy.is_allowed E P allowed_roots excluded).1 = true)
  /\ ((PathPolicy.is_allowed E P allowed_roots excluded).1 = true ->
      (PathPolicy.is_allowed E P (allowed_roots ++ more_roots) excluded).1 = true).
Proof.
  rewrite !is_allowed_true_iff. split.
  - intros [Hnone Hroot]. split; [|done]. intros e He. apply Hnone.
    apply elem_of_app. by left.
  - intros [Hnone (root & Hin & Hroot)]. split; [done|]. exists root.
    split; [|done]. apply elem_of_app. by left.
Qed.

Lemma parts_prefix_trans (a b c : Path) :
  parts_prefix a b = true -> parts_prefix b c = true -> parts_prefix a c = true.
Proof.
  revert b c. induction a as [|x a IH]; intros b c Hab Hbc; [done|].
  destruct b as [|y b]; [done|]. destruct c as [|z c]; [done|].
  simpl in *. apply andb_true_iff in Hab as [Hxy Hab].
  apply andb_true_iff in Hbc as [Hyz Hbc].
  apply bool_decide_eq_true in Hxy, Hyz. subst.
  rewrite bool_decide_eq_true_2 by done. simpl. by apply (IH b c).
Qed.

Lemma relative_to_ok_trans (p q r : Path) :
  relative_to_ok p q = true -> relative_to_ok q r = true -> relative_to_ok p r = true.
Proof.
  unfold relative_to_ok. intros Hpq Hqr.
  destruct r as [|z r].
  - destruct q as [|y q]; [done|].
    destruct p as [|x p]; [done|]. simpl in Hpq.
    apply andb_true_iff in Hpq as [Hxy _]. apply bool_decide_eq_true in Hxy. subst.
    exact Hqr.
  - destruct q as [|y q]; [done|]. by apply (parts_prefix_trans _ (y :: q)).
Qed.

(** X4. Exclusion is inherited: with a [resolve] that is idempotent, a path
    that lies under a path which an excluded entry contains is denied too,
    with an excluded-path reason, whatever the allowed roots are. *)
Theorem exclusion_inherited (P Q : Path) (allowed_roots excluded : list Path)
    (entry : Path) :
  (forall p, clean E (clean E p) = clean E p) ->
  entry ∈ excluded ->
  PathPolicy.is_under E Q entry = true ->
  PathPolicy.is_under E P Q = true ->
  exists first,
    first ∈ excluded
    /\ PathPolicy.is_allowed E P allowed_roots excluded
       = (false, Some ("Excluded path: " +:+ path_str first)).
Proof.
  intros Hidem Hin HQ HP.
  assert (PathPolicy.is_under E (PathPolicy._clean E P) entry = true) as Hunder.
  { rewrite is_under_clean_idem by done.
    unfold PathPolicy.is_under, PathPolicy._clean in *.
    by apply (relative_to_ok_trans _ (clean E Q)). }
  destruct (is_allowed_excluded_clean E P allowed_roots excluded entry Hin Hunder)
    as (first & Hmem & _ & Hres).
  by exists first.
Qed.

End AllowedFacts.

(** A file deep under the excluded [/etc]. *)
Lemma exclusion_inherited_witness :
  exists first,
    first ∈ [["/"; "etc"]]
    /\ PathPolicy.is_allowed (Fixtures.notes_env true)
         ["/"; "etc"; "ssh"; "keys"; "id_rsa"] [["/"]] [["/"; "etc"]]
       = (false, Some ("Excluded path: " +:+ path_str first)).
Proof.
  apply (exclusion_inherited (Fixtures.notes_env true)
           ["/"; "etc"; "ssh"; "keys"; "id_rsa"] ["/"; "etc"; "ssh"]
           [["/"]] [["/"; "etc"]] ["/"; "etc"]).
  - reflexivity.
  - constructor.
  - reflexivity.
  - reflexivity.
Defined.

(** ** DataIndexer: the policy lists *)

Section PolicyLists.
Import Indexer.
Variable E : Env.

Lemma normalise_loop_cons_fresh (v : Path) (rest : list Path) :
  PathPolicy.normalise_loop E (v :: rest) []
  = clean E v :: PathPolicy.normalise_loop E rest [lower (path_str (clean E v))].
Proof.
  reflexivity.
Qed.

Lemma normalise_paths_nonempty (v : Path) (rest : list Path) :
  PathPolicy.normalise_paths E (Some (v :: rest)) <> [].
Proof. unfold PathPolicy.normalise_paths. by rewrite normalise_loop_cons_fresh. Qed.

Lemma default_allowed_roots_nonempty : PathPolicy.default_allowed_roots E <> [].
Proof.
  unfold PathPolicy.default_allowed_roots.
  destruct (cwd E) as [c|]; [|apply normalise_paths_nonempty].
  destruct (bool_decide _); apply normalise_paths_nonempty.
Qed.

Lemma default_excluded_paths_nonempty : PathPolicy.default_excluded_paths E <> [].
Proof.
  unfold PathPolicy.default_excluded_paths, PathPolicy._windows_exclusions,
    PathPolicy._posix_exclusions.
  destruct (os_platform E); apply normalise_paths_nonempty.
Qed.

Lemma list_or_nonempty {A} (a b : list A) : b <> [] -> list_or a b <> [].
Proof. by destruct a. Qed.

Lemma normalise_paths_NoDup (values : option (list Path)) :
  NoDup (PathPolicy.normalise_paths E values).
Proof.
  destruct values as [vs|]; [|constructor].
  destruct (normalise_loop_spec E vs []) as (Hkeys & _).
  by apply (NoDup_fmap_1 posix_key).
Qed.

Lemma default_excluded_paths_NoDup : NoDup (PathPolicy.default_excluded_paths E).
Proof.
  unfold PathPolicy.default_excluded_paths, PathPolicy._windows_exclusions,
    PathPolicy._posix_exclusions.
  destruct (os_platform E); apply normalise_paths_NoDup.
Qed.

Lemma update_policy_lists (self : DataIndexer)
    (allowed excluded : option (list Path)) (max_mb : option pyfloat) :
  let self' := (update_policy E self allowed excluded max_mb).1 in
  allowed_roots self'
  = match allowed with
    | Some _ => list_or (PathPolicy.normalise_paths E allowed)
                        (PathPolicy.default_allowed_roots E)
    | None => allowed_roots self
    end
  /\ excluded_paths self'
     = match excluded with
       | Some _ =>
           PathPolicy.default_excluded_paths E
           ++ filter (fun path => path ∉ PathPolicy.default_excluded_paths E)
                     (PathPolicy.normalise_paths E excluded)
       | None => excluded_paths self
       end.
Proof.
  unfold update_policy.
  destruct max_mb as [x|]; [destruct (mb_to_bytes (clamp_mb x))|]; by split.
Qed.

(** X5. An indexer never holds an empty list of allowed roots or of excluded
    paths: the constructor falls back to the defaults of the platform for a
    missing or empty list, and no call of [update_policy], whatever its
    arguments and whether it raises or not, empties either list. *)
Theorem policy_lists_never_empty (base : option Path) (persisted : option Store.db)
    (allowed excluded : option (list Path)) (max_mb : pyfloat) (self : DataIndexer)
    (allowed' excluded' : option (list Path)) (max_mb' : option pyfloat) :
  __init__ E base persisted allowed excluded max_mb = Done self ->
  let self' := (update_policy E self allowed' excluded' max_mb').1 in
  allowed_roots self <> [] /\ excluded_paths self <> []
  /\ allowed_roots self' <> [] /\ excluded_paths self' <> [].
Proof.
  intros Hinit self'.
  assert (allowed_roots self <> [] /\ excluded_paths self <> []) as [Ha He].
  { unfold __init__ in Hinit. destruct (mb_to_bytes (clamp_mb max_mb)); [|done].
    injection Hinit as <-. cbn [allowed_roots excluded_paths]. split.
    - apply list_or_nonempty, default_allowed_roots_nonempty.
    - apply list_or_nonempty, default_excluded_paths_nonempty. }
  destruct (update_policy_lists self allowed' excluded' max_mb') as [Ha' He'].
  fold self' in Ha', He'. repeat split; try done.
  - rewrite Ha'. destruct allowed'; [|done].
    apply list_or_nonempty, default_allowed_roots_nonempty.
  - rewrite He'. destruct excluded'; [|done].
    pose proof default_excluded_paths_nonempty as Hne.
    destruct (PathPolicy.default_excluded_paths E); done.
Qed.

(** X6. [update_policy] with a list of excluded paths stores the defaults of
    the platform, in their order, followed by the cleaned entries of the
    list that are no defaults: the stored list starts with the defaults,
    has no entry twice, and holds exactly the defaults and the normalised
    entries. *)
Theorem update_policy_excluded_merge (self : DataIndexer)
    (allowed : option (list Path)) (extras : list Path) (max_mb : option pyfloat) :
  let stored := excluded_paths (update_policy E self allowed (Some extras) max_mb).1 in
  PathPolicy.default_excluded_paths E `prefix_of` stored
  /\ NoDup stored
  /\ (forall p, p ∈ stored <->
                p ∈ PathPolicy.default_excluded_paths E
                \/ p ∈ PathPolicy.normalise_paths E (Some extras)).
Proof.
  cbn zeta.
  destruct (update_policy_lists self allowed (Some extras) max_mb) as [_ ->].
  split; [by eexists|]. split.
  - apply NoDup_app. split; [apply default_excluded_paths_NoDup|]. split.
    + intros p Hp Hq. apply list_elem_of_filter in Hq as [Hq _]. done.
    + apply NoDup_filter, normalise_paths_NoDup.
  - intros p. rewrite elem_of_app, list_elem_of_filter.
    destruct (decide (p ∈ PathPolicy.default_excluded_paths E)); naive_solver.
Qed.

Lemma get_meta_replace_same (key : string) (v : Store.meta_value)
    (rows : list (string * Store.meta_value)) :
  snd <$> List.find (fun kv => bool_decide (fst kv = key)) (Store.meta_replace key v rows)
  = Some v.
Proof.
  induction rows as [|[k w] rows IH]; simpl.
  - by rewrite bool_decide_eq_true_2.
  - destruct (decide (k = key)) as [->|Hne].
    + rewrite bool_decide_eq_true_2 by done. simpl. by rewrite bool_decide_eq_true_2.
    + rewrite bool_decide_eq_false_2 by done. simpl.
      rewrite bool_decide_eq_false_2 by done. exact IH.
Qed.

(** X7. [set_base_path] and [get_base_path] round-trip: when the call
    returns, the resolved path passes [_check_allowed] and exists, it is the
    new [base_path], [get_base_path] gives it back (resolved once more), and
    the tables [files] and [file_content] are untouched; when the resolved
    path is denied the call raises [PermissionError], and when it is allowed
    but missing, [FileNotFoundError]. *)
Theorem set_base_path_round_trip (self : DataIndexer) (path : Path) :
  let resolved := clean E path in
  match set_base_path E self path with
  | Done self' =>
      (_check_allowed E self resolved).1 = true
      /\ path_exists E resolved = true
      /\ base_path self' = resolved
      /\ get_base_path E self' = clean E resolved
      /\ Store.files (_conn self') = Store.files (_conn self)
      /\ Store.file_content (_conn self') = Store.file_content (_conn self)
      /\ allowed_roots self' = allowed_roots self
      /\ excluded_paths self' = excluded_paths self
  | Raises msg =>
      ((_check_allowed E self resolved).1 = false
       /\ startswith "PermissionError" msg = true)
      \/ ((_check_allowed E self resolved).1 = true
          /\ path_exists E resolved = false
          /\ startswith "FileNotFoundError" msg = true)
  end.
Proof.
  cbn zeta. unfold set_base_path.
  destruct (_check_allowed E self (clean E path)) as [[|] reason] eqn:Hcheck.
  - destruct (path_exists E (clean E path)) eqn:Hex.
    + repeat split; try done.
      unfold get_base_path, Store._get_meta, with_conn, with_base_path, Store._update_meta.
      cbn [_conn Store.metadata]. by rewrite get_meta_replace_same.
    + right. by repeat split.
  - left. by split.
Qed.

End PolicyLists.

(** The indexer of the examples, then a call that passes two empty lists. *)
Lemma policy_lists_never_empty_witness :
  let E := Fixtures.notes_env true in
  exists self,
    Indexer.__init__ E (Some Fixtures.docs) None (Some [["/"; "home"; "u"]]) None
                     (PFinite 8) = Done self
    /\ Indexer.allowed_roots self <> [] /\ Indexer.excluded_paths self <> []
    /\ Indexer.allowed_roots (Indexer.update_policy E self (Some []) (Some []) None).1 <> []
    /\ Indexer.excluded_paths (Indexer.update_policy E self (Some []) (Some []) None).1 <> [].
Proof.
  eexists. split; [reflexivity|].
  apply (policy_lists_never_empty (Fixtures.notes_env true) (Some Fixtures.docs) None
           (Some [["/"; "home"; "u"]]) None (PFinite 8) _ (Some []) (Some []) None eq_refl).
Defined.

(** ** PathPolicy: normalising twice *)

Section NormaliseTwice.
Variable E : Env.

Lemma normalise_loop_fixed (l : list Path) (seen : list string) :
  (forall p, p ∈ l -> clean E p = p) ->
  NoDup (posix_key <$> l) ->
  (forall p, p ∈ l -> posix_key p ∉ seen) ->
  PathPolicy.normalise_loop E l seen = l.
Proof.
  revert seen. induction l as [|a l IH]; intros seen Hfix Hnd Hfresh; [done|].
  simpl. unfold PathPolicy._clean.
  rewrite (Hfix a) by constructor. fold (posix_key a).
  rewrite bool_decide_eq_false_2 by (apply Hfresh; constructor).
  f_equal. rewrite fmap_cons in Hnd. apply NoDup_cons in Hnd as [Ha Hnd].
  apply IH; [| done |].
  - intros p Hp. apply Hfix. by constructor.
  - intros p Hp Hin. apply elem_of_cons in Hin as [Heq | Hin].
    + apply Ha. rewrite <- Heq. apply list_elem_of_fmap. by exists p.
    + apply (Hfresh p); [by constructor | done].
Qed.

Lemma normalise_paths_cleaned (values : option (list Path)) (p : Path) :
  (forall p, clean E (clean E p) = clean E p) ->
  p ∈ PathPolicy.normalise_paths E values -> clean E p = p.
Proof.
  intros Hidem Hp. destruct values as [vs|]; [|inversion Hp].
  destruct (normalise_loop_spec E vs []) as (_ & _ & Hsub & _).
  unfold PathPolicy.normalise_paths in Hp.
  apply (fun H => elem_of_sublist _ _ _ H Hsub) in Hp.
  apply list_elem_of_fmap in Hp as (v & -> & _). apply Hidem.
Qed.

Lemma normalise_paths_fixed (values : option (list Path)) :
  (forall p, clean E (clean E p) = clean E p) ->
  PathPolicy.normalise_paths E (Some (PathPolicy.normalise_paths E values))
  = PathPolicy.normalise_paths E values.
Proof.
  intros Hidem. unfold PathPolicy.normalise_paths at 1.
  apply normalise_loop_fixed.
  - intros p Hp. by apply (normalise_paths_cleaned values).
  - destruct values as [vs|]; [|constructor].
    by destruct (normalise_loop_spec E vs []) as (Hnd & _).
  - intros p _. apply not_elem_of_nil.
Qed.

(** X8. Normalising is idempotent when resolving is: with a [resolve] that
    maps a resolved path to itself, [normalise_paths] applied to its own
    result gives that result back, and every path of the result is its own
    resolution. *)
Theorem normalise_paths_idempotent (values : option (list Path)) :
  (forall p, clean E (clean E p) = clean E p) ->
  PathPolicy.normalise_paths E (Some (PathPolicy.normalise_paths E values))
  = PathPolicy.normalise_paths E values
  /\ (forall p, p ∈ PathPolicy.normalise_paths E values -> clean E p = p).
Proof.
  intros Hidem. split; [by apply normalise_paths_fixed|].
  intros p. by apply normalise_paths_cleaned.
Qed.

End NormaliseTwice.

(** Two spellings of the home directory and the directory of the documents. *)
Lemma normalise_paths_idempotent_witness :
  let E := Fixtures.notes_env true in
  let values := Some [["/"; "home"; "u"]; ["/"; "Home"; "U"]; Fixtures.docs] in
  PathPolicy.normalise_paths E (Some (PathPolicy.normalise_paths E values))
  = PathPolicy.normalise_paths E values
  /\ (forall p, p ∈ PathPolicy.normalise_paths E values -> clean E p = p).
Proof.
  apply (normalise_paths_idempotent (Fixtures.notes_env true)).
  reflexivity.
Defined.

(** ** The application's policy settings *)

Section AppCoreFacts.
Import AppCore.
Variable E : Env.

Lemma Qlt_bool_true (a b : Q) : Qlt_bool a b = true -> (a < b)%Q.
Proof.
  unfold Qlt_bool. intros H. apply negb_true_iff in H.
  apply Qnot_le_lt. intros Hle. apply Qle_bool_iff in Hle. congruence.
Qed.

Lemma Qlt_bool_false (a b : Q) : Qlt_bool a b = false -> (b <= a)%Q.
Proof.
  unfold Qlt_bool. intros H. apply negb_false_iff in H. by apply Qle_bool_iff.
Qed.

(** [max(1.0, min(size, 2048.0))] is a finite float between 1 and 2048. *)
Lemma app_size_clamp (x : pyfloat) :
  exists m, Indexer.clamp_mb (min_2048 x) = PFinite m /\ (1 <= m)%Q /\ (m <= 2048)%Q.
Proof.
  destruct x as [q| | |]; simpl;
    [| exists 2048%Q | exists 1%Q | exists 1%Q ];
    try (split; [reflexivity | split; vm_compute; discriminate]).
  destruct (Qlt_bool 2048 q) eqn:Hhi; simpl.
  - exists 2048%Q. split; [reflexivity | split; vm_compute; discriminate].
  - apply Qlt_bool_false in Hhi. destruct (Qlt_bool 1 q) eqn:Hlo.
    + exists q. apply Qlt_bool_true in Hlo. repeat split; [by apply Qlt_le_weak | done].
    + exists 1%Q. split; [reflexivity | split; vm_compute; discriminate].
Qed.

Lemma dict_get_set_same {K V} `{EqDecision K} (k : K) (v : V) (d : list (K * V)) :
  Search.dict_get k (Search.dict_set k v d) = Some v.
Proof.
  unfold Search.dict_get. induction d as [|[k' v'] d IH]; simpl.
  - by rewrite bool_decide_eq_true_2.
  - destruct (decide (k' = k)) as [->|Hne].
    + rewrite bool_decide_eq_true_2 by done. simpl. by rewrite bool_decide_eq_true_2.
    + rewrite bool_decide_eq_false_2 by done. simpl.
      by rewrite bool_decide_eq_false_2.
Qed.

Lemma sync_indexer_fields (app : NousApp) :
  let r := _sync_indexer_policy E app in
  allowed_roots r.1 = allowed_roots app
  /\ excluded_custom r.1 = excluded_custom app
  /\ default_excluded r.1 = default_excluded app
  /\ excluded_paths r.1 = excluded_paths app
  /\ max_index_file_size_mb r.1 = max_index_file_size_mb app
  /\ config r.1 = config app
  /\ index_root r.1 = index_root app
  /\ data_indexer r.1
     = (fun ix => (Indexer.update_policy E ix (Some (allowed_roots app))
                     (Some (excluded_paths app))
                     (Some (max_index_file_size_mb app))).1) <$> data_indexer app.
Proof.
  cbn zeta. unfold _sync_indexer_policy.
  destruct (data_indexer app) as [ix|] eqn:Hix; [|simpl; by rewrite Hix].
  cbn [fmap option_fmap option_map].
  destruct (Indexer.update_policy E ix _ _ _) as [ix' raised]. simpl.
  by repeat split.
Qed.

Lemma sync_indexer_raised (app : NousApp) (m : Q) :
  max_index_file_size_mb app = PFinite m -> (1 <= m)%Q -> (m <= 2048)%Q ->
  (_sync_indexer_policy E app).2 = None
  /\ match data_indexer app with
     | None => data_indexer (_sync_indexer_policy E app).1 = None
     | Some _ =>
         exists ix m',
           data_indexer (_sync_indexer_policy E app).1 = Some ix
           /\ Indexer.max_file_size_mb ix = PFinite m' /\ (m' == m)%Q
           /\ Indexer.max_file_size_bytes ix
              = Qfloor (m' * inject_Z 1024 * inject_Z 1024)
           /\ 1024 * 1024 <= Indexer.max_file_size_bytes ix <= 2048 * 1024 * 1024
     end.
Proof.
  intros Hm H1 H2048. unfold _sync_indexer_policy.
  destruct (data_indexer app) as [ix|] eqn:Hix; [|simpl; by rewrite Hix].
  unfold Indexer.update_policy. rewrite Hm.
  destruct (clamp_mb_finite m) as (m' & Hm' & H1' & Hle & Hcase).
  assert (m' <= 2048)%Q as Hhi.
  { destruct Hcase as [-> | ->]; [vm_compute; discriminate | done]. }
  assert (m' == m)%Q as Heq.
  { destruct Hcase as [-> | ->]; [|reflexivity]. by apply Qle_antisym. }
  assert (m' * inject_Z 1024 * inject_Z 1024 <= inject_Z (2048 * 1024 * 1024))%Q as Hb.
  { apply Qle_trans with (2048 * inject_Z 1024 * inject_Z 1024)%Q.
    - repeat apply Qmult_le_compat_r; [exact Hhi | vm_compute; discriminate ..].
    - vm_compute. discriminate. }
  assert (m' * inject_Z 1024 * inject_Z 1024 < inject_Z (2 ^ 1024))%Q as Hlt.
  { eapply Qle_lt_trans; [exact Hb|]. vm_compute. reflexivity. }
  destruct (mb_to_bytes_finite m' H1' Hlt) as [Hbytes Hmin].
  rewrite Hm', Hbytes. simpl. split; [done|].
  exists (Indexer.with_policy ix
            (Indexer.list_or (PathPolicy.normalise_paths E (Some (allowed_roots app)))
                             (PathPolicy.default_allowed_roots E))
            (PathPolicy.default_excluded_paths E
             ++ filter (fun path => path ∉ PathPolicy.default_excluded_paths E)
                       (PathPolicy.normalise_paths E (Some (excluded_paths app))))
            (PFinite m') (Qfloor (m' * inject_Z 1024 * inject_Z 1024))), m'.
  repeat split; try done.
  cbn [Indexer.max_file_size_bytes Indexer.with_policy].
  rewrite <- (Qfloor_Z (2048 * 1024 * 1024)). by apply Qfloor_resp_le.
Qed.

(** X9. The application's setter keeps the size ceiling between 1 and 2048
    MB for every float: a NaN, an infinity, a negative or a huge value
    included, [set_max_index_file_size] raises nothing, stores and saves a
    finite value in that range, and leaves the indexer, if there is one,
    with the same value and a byte ceiling from 1 MB to 2048 MB. *)
Theorem set_max_index_file_size_bounds (app : NousApp) (x : pyfloat) :
  let r := set_max_index_file_size E app (Some x) in
  r.2 = None
  /\ exists m : Q,
       max_index_file_size_mb r.1 = PFinite m /\ (1 <= m)%Q /\ (m <= 2048)%Q
       /\ Search.dict_get "max_index_file_size_mb" (config r.1) = Some (CfgFloat (PFinite m))
       /\ match data_indexer app with
          | None => data_indexer r.1 = None
          | Some _ =>
              exists ix m',
                data_indexer r.1 = Some ix
                /\ Indexer.max_file_size_mb ix = PFinite m' /\ (m' == m)%Q
                /\ Indexer.max_file_size_bytes ix
                   = Qfloor (m' * inject_Z 1024 * inject_Z 1024)
                /\ 1024 * 1024 <= Indexer.max_file_size_bytes ix <= 2048 * 1024 * 1024
          end.
Proof.
  cbn zeta. unfold set_max_index_file_size.
  destruct (app_size_clamp x) as (m & Hm & H1 & H2048). rewrite Hm.
  set (app1 := config_set (with_max_size app (PFinite m)) _ _).
  destruct (sync_indexer_raised app1 m eq_refl H1 H2048) as [Hnone Hix].
  destruct (sync_indexer_fields app1) as (_ & _ & _ & _ & Hmb & Hcfg & _ & _).
  split; [exact Hnone|]. exists m. rewrite Hmb, Hcfg.
  split; [done|]. split; [done|]. split; [done|].
  split; [apply dict_get_set_same | exact Hix].
Qed.

Lemma snapshot_if_secure_fields (app : NousApp) :
  allowed_roots (snapshot_if_secure app) = allowed_roots app
  /\ data_indexer (snapshot_if_secure app) = data_indexer app
  /\ excluded_paths (snapshot_if_secure app) = excluded_paths app
  /\ default_excluded (snapshot_if_secure app) = default_excluded app.
Proof. unfold snapshot_if_secure. by case_bool_decide. Qed.

Lemma persist_allowed_roots_spec (app : NousApp) :
  (forall p, clean E (clean E p) = clean E p) ->
  allowed_roots app <> [] ->
  let r := _persist_allowed_roots E app in
  allowed_roots r.1 = PathPolicy.normalise_paths E (Some (allowed_roots app))
  /\ allowed_roots r.1 <> []
  /\ roots_in_sync r.1.
Proof.
  intros Hidem Hne. cbn zeta. unfold _persist_allowed_roots.
  set (roots := PathPolicy.normalise_paths E (Some (allowed_roots app))).
  set (app1 := config_set _ _ _).
  assert (roots <> []) as Hroots.
  { unfold roots. destruct (allowed_roots app) as [|v rest]; [done|].
    apply normalise_paths_nonempty. }
  destruct (sync_indexer_fields app1) as (Ha & _ & _ & _ & _ & _ & _ & Hix).
  cbn zeta in Ha, Hix. split; [exact Ha|]. split; [by rewrite Ha|].
  unfold roots_in_sync. rewrite Hix, Ha.
  change (data_indexer app1) with (data_indexer app).
  destruct (data_indexer app) as [ix|]; [|done]. cbn [fmap option_fmap option_map].
  destruct (update_policy_lists E ix (Some (allowed_roots app1))
              (Some (excluded_paths app1)) (Some (max_index_file_size_mb app1)))
    as [-> _].
  change (allowed_roots app1) with roots. unfold roots at 1.
  rewrite normalise_paths_fixed by done. fold roots.
  by destruct roots.
Qed.

(** X10. Adding and removing an allowed root keep the application and its
    indexer in step, with a [resolve] that is idempotent: after
    [add_allowed_root] of a path that was not listed, the allowed roots are
    the normalised old roots with the resolved path appended, some root
    agrees with the resolved path up to case, and the indexer holds the
    same list; after [remove_allowed_root] of a path other than the index
    root, the list is not empty (the defaults replace an emptied list) and
    the indexer holds the same list. *)
Theorem allowed_roots_stay_in_sync (app : NousApp) (path : Path) :
  (forall p, clean E (clean E p) = clean E p) ->
  let added := (add_allowed_root E app path).1 in
  let removed := (remove_allowed_root E app path).1 in
  (clean E path ∉ allowed_roots app ->
   allowed_roots added
   = PathPolicy.normalise_paths E (Some (allowed_roots app ++ [clean E path]))
   /\ allowed_roots added <> []
   /\ roots_in_sync added
   /\ exists q, q ∈ allowed_roots added /\ posix_key q = posix_key (clean E path))
  /\ (clean E path <> index_root app ->
      allowed_roots removed <> [] /\ roots_in_sync removed).
Proof.
  intros Hidem. cbn zeta. split.
  - intros Hnew. unfold add_allowed_root.
    rewrite bool_decide_eq_false_2 by done.
    set (app0 := with_allowed app (allowed_roots app ++ [clean E path])).
    assert (allowed_roots app0 <> []) as Hne.
    { unfold app0. cbn [allowed_roots with_allowed]. by destruct (allowed_roots app). }
    destruct (persist_allowed_roots_spec app0 Hidem Hne) as (Ha & Hnonempty & Hsync).
    cbn zeta in Ha, Hnonempty, Hsync.
    assert (exists q, q ∈ allowed_roots (_persist_allowed_roots E app0).1
                      /\ posix_key q = posix_key (clean E path)) as Hq.
    { rewrite Ha.
      destruct (normalise_loop_spec E (allowed_roots app0) []) as (_ & _ & _ & Hcov).
      destruct (Hcov (clean E path)) as [Hin | (q & Hq & Hk)].
      - unfold app0. cbn [allowed_roots with_allowed]. apply elem_of_app. right. constructor.
      - inversion Hin.
      - exists q. split; [exact Hq|]. by rewrite Hk, Hidem. }
    destruct (_persist_allowed_roots E app0) as [app' raised]. simpl in *.
    destruct raised as [exc|]; simpl; [done|].
    destruct (snapshot_if_secure_fields app') as (Hs1 & Hs2 & _).
    unfold roots_in_sync. by rewrite Hs1, Hs2.
  - intros Hother. unfold remove_allowed_root.
    rewrite bool_decide_eq_false_2 by done.
    set (roots := Indexer.list_or _ _).
    set (app0 := with_allowed app roots).
    assert (allowed_roots app0 <> []) as Hne.
    { unfold app0, roots. cbn [allowed_roots with_allowed].
      apply list_or_nonempty, default_allowed_roots_nonempty. }
    destruct (persist_allowed_roots_spec app0 Hidem Hne) as (_ & Hnonempty & Hsync).
    cbn zeta in Hnonempty, Hsync.
    destruct (_persist_allowed_roots E app0) as [app' raised]. simpl in *.
    destruct raised as [exc|]; simpl; [done|].
    destruct (snapshot_if_secure_fields app') as (Hs1 & Hs2 & _).
    unfold roots_in_sync. by rewrite Hs1, Hs2.
Qed.

Lemma persist_excluded_paths_spec (app : NousApp) :
  let r := _persist_excluded_paths E app in
  excluded_paths r.1
  = default_excluded app
    ++ filter (fun path => path ∉ default_excluded app)
              (PathPolicy.normalise_paths E (Some (excluded_custom app)))
  /\ default_excluded r.1 = default_excluded app
  /\ defaults_excluded E r.1.
Proof.
  cbn zeta. unfold _persist_excluded_paths.
  set (app1 := config_set _ _ _).
  destruct (sync_indexer_fields app1) as (_ & _ & Hd & He & _ & _ & _ & Hix).
  cbn zeta in Hd, He, Hix. split; [by rewrite He|]. split; [by rewrite Hd|].
  unfold defaults_excluded. rewrite Hd, He, Hix. split.
  - intros p Hp. unfold app1. cbn. apply elem_of_app. by left.
  - destruct (data_indexer app1) as [ix|]; [|done]. cbn [fmap option_fmap option_map].
    intros p Hp. by apply update_policy_keeps_defaults.
Qed.

(** X11. The default exclusions cannot be dropped through the application:
    after [remove_excluded_path], whatever path it is given, and after an
    [add_excluded_path] that changes the list, the defaults of the
    application are among its effective exclusions and the defaults of the
    platform among those of the indexer; an [add_excluded_path] of a path
    that is already listed changes nothing. *)
Theorem excluded_defaults_survive (app : NousApp) (path : Path) :
  let added := (add_excluded_path E app path).1 in
  let removed := (remove_excluded_path E app path).1 in
  defaults_excluded E removed
  /\ default_excluded removed = default_excluded app
  /\ (clean E path ∈ excluded_custom app \/ clean E path ∈ default_excluded app ->
      added = app)
  /\ (clean E path ∉ excluded_custom app -> clean E path ∉ default_excluded app ->
      defaults_excluded E added /\ default_excluded added = default_excluded app).
Proof.
  cbn zeta. split; [|split; [|split]].
  - unfold remove_excluded_path. apply persist_excluded_paths_spec.
  - unfold remove_excluded_path.
    by destruct (persist_excluded_paths_spec
                   (with_excluded app
                      (filter (fun p => p ≠ clean E path) (excluded_custom app))
                      (excluded_paths app))) as (_ & -> & _).
  - intros Hin. unfold add_excluded_path.
    destruct Hin as [Hin | Hin].
    + by rewrite (bool_decide_eq_false_2 (clean E path ∉ excluded_custom app)) by tauto.
    + rewrite (bool_decide_eq_false_2 (clean E path ∉ default_excluded app)) by tauto.
      by rewrite andb_false_r.
  - intros Hc Hd. unfold add_excluded_path.
    rewrite !bool_decide_eq_true_2 by done. simpl.
    destruct (persist_excluded_paths_spec
                (with_excluded app (excluded_custom app ++ [clean E path])
                               (excluded_paths app))) as (_ & Hdef & Hok).
    by split.
Qed.

End AppCoreFacts.

(** An application on the machine of the examples, with its indexer. *)
Lemma allowed_roots_stay_in_sync_witness :
  let E := Fixtures.notes_env true in
  let app := Fixtures.notes_app in
  let added := (AppCore.add_allowed_root E app ["/"; "srv"; "data"]).1 in
  let removed := (AppCore.remove_allowed_root E app ["/"; "home"; "u"]).1 in
  (clean E ["/"; "srv"; "data"] ∉ AppCore.allowed_roots app ->
   AppCore.allowed_roots added
   = PathPolicy.normalise_paths E
       (Some (AppCore.allowed_roots app ++ [clean E ["/"; "srv"; "data"]]))
   /\ AppCore.allowed_roots added <> []
   /\ roots_in_sync added
   /\ exists q, q ∈ AppCore.allowed_roots added
                /\ posix_key q = posix_key (clean E ["/"; "srv"; "data"]))
  /\ (clean E ["/"; "home"; "u"] <> AppCore.index_root app ->
      AppCore.allowed_roots removed <> [] /\ roots_in_sync removed).
Proof.
  intros E app.
  pose proof (allowed_roots_stay_in_sync E app ["/"; "srv"; "data"] (fun p => eq_refl))
    as [Hadd _].
  pose proof (allowed_roots_stay_in_sync E app ["/"; "home"; "u"] (fun p => eq_refl))
    as [_ Hrem].
  split; [exact Hadd | exact Hrem].
Defined.

(** ** The rebuild: what a run reports and what it extracts *)

Section RebuildTrace.
Import Store Indexer.
Variable E : Env.
Variable on_progress : bool.
Variable cancel_at : option nat.
Variable existing : gmap Path (Q * Z).
Variable total : nat.

Lemma process_candidate_trace (idx : nat) (path : Path) (l : loop_state) :
  let l' := process_candidate E on_progress existing total idx path l in
  l_extracted l' = l_extracted l ++ (if changed E existing path then [path] else [])
  /\ l_upserted l' = l_upserted l ++ (if changed E existing path then [path] else [])
  /\ l_updated l' = (l_updated l + (if changed E existing path then 1 else 0))%nat
  /\ _last_errors (l_self l')
     = _last_errors (l_self l) ++ option_list (stat_error E path)
  /\ clock_reads (l_self l')
     = (clock_reads (l_self l) + (if changed E existing path then 1 else 0))%nat.
Proof.
  cbn zeta. unfold process_candidate, changed, stat_error.
  destruct (fs_stat E path) as [stat|exc].
  - destruct (unchanged existing path stat); cbn [negb].
    + cbn. rewrite !app_nil_r. repeat split; lia.
    + destruct (_read_text_snippet E (l_self l) path (snd stat)) as [snippet note].
      cbn [l_extracted l_upserted l_updated l_self option_list].
      rewrite app_nil_r.
      assert (forall s, _last_errors (record_note s path note) = _last_errors s
                        /\ clock_reads (record_note s path note) = clock_reads s) as Hnote.
      { intros s. unfold record_note. destruct note as [n|]; [|done].
        by case_bool_decide. }
      destruct (Hnote (upsert E (l_self l) path stat
                         (default (path_name path +:+ " (no readable text found)") snippet)))
        as [-> ->].
      unfold upsert. cbn. repeat split; lia.
  - cbn. rewrite !app_nil_r. repeat split; lia.
Qed.

Lemma rebuild_loop_trace (cands : list Path) (idx : nat) (l : loop_state) :
  let l' := rebuild_loop E on_progress cancel_at existing total idx cands l in
  let reached := processed_prefix cancel_at (l_polls l) cands in
  l_extracted l' = l_extracted l ++ List.filter (changed E existing) reached
  /\ l_upserted l' = l_upserted l ++ List.filter (changed E existing) reached
  /\ l_updated l'
     = (l_updated l + length (List.filter (changed E existing) reached))%nat
  /\ _last_errors (l_self l') = _last_errors (l_self l) ++ omap (stat_error E) reached
  /\ clock_reads (l_self l')
     = (clock_reads (l_self l) + length (List.filter (changed E existing) reached))%nat
  /\ l_cancelled l'
     = l_cancelled l || bool_decide (length reached < length cands)%nat.
Proof.
  revert idx l. induction cands as [|path rest IH]; intros idx l; cbn zeta.
  - rewrite processed_prefix_nil. cbn. rewrite !app_nil_r, orb_false_r.
    repeat split; lia.
  - cbn [rebuild_loop]. destruct (poll cancel_at (l_polls l)) eqn:Hpoll.
    + rewrite processed_prefix_cancel by done. cbn.
      rewrite !app_nil_r, orb_true_r. repeat split; lia.
    + rewrite processed_prefix_cons by done.
      destruct (process_candidate_frame E on_progress existing total idx path l)
        as (_ & _ & _ & Hpolls & Hcanc & _).
      destruct (process_candidate_trace idx path l) as (He & Hu & Hn & Herr & Hclock).
      destruct (IH (S idx) (process_candidate E on_progress existing total idx path l))
        as (He' & Hu' & Hn' & Herr' & Hclock' & Hc').
      cbn zeta in *. rewrite Hpolls in *.
      set (reached := processed_prefix cancel_at (S (l_polls l)) rest) in *.
      assert (List.filter (changed E existing) (path :: reached)
              = (if changed E existing path then [path] else [])
                ++ List.filter (changed E existing) reached) as Hf.
      { simpl. by destruct (changed E existing path). }
      assert (omap (stat_error E) (path :: reached)
              = option_list (stat_error E path) ++ omap (stat_error E) reached) as Ho.
      { simpl. by destruct (stat_error E path). }
      rewrite He', Hu', Hn', Herr', Hclock', Hc', He, Hu, Hn, Herr, Hclock, Hcanc, Hf, Ho.
      rewrite <- !app_assoc, length_app.
      repeat split; try (destruct (changed E existing path); simpl; lia).
      f_equal. apply bool_decide_ext. simpl. lia.
Qed.

End RebuildTrace.

Section RebuildReport.
Import Store Indexer.
Variable E : Env.

Lemma rebuild_index_unfold (self : DataIndexer) (on_progress : bool)
    (cancel_at : option nat) :
  path_exists E (get_base_path E self) = true ->
  let w := _collect_candidates E (with_diagnostics self [] [])
                               (get_base_path E self) cancel_at in
  let self1 := with_diagnostics (with_diagnostics self [] []) (w_skipped w) [] in
  rebuild_index E self on_progress cancel_at
  = finish_run E (w_candidates w) (snapshot (_conn self))
      (rebuild_loop E on_progress cancel_at (snapshot (_conn self))
         (length (w_candidates w)) 1 (w_candidates w)
         (start_loop self1 (w_polls w))).
Proof. intros Hex. unfold rebuild_index. by rewrite Hex. Qed.

Lemma processed_prefix_length (cancel_at : option nat) (polls : nat) (cands : list Path) :
  (length (processed_prefix cancel_at polls cands) <= length cands)%nat.
Proof.
  unfold processed_prefix. destruct cancel_at as [k|]; [|done].
  rewrite length_take. lia.
Qed.

Lemma finish_run_report (candidates : list Path) (existing : gmap Path (Q * Z))
    (l : loop_state) :
  let r := finish_run E candidates existing l in
  _last_errors (run_self r) = _last_errors (l_self l)
  /\ _last_skipped (run_self r) = _last_skipped (l_self l)
  /\ r_documents (run_report r) = length (files (_conn (run_self r)))
  /\ _get_meta (_conn (run_self r)) "document_count"
     = Some (MetaText (pretty (r_documents (run_report r))))
  /\ _get_meta (_conn (run_self r)) "last_indexed"
     = Some (MetaText (utcnow_iso E (clock_reads (l_self l))))
  /\ _get_meta (_conn (run_self r)) "base_path" = _get_meta (_conn (l_self l)) "base_path".
Proof.
  cbn zeta. unfold finish_run.
  set (stale := elements (dom existing ∖ l_seen_paths l)).
  destruct (delete_stale_frame stale (l_self l)) as (_ & Hsk & Herr & Hclock & Hmeta).
  cbn [run_self run_report r_documents _last_errors _last_skipped _conn with_conn tick
       files _update_meta].
  rewrite Herr, Hsk, Hclock. unfold _count_files, _get_meta.
  cbn [metadata _update_meta]. rewrite Hmeta.
  repeat split.
  - by rewrite get_meta_replace_same.
  - rewrite get_meta_replace_other by done. by rewrite get_meta_replace_same.
  - by rewrite !get_meta_replace_other.
Qed.

(** X12. The report of a run adds up.  For a run on a base directory that
    exists, cancelled or not: [total_scanned] is the number of candidates;
    [processed] is a number [n] of at most that many; the run says
    [cancelled] exactly when [n] is smaller; [updated] is at most [n];
    [documents], [skipped] and [errors] are what [stats] gives right after
    the run, [documents] is the number of rows of [files] and the text
    saved under [document_count], and [last_indexed] is written. *)
Theorem rebuild_report_adds_up (self : DataIndexer) (on_progress : bool)
    (cancel_at : option nat) :
  path_exists E (get_base_path E self) = true ->
  let r := rebuild_index E self on_progress cancel_at in
  let rep := run_report r in
  let after := stats E (run_self r) in
  r_total_scanned rep = length (run_candidates r)
  /\ (exists n u,
        r_processed rep = Some n /\ r_updated rep = Some u
        /\ (u <= n)%nat /\ (n <= r_total_scanned rep)%nat
        /\ r_cancelled rep = bool_decide (n < r_total_scanned rep)%nat
        /\ u = length (run_extracted r))
  /\ r_documents rep = length (files (_conn (run_self r)))
  /\ s_documents after = r_documents rep
  /\ s_skipped after = r_skipped rep
  /\ s_errors after = r_errors rep
  /\ (exists stamp, s_last_indexed after = stamp
                    /\ _get_meta (_conn (run_self r)) "last_indexed"
                       = Some (MetaText stamp))
  /\ _get_meta (_conn (run_self r)) "document_count"
     = Some (MetaText (pretty (r_documents rep))).
Proof.
  intros Hex. cbn zeta. rewrite (rebuild_index_unfold self on_progress cancel_at Hex).
  set (w := _collect_candidates E _ _ _).
  set (self1 := with_diagnostics _ (w_skipped w) []).
  set (ex := snapshot (_conn self)).
  set (l := rebuild_loop E on_progress cancel_at ex _ 1 _ _).
  destruct (finish_run_report (w_candidates w) ex l)
    as (Herr & Hsk & Hdocs & Hcount & Hlast & _).
  cbn zeta in *.
  destruct (rebuild_loop_trace E on_progress cancel_at ex (length (w_candidates w))
              (w_candidates w) 1 (start_loop self1 (w_polls w)))
    as (Hext & _ & Hupd & _ & _ & Hcanc).
  destruct (rebuild_loop_frame E on_progress cancel_at ex (length (w_candidates w))
              (w_candidates w) 1 (start_loop self1 (w_polls w)))
    as (_ & _ & Hproc & _).
  cbn zeta in *. fold l in Hext, Hupd, Hcanc, Hproc.
  cbn [start_loop l_extracted l_updated l_cancelled l_polls l_processed] in *.
  set (reached := processed_prefix cancel_at (w_polls w) (w_candidates w)) in *.
  pose proof (processed_prefix_length cancel_at (w_polls w) (w_candidates w)) as Hlen.
  fold reached in Hlen.
  split; [reflexivity|]. split.
  { exists (l_processed l), (l_updated l).
    cbn [finish_run run_report r_processed r_updated r_total_scanned r_cancelled
         run_extracted].
    rewrite Hproc, Hupd, Hcanc, Hext. cbn.
    repeat split; try done.
    pose proof (List.filter_length (changed E ex) reached). lia. }
  split; [exact Hdocs|].
  unfold stats. cbn [s_documents s_skipped s_errors s_last_indexed].
  split; [by rewrite Hdocs|]. split; [reflexivity|]. split; [reflexivity|].
  split; [|exact Hcount].
  eexists. split; [reflexivity|]. rewrite Hlast. reflexivity.
Qed.

(** X13. What a run extracts and which errors it records.  With [n] the
    number of candidates the run has processed: the files handed to
    extraction and to the upsert are, in order, the candidates among the
    first [n] whose [stat] succeeds and differs from the snapshot taken when
    the run started, so a file whose [stat] is what the snapshot holds is
    never read again; the errors of the run are, in order, one
    ["Stat failed: ..."] entry for each of the first [n] candidates whose
    [stat] raises, and nothing else. *)
Theorem rebuild_extracts_changed (self : DataIndexer) (on_progress : bool)
    (cancel_at : option nat) (n : nat) :
  path_exists E (get_base_path E self) = true ->
  let r := rebuild_index E self on_progress cancel_at in
  r_processed (run_report r) = Some n ->
  let reached := take n (run_candidates r) in
  run_extracted r = List.filter (changed E (snapshot (_conn self))) reached
  /\ run_upserted r = run_extracted r
  /\ last_run_details (run_self r)
     = (_last_skipped (run_self r), omap (stat_error E) reached)
  /\ r_errors (run_report r) = length (omap (stat_error E) reached).
Proof.
  intros Hex. cbn zeta. rewrite (rebuild_index_unfold self on_progress cancel_at Hex).
  set (w := _collect_candidates E _ _ _).
  set (self1 := with_diagnostics _ (w_skipped w) []).
  set (ex := snapshot (_conn self)).
  set (l := rebuild_loop E on_progress cancel_at ex _ 1 _ _).
  intros Hn.
  destruct (finish_run_report (w_candidates w) ex l) as (Herr & _).
  cbn zeta in *.
  destruct (rebuild_loop_trace E on_progress cancel_at ex (length (w_candidates w))
              (w_candidates w) 1 (start_loop self1 (w_polls w)))
    as (Hext & Hups & _ & Herrs & _).
  destruct (rebuild_loop_frame E on_progress cancel_at ex (length (w_candidates w))
              (w_candidates w) 1 (start_loop self1 (w_polls w)))
    as (_ & _ & Hproc & _).
  cbn zeta in *. fold l in Hext, Hups, Herrs, Hproc.
  cbn [start_loop l_extracted l_upserted l_self l_polls l_processed] in *.
  cbn [finish_run run_report r_processed] in Hn.
  assert (n = length (processed_prefix cancel_at (w_polls w) (w_candidates w))) as ->.
  { injection Hn as <-. rewrite Hproc. cbn. lia. }
  cbn [finish_run run_candidates run_extracted run_upserted run_report r_errors].
  rewrite take_processed_prefix.
  assert (_last_errors l.(l_self)
          = omap (stat_error E) (processed_prefix cancel_at (w_polls w) (w_candidates w)))
    as Hle.
  { rewrite Herrs. unfold self1. reflexivity. }
  split; [exact Hext|]. split; [by rewrite Hups, Hext|].
  unfold last_run_details.
  split.
  - f_equal. rewrite <- Hle. exact Herr.
  - rewrite <- Hle. cbn in Herr. by rewrite <- Herr.
Qed.

End RebuildReport.

(** A second run over the two notes, cancelled when it gets to the second
    candidate. *)
Lemma rebuild_report_adds_up_witness :
  let E := Fixtures.notes_env true in
  let r := Indexer.rebuild_index E (Fixtures.notes_index true) true (Some 2%nat) in
  let rep := Indexer.run_report r in
  let after := Indexer.stats E (Indexer.run_self r) in
  Indexer.r_total_scanned rep = length (Indexer.run_candidates r)
  /\ (exists n u,
        Indexer.r_processed rep = Some n /\ Indexer.r_updated rep = Some u
        /\ (u <= n)%nat /\ (n <= Indexer.r_total_scanned rep)%nat
        /\ Indexer.r_cancelled rep = bool_decide (n < Indexer.r_total_scanned rep)%nat
        /\ u = length (Indexer.run_extracted r))
  /\ Indexer.r_documents rep = length (Store.files (Indexer._conn (Indexer.run_self r)))
  /\ Indexer.s_documents after = Indexer.r_documents rep
  /\ Indexer.s_skipped after = Indexer.r_skipped rep
  /\ Indexer.s_errors after = Indexer.r_errors rep
  /\ (exists stamp, Indexer.s_last_indexed after = stamp
                    /\ Store._get_meta (Indexer._conn (Indexer.run_self r)) "last_indexed"
                       = Some (Store.MetaText stamp))
  /\ Store._get_meta (Indexer._conn (Indexer.run_self r)) "document_count"
     = Some (Store.MetaText (pretty (Indexer.r_documents rep))).
Proof.
  apply (rebuild_report_adds_up (Fixtures.notes_env true) (Fixtures.notes_index true)
           true (Some 2%nat)).
  reflexivity.
Defined.

(** A run on a directory whose one candidate has gone when the loop gets to
    it: nothing is extracted, one error is recorded. *)
Lemma rebuild_extracts_changed_witness :
  let E := Fixtures.gone_env in
  let self := Fixtures.indexer_on E 8 in
  let r := Indexer.rebuild_index E self true None in
  let reached := take 1 (Indexer.run_candidates r) in
  Indexer.run_extracted r = List.filter (changed E (Store.snapshot (Indexer._conn self))) reached
  /\ Indexer.run_upserted r = Indexer.run_extracted r
  /\ Indexer.last_run_details (Indexer.run_self r)
     = (Indexer._last_skipped (Indexer.run_self r), omap (stat_error E) reached)
  /\ Indexer.r_errors (Indexer.run_report r) = length (omap (stat_error E) reached).
Proof.
  apply (rebuild_extracts_changed Fixtures.gone_env
           (Fixtures.indexer_on Fixtures.gone_env 8) true None 1%nat).
  - reflexivity.
  - vm_compute. reflexivity.
Defined.

(** ** IndexStore: counting, metadata, and undoing an insertion *)

Section StoreMore.
Import Store.

Lemma filter_all {A} (P : A -> Prop) `{forall x, Decision (P x)} (l : list A) :
  (forall x, x ∈ l -> P x) -> filter P l = l.
Proof.
  induction l as [|a l IH]; intros Hall; [done|].
  rewrite filter_cons_True by (apply Hall; constructor).
  f_equal. apply IH. intros x Hx. apply Hall. by constructor.
Qed.

Lemma filter_path_length (path : Path) (rows : list file_row) :
  NoDup (f_path <$> rows) ->
  (length (filter (fun r => f_path r ≠ path) rows)
   + match select_id path rows with Some _ => 1 | None => 0 end)%nat
  = length rows.
Proof.
  unfold select_id. induction rows as [|r rows IH]; intros Hnd; [done|].
  rewrite fmap_cons in Hnd. apply NoDup_cons in Hnd as [Hr Hnd].
  rewrite filter_cons. simpl. destruct (decide (f_path r = path)) as [Heq | Hne].
  - rewrite decide_False by tauto. rewrite bool_decide_eq_true_2 by done. simpl.
    assert (filter (fun r => f_path r ≠ path) rows = rows) as ->; [|lia].
    apply filter_all. intros x Hx Hxp. apply Hr. rewrite Heq, <- Hxp.
    apply list_elem_of_fmap. by exists x.
  - rewrite decide_True by done. rewrite bool_decide_eq_false_2 by done. simpl.
    specialize (IH Hnd). lia.
Qed.

Lemma filter_absent (path : Path) (rows : list file_row) :
  select_id path rows = None ->
  filter (fun r => f_path r ≠ path) rows = rows.
Proof.
  intros Hnone. apply filter_all. intros r Hr.
  by apply (select_id_none path rows Hnone).
Qed.

(** X14. [_count_files] follows the insertions and deletions: in a store
    whose paths are unique, [_upsert_file] of a path that is not indexed
    adds one to the count and of an indexed path leaves it as it is;
    [_delete_file] of an indexed path takes one off, and of any other path
    changes nothing in [files].  The id of a row written by [_upsert_file]
    is above every id that was in use when it was written. *)
Theorem count_files_accounts (d : db) (path : Path) (stat : Q * Z)
    (content now : string) :
  store_ok d ->
  let up := _upsert_file d path stat content now in
  let del := _delete_file d path in
  _count_files up = (if indexed d path then _count_files d else S (_count_files d))
  /\ (_count_files del + (if indexed d path then 1 else 0))%nat = _count_files d
  /\ (indexed d path = false -> files del = files d)
  /\ (exists i, select_id path (files up) = Some i
                /\ forall r, r ∈ files d -> f_id r < i).
Proof.
  intros Hok. cbn zeta. unfold _count_files, _upsert_file, _delete_file, indexed.
  cbn [files]. unfold insert_or_replace_file.
  pose proof (filter_path_length path (files d) (ok_paths d Hok)) as Hlen.
  split; [|split; [|split]].
  - rewrite length_app. simpl. destruct (select_id path (files d)); lia.
  - destruct (select_id path (files d)); lia.
  - intros Hnone. apply filter_absent. by destruct (select_id path (files d)).
  - exists (max_id (files d) + 1). split.
    + apply select_id_inserted.
    + intros r Hr. pose proof (max_id_ge _ _ Hr). lia.
Qed.

Lemma meta_replace_keys (key : string) (v : meta_value)
    (rows : list (string * meta_value)) :
  NoDup (fst <$> rows) -> NoDup (fst <$> meta_replace key v rows)
  /\ forall k, k ∈ fst <$> meta_replace key v rows <-> k = key \/ k ∈ fst <$> rows.
Proof.
  induction rows as [|[k w] rows IH]; intros Hnd; simpl.
  - split; [apply NoDup_singleton|]. intros k. set_solver.
  - rewrite fmap_cons in Hnd. apply NoDup_cons in Hnd as [Hk Hnd]. simpl in Hk.
    case_bool_decide as Hkey.
    + subst k. rewrite !fmap_cons. simpl. split; [by apply NoDup_cons|].
      intros k. set_solver.
    + destruct (IH Hnd) as [IHnd IHmem]. rewrite !fmap_cons. simpl. split.
      * apply NoDup_cons. split; [|done]. rewrite IHmem. intros [? | ?]; congruence.
      * intros k'. rewrite !elem_of_cons, IHmem. tauto.
Qed.

Lemma meta_replace_twice (key : string) (v v' : meta_value)
    (rows : list (string * meta_value)) :
  meta_replace key v' (meta_replace key v rows) = meta_replace key v' rows.
Proof.
  induction rows as [|[k w] rows IH]; simpl.
  - by rewrite bool_decide_eq_true_2.
  - case_bool_decide as Hkey; simpl.
    + by rewrite bool_decide_eq_true_2.
    + rewrite bool_decide_eq_false_2 by done. by rewrite IH.
Qed.

(** X15. The metadata table behaves as a map: [_get_meta] after
    [_update_meta] of the same key gives the value written, every other
    key reads as before, a second write of a key replaces the first, the
    keys stay unique, and the tables [files] and [file_content] are not
    touched.  A key never written reads as missing. *)
Theorem meta_round_trip (d : db) (key other : string) (v v' : meta_value) :
  _get_meta (_update_meta d key v) key = Some v
  /\ (other <> key -> _get_meta (_update_meta d key v) other = _get_meta d other)
  /\ _update_meta (_update_meta d key v) key v' = _update_meta d key v'
  /\ (NoDup (fst <$> metadata d) -> NoDup (fst <$> metadata (_update_meta d key v)))
  /\ files (_update_meta d key v) = files d
  /\ file_content (_update_meta d key v) = file_content d
  /\ (forall fts5, _get_meta (empty_db fts5) key = None).
Proof.
  unfold _get_meta, _update_meta. cbn [metadata files file_content].
  split; [apply get_meta_replace_same|]. split.
  { intros Hne. by rewrite get_meta_replace_other. }
  split; [by rewrite meta_replace_twice|]. split.
  { intros Hnd. by apply meta_replace_keys. }
  repeat split.
Qed.

Lemma owned_fts_no_path (d : db) (rows : list fts_row) (path : Path) :
  owned d -> file_content d = FtsTable rows -> select_id path (files d) = None ->
  forall c, c ∈ rows -> fts_path c <> path.
Proof.
  intros Hown Hfc Hnone c Hc Hp. unfold owned in Hown. rewrite Hfc in Hown.
  destruct (Hown c Hc) as (r & Hr & Hrp & _).
  apply (select_id_none path (files d) Hnone r Hr). congruence.
Qed.

(** X16. Deleting undoes an insertion: in a store the indexer has written,
    [_upsert_file] of a path that is not indexed followed by [_delete_file]
    of that path gives back the table [files], the metadata and the content
    of every path; with the fts5 table the whole database is as before.
    (With the fallback table the deletion also sweeps the content rows
    that no file owns.) *)
Theorem delete_undoes_upsert (d : db) (path : Path) (stat : Q * Z)
    (content now : string) :
  store_ok d ->
  select_id path (files d) = None ->
  let d' := _delete_file (_upsert_file d path stat content now) path in
  files d' = files d
  /\ metadata d' = metadata d
  /\ snapshot d' = snapshot d
  /\ (forall q, content_of d' q = content_of d q)
  /\ (_fts_available d = true -> d' = d).
Proof.
  intros Hok Hnone. cbn zeta.
  assert (files (_delete_file (_upsert_file d path stat content now) path) = files d)
    as Hfiles.
  { unfold _delete_file, _upsert_file, insert_or_replace_file. cbn [files].
    rewrite filter_app, !(filter_absent path (files d) Hnone).
    rewrite filter_cons. cbn [f_path]. rewrite decide_False by tauto.
    by rewrite filter_nil, app_nil_r. }
  split; [exact Hfiles|]. split; [reflexivity|]. split.
  { unfold snapshot. by rewrite Hfiles. }
  split.
  - intros q. destruct (decide (q = path)) as [-> | Hne].
    + rewrite content_of_delete_same. unfold content_of. by rewrite Hnone.
    + rewrite content_of_delete_other; [| by apply store_ok_upsert | done].
      by apply content_of_upsert_other.
  - intros Hfts. unfold _fts_available in Hfts.
    destruct d as [fs fc md]. cbn [file_content] in Hfts.
    destruct fc as [rows|rows]; [|done].
    cbn [files] in Hfiles, Hnone.
    unfold _delete_file, _upsert_file in *. cbn [files file_content metadata] in *.
    rewrite Hfiles. f_equal. f_equal.
    rewrite select_id_inserted. unfold insert_or_replace_fts.
    rewrite filter_app, filter_cons. cbn [fts_path]. rewrite decide_False by tauto.
    rewrite filter_nil, app_nil_r.
    pose proof (owned_fts_no_path _ rows path (ok_owned _ Hok) eq_refl Hnone) as Hnp.
    assert (forall c, c ∈ rows -> fts_rowid c <> max_id fs + 1) as Hid.
    { intros c Hc. pose proof (ok_owned _ Hok) as Hown. unfold owned in Hown.
      cbn [file_content files] in Hown.
      destruct (Hown c Hc) as (r & Hr & _ & Hle).
      pose proof (max_id_ge _ _ Hr). lia. }
    rewrite (filter_all _ rows) by exact Hid.
    apply filter_all. exact Hnp.
Qed.

End StoreMore.

(** The store holding [notes.md], and [notes2.md] as the new path. *)
Lemma count_files_accounts_witness :
  let d := Store._upsert_file (Store.empty_db false) (Fixtures.docs ++ ["notes.md"])
                              (1700000000%Q, 24) "quarterly revenue report" "t0" in
  let path := Fixtures.docs ++ ["notes2.md"] in
  let up := Store._upsert_file d path (1700000100%Q, 12) "grocery list" "t1" in
  let del := Store._delete_file d path in
  Store._count_files up
  = (if indexed d path then Store._count_files d else S (Store._count_files d))
  /\ (Store._count_files del + (if indexed d path then 1 else 0))%nat
     = Store._count_files d
  /\ (indexed d path = false -> Store.files del = Store.files d)
  /\ (exists i, Store.select_id path (Store.files up) = Some i
                /\ forall r, r ∈ Store.files d -> Store.f_id r < i).
Proof.
  apply (count_files_accounts
           (Store._upsert_file (Store.empty_db false) (Fixtures.docs ++ ["notes.md"])
                               (1700000000%Q, 24) "quarterly revenue report" "t0")
           (Fixtures.docs ++ ["notes2.md"]) (1700000100%Q, 12) "grocery list" "t1").
  apply store_ok_upsert, store_ok_empty.
Defined.

Lemma delete_undoes_upsert_witness :
  let d := Store._upsert_file (Store.empty_db false) (Fixtures.docs ++ ["notes.md"])
                              (1700000000%Q, 24) "quarterly revenue report" "t0" in
  let path := Fixtures.docs ++ ["notes2.md"] in
  let d' := Store._delete_file
              (Store._upsert_file d path (1700000100%Q, 12) "grocery list" "t1") path in
  Store.files d' = Store.files d
  /\ Store.metadata d' = Store.metadata d
  /\ Store.snapshot d' = Store.snapshot d
  /\ (forall q, Store.content_of d' q = Store.content_of d q)
  /\ (Store._fts_available d = true -> d' = d).
Proof.
  apply (delete_undoes_upsert
           (Store._upsert_file (Store.empty_db false) (Fixtures.docs ++ ["notes.md"])
                               (1700000000%Q, 24) "quarterly revenue report" "t0")
           (Fixtures.docs ++ ["notes2.md"]) (1700000100%Q, 12) "grocery list" "t1").
  - apply store_ok_upsert, store_ok_empty.
  - reflexivity.
Defined.

(** ** The crawl: every candidate is allowed *)

Section CrawlFacts.
Import Store Indexer.
Variable E : Env.
Variable allowed : Path -> bool * option string.
Variable extensions : list string.
Variable cancel_at : option nat.

Lemma fstree_nested_ind (P : fstree -> Prop) :
  (forall n l r subs fs, Forall P subs -> P (FsDir n l r subs fs)) ->
  forall t, P t.
Proof.
  intros H. fix IH 1. intros [n l r subs fs]. apply H.
  induction subs as [|s subs IHs]; constructor; [apply IH | exact IHs].
Qed.

Lemma below_allowed_self (dir : Path) :
  fst (allowed dir) = true -> below_allowed allowed dir dir.
Proof.
  intros Hdir. split; [done|]. intros d H1 H2.
  assert (d = dir) as ->; [|done].
  symmetry. apply prefix_length_eq; [done|]. by apply prefix_length.
Qed.

Lemma below_allowed_lift (dirpath dir : Path) (name : string) :
  fst (allowed dirpath) = true ->
  below_allowed allowed (dirpath ++ [name]) dir ->
  below_allowed allowed dirpath dir.
Proof.
  intros Htop [Hpre Hall]. split.
  - etrans; [|exact Hpre]. by apply prefix_app_r.
  - intros d Hd1 Hd2.
    destruct (prefix_weak_total _ _ _ Hd2 Hpre) as [Hle | Hge]; [|by apply Hall].
    pose proof (prefix_length _ _ Hd1) as Hl1.
    pose proof (prefix_length _ _ Hle) as Hl2.
    rewrite length_app in Hl2. simpl in Hl2.
    destruct (decide (length d = length dirpath)) as [Heq | Hne].
    + assert (dirpath = d) as <-; [|done]. apply prefix_length_eq; [done | lia].
    + assert (d = dirpath ++ [name]) as ->.
      { apply prefix_length_eq; [done|]. rewrite length_app. simpl. lia. }
      by apply Hall.
Qed.

Lemma good_candidate_lift (dirpath c : Path) (name : string) :
  fst (allowed dirpath) = true ->
  good_candidate allowed extensions (dirpath ++ [name]) c ->
  good_candidate allowed extensions dirpath c.
Proof.
  intros Htop (Hc & Hext & dir & nm & -> & Hbelow).
  split; [done|]. split; [done|]. exists dir, nm. split; [done|].
  by apply (below_allowed_lift _ _ name).
Qed.

Lemma scan_files_spec (dirpath : Path) (filenames : list string)
    (acc : list (string * string) * list Path) :
  fst (allowed dirpath) = true ->
  exists new,
    snd (scan_files allowed extensions dirpath filenames acc) = snd acc ++ new
    /\ Forall (good_candidate allowed extensions dirpath) new.
Proof.
  intros Htop. revert acc. unfold scan_files.
  induction filenames as [|f rest IH]; intros [skipped cands]; simpl.
  - exists []. by rewrite app_nil_r.
  - case_bool_decide as Hext.
    + destruct (allowed (dirpath ++ [f])) as [[|] reason] eqn:Hal.
      * destruct (IH (skipped, cands ++ [dirpath ++ [f]])) as (new & Hnew & Hgood).
        exists ((dirpath ++ [f]) :: new). simpl in *. split.
        { rewrite Hnew. by rewrite <- app_assoc. }
        constructor; [|done]. split; [by rewrite Hal|]. split; [done|].
        exists dirpath, f. split; [done|]. by apply below_allowed_self.
      * apply (IH (_, cands)).
    + apply (IH (skipped, cands)).
Qed.

Lemma walk_spec (t : fstree) :
  forall (dirpath : Path) (w : walk_state),
    exists new,
      w_candidates (walk E allowed extensions cancel_at t dirpath w)
      = w_candidates w ++ new
      /\ Forall (good_candidate allowed extensions dirpath) new.
Proof.
  induction t as [n lnk readable subs fs IHsubs] using fstree_nested_ind.
  intros dirpath w. cbn [walk].
  destruct (w_stopped w || negb readable); [exists []; by rewrite app_nil_r|].
  destruct (poll cancel_at (w_polls w)); [exists []; by rewrite app_nil_r|].
  case_bool_decide; [exists []; by rewrite app_nil_r|].
  destruct (allowed dirpath) as [[|] reason] eqn:Htop;
    [|exists []; by rewrite app_nil_r].
  assert (fst (allowed dirpath) = true) as Htop' by (by rewrite Htop).
  destruct (scan_files_spec dirpath fs
              (prune_dirs allowed dirpath subs (w_skipped w), w_candidates w) Htop')
    as (new0 & Hnew0 & Hgood0).
  destruct (scan_files allowed extensions dirpath fs _) as [skipped2 candidates].
  cbn [snd] in Hnew0.
  match goal with
  | |- context [ _ subs ?w0 ] =>
      assert (exists new, w_candidates w0 = w_candidates w ++ new
                          /\ Forall (good_candidate allowed extensions dirpath) new)
        as Hw0 by (exists new0; by split);
      generalize dependent w0
  end.
  clear Hnew0 Hgood0 new0.
  induction IHsubs as [|sub rest IHsub _ IHrest]; intros w0 Hw0; [exact Hw0|].
  destruct (fst (allowed (dirpath ++ [sub_name sub])) && negb (sub_islink sub)) eqn:Hgo.
  - apply IHrest.
    destruct Hw0 as (new1 & Hnew1 & Hgood1).
    destruct (IHsub (dirpath ++ [sub_name sub]) w0) as (new2 & Hnew2 & Hgood2).
    exists (new1 ++ new2). split.
    + rewrite Hnew2, Hnew1. by rewrite app_assoc.
    + apply Forall_app. split; [done|].
      eapply Forall_impl; [exact Hgood2|].
      intros c Hc. by apply (good_candidate_lift _ _ (sub_name sub)).
  - by apply IHrest.
Qed.

End CrawlFacts.

Section CrawlRun.
Import Store Indexer.
Variable E : Env.

Lemma collect_candidates_good (self : DataIndexer) (root : Path)
    (cancel_at : option nat) (c : Path) :
  c ∈ w_candidates (_collect_candidates E self root cancel_at) ->
  good_candidate (_check_allowed E self) (allowed_extensions self) root c.
Proof.
  unfold _collect_candidates. intros Hc.
  match type of Hc with
  | _ ∈ w_candidates (walk _ _ _ _ ?t _ ?w0) =>
      destruct (walk_spec E (_check_allowed E self) (allowed_extensions self)
                  cancel_at t root w0) as (new & Hnew & Hgood)
  end.
  rewrite Hnew in Hc. cbn [w_candidates app] in Hc.
  by apply (proj1 (Forall_forall _ _) Hgood).
Qed.

(** X17. The crawl hands out allowed files only.  Every candidate of
    [_collect_candidates], of a crawl that ran to its end or was cancelled,
    passes [_check_allowed], has a suffix among the allowed extensions, and
    is an entry of a directory at or below the root such that every
    directory from the root down to it passes [_check_allowed]: nothing
    below a denied directory and no file with another suffix becomes a
    candidate. *)
Theorem crawl_candidates_allowed (self : DataIndexer) (root : Path)
    (cancel_at : option nat) (c : Path) :
  c ∈ w_candidates (_collect_candidates E self root cancel_at) ->
  (_check_allowed E self c).1 = true
  /\ lower (path_suffix c) ∈ allowed_extensions self
  /\ exists dir name,
       c = dir ++ [name]
       /\ root `prefix_of` dir
       /\ forall d, root `prefix_of` d -> d `prefix_of` dir ->
                    (_check_allowed E self d).1 = true.
Proof.
  intros Hc.
  destruct (collect_candidates_good self root cancel_at c Hc)
    as (Hal & Hext & dir & name & -> & Hpre & Hall).
  split; [done|]. split; [done|]. by exists dir, name.
Qed.

Lemma processed_prefix_elem (cancel_at : option nat) (polls : nat)
    (cands : list Path) (p : Path) :
  p ∈ processed_prefix cancel_at polls cands -> p ∈ cands.
Proof.
  unfold processed_prefix. destruct cancel_at as [k|]; [|done].
  intros Hp. eapply elem_of_sublist; [exact Hp | apply sublist_take].
Qed.

(** X18. A rebuild adds allowed files only.  A path that has a [files] row
    after a run of [rebuild_index] and had none before was upserted by
    this run: it is a candidate of the crawl whose [stat] succeeded, it
    passes [_check_allowed], its suffix is among the allowed extensions
    and it lies below the base directory. *)
Theorem rebuild_adds_only_allowed (self : DataIndexer) (on_progress : bool)
    (cancel_at : option nat) (p : Path) :
  let r := rebuild_index E self on_progress cancel_at in
  has_file (_conn (run_self r)) p ->
  ~ has_file (_conn self) p ->
  p ∈ run_upserted r
  /\ p ∈ run_candidates r
  /\ (exists stat, fs_stat E p = Done stat
                   /\ snapshot (_conn (run_self r)) !! p = Some stat)
  /\ (_check_allowed E self p).1 = true
  /\ lower (path_suffix p) ∈ allowed_extensions self
  /\ get_base_path E self `prefix_of` p.
Proof.
  cbn zeta. intros Hafter Hbefore.
  destruct (path_exists E (get_base_path E self)) eqn:Hex; cycle 1.
  { unfold rebuild_index in Hafter. rewrite Hex in Hafter. cbn in Hafter. done. }
  rewrite (rebuild_index_unfold E self on_progress cancel_at Hex) in *.
  set (w := _collect_candidates E _ _ _) in *.
  set (self1 := with_diagnostics _ (w_skipped w) []) in *.
  set (ex := snapshot (_conn self)) in *.
  set (l := rebuild_loop E on_progress cancel_at ex _ 1 _ _) in *.
  assert (in_step E ex l) as (Hinv & _ & Hdom).
  { apply rebuild_loop_in_step. unfold in_step, start_loop. cbn.
    split; [by left|]. split; [set_solver | set_solver]. }
  destruct (rebuild_loop_frame E on_progress cancel_at ex (length (w_candidates w))
              (w_candidates w) 1 (start_loop self1 (w_polls w)))
    as (_ & Hseen & _).
  destruct (rebuild_loop_trace E on_progress cancel_at ex (length (w_candidates w))
              (w_candidates w) 1 (start_loop self1 (w_polls w)))
    as (_ & Hups & _).
  cbn zeta in Hseen, Hups. fold l in Hseen, Hups.
  cbn [start_loop l_seen_paths l_upserted l_polls app] in Hseen, Hups.
  set (reached := processed_prefix cancel_at (w_polls w) (w_candidates w)) in *.
  destruct (finish_run_store E (w_candidates w) ex l) as (_ & _ & _ & Hgone & Hkept & _).
  cbn zeta in Hgone, Hkept.
  apply has_file_snapshot in Hafter as [s Hs].
  assert (ex !! p = None) as Hnone.
  { destruct (ex !! p) eqn:Hp; [|done]. exfalso. apply Hbefore.
    apply has_file_snapshot. by eexists. }
  assert (p ∉ elements (dom ex ∖ l_seen_paths l)) as Hnotstale.
  { rewrite elem_of_elements, elem_of_difference, elem_of_dom. rewrite Hnone.
    intros [[? ?] _]. done. }
  destruct (Hkept p Hnotstale) as [Hk _]. rewrite Hk in Hs.
  assert (p ∈ reached) as Hreached.
  { assert (p ∈ dom (snapshot (_conn (l_self l)))) as Hd by (apply elem_of_dom; by eexists).
    apply Hdom in Hd. rewrite Hseen in Hd.
    apply elem_of_union in Hd as [Hd | Hd].
    - apply elem_of_dom in Hd as [? Hd]. congruence.
    - apply elem_of_union in Hd as [Hd | Hd]; [by apply elem_of_list_to_set in Hd|].
      set_solver. }
  assert (p ∈ w_candidates w) as Hcand by (by apply (processed_prefix_elem cancel_at (w_polls w))).
  destruct (Hinv p) as [Hsame | (stat & Hstat & Hsnap)]; [congruence|].
  destruct (collect_candidates_good _ _ _ _ Hcand)
    as (Hal & Hext & dir & name & Hp & Hpre & _).
  split; [|split; [exact Hcand|split; [|split; [exact Hal|split; [exact Hext|]]]]].
  - cbn [finish_run run_upserted]. rewrite Hups.
    apply list_elem_of_In, filter_In. split; [by apply list_elem_of_In|].
    unfold changed. rewrite Hstat. unfold unchanged. by rewrite Hnone.
  - exists stat. split; [done|]. rewrite Hk. exact Hsnap.
  - rewrite Hp. by apply prefix_app_r.
Qed.

End CrawlRun.

(** The crawl of the directory of the two notes. *)
Lemma crawl_candidates_allowed_witness :
  let E := Fixtures.notes_env true in
  let self := Fixtures.indexer_on E 8 in
  let c := Fixtures.docs ++ ["notes.md"] in
  (Indexer._check_allowed E self c).1 = true
  /\ lower (path_suffix c) ∈ Indexer.allowed_extensions self
  /\ exists dir name,
       c = dir ++ [name]
       /\ Fixtures.docs `prefix_of` dir
       /\ forall d, Fixtures.docs `prefix_of` d -> d `prefix_of` dir ->
                    (Indexer._check_allowed E self d).1 = true.
Proof.
  apply (crawl_candidates_allowed (Fixtures.notes_env true)
           (Fixtures.indexer_on (Fixtures.notes_env true) 8) Fixtures.docs None
           (Fixtures.docs ++ ["notes.md"])).
  apply (bool_decide_unpack _). vm_compute. exact I.
Defined.

(** The first run over the two notes adds [notes.md]. *)
Lemma rebuild_adds_only_allowed_witness :
  let E := Fixtures.notes_env true in
  let self := Fixtures.indexer_on E 8 in
  let p := Fixtures.docs ++ ["notes.md"] in
  let r := Indexer.rebuild_index E self false None in
  p ∈ Indexer.run_upserted r
  /\ p ∈ Indexer.run_candidates r
  /\ (exists stat, fs_stat E p = Done stat
                   /\ Store.snapshot (Indexer._conn (Indexer.run_self r)) !! p = Some stat)
  /\ (Indexer._check_allowed E self p).1 = true
  /\ lower (path_suffix p) ∈ Indexer.allowed_extensions self
  /\ Indexer.get_base_path E self `prefix_of` p.
Proof.
  apply (rebuild_adds_only_allowed (Fixtures.notes_env true)
           (Fixtures.indexer_on (Fixtures.notes_env true) 8) false None
           (Fixtures.docs ++ ["notes.md"])).
  - apply has_file_snapshot. vm_compute. eexists. reflexivity.
  - intros (r & Hr & _). vm_compute in Hr. inversion Hr.
Defined.

(** ** The rebuild: what the index holds for a candidate afterwards *)

Section Refresh.
Import Store Indexer.
Variable E : Env.
Variable on_progress : bool.
Variable cancel_at : option nat.
Variable existing : gmap Path (Q * Z).
Variable total : nat.
Variable self : DataIndexer.
Variable p : Path.

Lemma process_candidate_keeps (idx : nat) (path : Path) (l : loop_state) :
  path <> p \/ changed E existing p = false ->
  held p (l_self (process_candidate E on_progress existing total idx path l))
  = held p (l_self l).
Proof.
  intros Hcase. unfold held.
  destruct (process_candidate_conn E on_progress existing total idx path l)
    as [(-> & _) | (st & snippet & Hstat & Hch & _ & -> & _)]; [done|].
  assert (path <> p) as Hne.
  { destruct Hcase as [? | Hsame]; [done|]. intros ->.
    unfold changed in Hsame. rewrite Hstat, Hch in Hsame. done. }
  rewrite snapshot_upsert, lookup_insert_ne by done.
  by rewrite content_of_upsert_other.
Qed.

Lemma rebuild_loop_keeps (cands : list Path) (idx : nat) (l : loop_state) :
  changed E existing p = false ->
  held p (l_self (rebuild_loop E on_progress cancel_at existing total idx cands l))
  = held p (l_self l).
Proof.
  intros Hsame. revert idx l.
  induction cands as [|path rest IH]; intros idx l; simpl; [done|].
  destruct (poll cancel_at (l_polls l)); [done|].
  rewrite IH. apply process_candidate_keeps. by right.
Qed.

Variable stat : Q * Z.
Hypothesis Hstat : fs_stat E p = Done stat.
Hypothesis Hchanged : unchanged existing p stat = false.

Lemma process_candidate_refreshes (idx : nat) (l : loop_state) :
  policy_of (l_self l) = policy_of self ->
  held p (l_self (process_candidate E on_progress existing total idx p l))
  = (Some stat, Some (stored_snippet E self p stat)).
Proof.
  intros Hpol. unfold held, process_candidate, stored_snippet.
  rewrite Hstat, Hchanged.
  rewrite (read_text_snippet_policy E _ _ p (snd stat) Hpol).
  destruct (_read_text_snippet E self p (snd stat)) as [snippet note].
  cbn [l_self fst]. rewrite record_note_conn. unfold upsert.
  cbn [_conn tick with_conn].
  by rewrite snapshot_upsert, lookup_insert_eq, content_of_upsert_same.
Qed.

Lemma rebuild_loop_stays_refreshed (cands : list Path) (idx : nat) (l : loop_state) :
  policy_of (l_self l) = policy_of self ->
  held p (l_self l) = (Some stat, Some (stored_snippet E self p stat)) ->
  held p (l_self (rebuild_loop E on_progress cancel_at existing total idx cands l))
  = (Some stat, Some (stored_snippet E self p stat)).
Proof.
  revert idx l. induction cands as [|path rest IH]; intros idx l Hpol Hheld; simpl; [done|].
  destruct (poll cancel_at (l_polls l)); [done|].
  destruct (process_candidate_frame E on_progress existing total idx path l)
    as (Hpol' & _).
  apply IH; [congruence|].
  destruct (decide (path = p)) as [-> | Hne].
  - by apply process_candidate_refreshes.
  - rewrite process_candidate_keeps; [done | by left].
Qed.

Lemma rebuild_loop_refreshes (cands : list Path) (idx : nat) (l : loop_state) :
  policy_of (l_self l) = policy_of self ->
  p ∈ processed_prefix cancel_at (l_polls l) cands ->
  held p (l_self (rebuild_loop E on_progress cancel_at existing total idx cands l))
  = (Some stat, Some (stored_snippet E self p stat)).
Proof.
  revert idx l. induction cands as [|path rest IH]; intros idx l Hpol Hin; simpl.
  - rewrite processed_prefix_nil in Hin. inversion Hin.
  - destruct (poll cancel_at (l_polls l)) eqn:Hpoll.
    + rewrite processed_prefix_cancel in Hin by done. inversion Hin.
    + rewrite processed_prefix_cons in Hin by done.
      destruct (process_candidate_frame E on_progress existing total idx path l)
        as (Hpol' & _ & _ & Hpolls & _).
      destruct (decide (path = p)) as [-> | Hne].
      * apply rebuild_loop_stays_refreshed; [congruence|].
        by apply process_candidate_refreshes.
      * apply IH; [congruence|]. rewrite Hpolls.
        apply elem_of_cons in Hin as [? | ?]; [congruence | done].
Qed.

End Refresh.

Section RefreshRun.
Import Store Indexer.
Variable E : Env.

(** X19. What the index holds for a candidate the run got to.  After a run
    of [rebuild_index] on a store the indexer has written, for each of the
    candidates the run has processed: if its [stat] succeeds and differs
    from the snapshot taken when the run started, its row holds the new
    [stat] and its linked content is the snippet of [_read_text_snippet],
    or the file name followed by ["(no readable text found)"] when there
    is no snippet; otherwise (the [stat] is the stored one, or it fails)
    its row and its content are what they were before the run. *)
Theorem rebuild_refreshes_reached (self : DataIndexer) (on_progress : bool)
    (cancel_at : option nat) (p : Path) (n : nat) :
  store_ok (_conn self) ->
  path_exists E (get_base_path E self) = true ->
  let r := rebuild_index E self on_progress cancel_at in
  r_processed (run_report r) = Some n ->
  p ∈ take n (run_candidates r) ->
  (changed E (snapshot (_conn self)) p = false ->
   snapshot (_conn (run_self r)) !! p = snapshot (_conn self) !! p
   /\ content_of (_conn (run_self r)) p = content_of (_conn self) p)
  /\ (forall stat,
        fs_stat E p = Done stat ->
        unchanged (snapshot (_conn self)) p stat = false ->
        snapshot (_conn (run_self r)) !! p = Some stat
        /\ content_of (_conn (run_self r)) p = Some (stored_snippet E self p stat)).
Proof.
  intros Hok Hex. cbn zeta.
  rewrite (rebuild_index_unfold E self on_progress cancel_at Hex).
  set (w := _collect_candidates E _ _ _).
  set (self1 := with_diagnostics _ (w_skipped w) []).
  set (ex := snapshot (_conn self)).
  set (l := rebuild_loop E on_progress cancel_at ex _ 1 _ _).
  intros Hn Hin.
  destruct (rebuild_loop_frame E on_progress cancel_at ex (length (w_candidates w))
              (w_candidates w) 1 (start_loop self1 (w_polls w)))
    as (_ & Hseen & Hproc & _ & Hokl).
  cbn zeta in Hseen, Hproc, Hokl. fold l in Hseen, Hproc, Hokl.
  cbn [start_loop l_seen_paths l_processed l_polls l_self] in Hseen, Hproc, Hokl.
  cbn [finish_run run_report r_processed run_candidates] in Hn, Hin.
  assert (n = length (processed_prefix cancel_at (w_polls w) (w_candidates w))) as ->.
  { injection Hn as <-. rewrite Hproc. cbn. lia. }
  rewrite take_processed_prefix in Hin.
  destruct (finish_run_store E (w_candidates w) ex l) as (_ & _ & _ & _ & Hkept & _).
  cbn zeta in Hkept.
  destruct (Hkept p) as [Hks Hkc].
  { rewrite elem_of_elements, Hseen, elem_of_difference, elem_of_union,
      elem_of_list_to_set. tauto. }
  rewrite Hks, (Hkc (Hokl Hok)). split.
  - intros Hsame.
    pose proof (rebuild_loop_keeps E on_progress cancel_at ex (length (w_candidates w)) p
                  (w_candidates w) 1 (start_loop self1 (w_polls w)) Hsame) as Hheld.
    fold l in Hheld. cbn [start_loop l_self] in Hheld.
    injection Hheld as Hs Hc. by split.
  - intros stat Hstat Hch.
    pose proof (rebuild_loop_refreshes E on_progress cancel_at ex (length (w_candidates w))
                  self p stat Hstat Hch (w_candidates w) 1
                  (start_loop self1 (w_polls w)) eq_refl Hin) as Hheld.
    fold l in Hheld. injection Hheld as Hs Hc. by split.
Qed.

End RefreshRun.

(** The first run over the two notes, and [notes.md]. *)
Lemma rebuild_refreshes_reached_witness :
  let E := Fixtures.notes_env true in
  let self := Fixtures.indexer_on E 8 in
  let p := Fixtures.docs ++ ["notes.md"] in
  let r := Indexer.rebuild_index E self false None in
  (changed E (Store.snapshot (Indexer._conn self)) p = false ->
   Store.snapshot (Indexer._conn (Indexer.run_self r)) !! p
   = Store.snapshot (Indexer._conn self) !! p
   /\ Store.content_of (Indexer._conn (Indexer.run_self r)) p
      = Store.content_of (Indexer._conn self) p)
  /\ (forall stat,
        fs_stat E p = Done stat ->
        Indexer.unchanged (Store.snapshot (Indexer._conn self)) p stat = false ->
        Store.snapshot (Indexer._conn (Indexer.run_self r)) !! p = Some stat
        /\ Store.content_of (Indexer._conn (Indexer.run_self r)) p
           = Some (stored_snippet E self p stat)).
Proof.
  apply (rebuild_refreshes_reached (Fixtures.notes_env true)
           (Fixtures.indexer_on (Fixtures.notes_env true) 8) false None
           (Fixtures.docs ++ ["notes.md"]) 2%nat).
  - apply store_ok_empty.
  - reflexivity.
  - vm_compute. reflexivity.
  - apply (bool_decide_unpack _). vm_compute. exact I.
Defined.

(** ** The rebuild: the calls of the progress callback *)

Section ProgressShape.
Import Store Indexer.
Variable E : Env.

Lemma process_candidate_no_progress (existing : gmap Path (Q * Z))
    (total idx : nat) (path : Path) (l : loop_state) :
  l_progress (process_candidate E false existing total idx path l) = l_progress l.
Proof.
  unfold process_candidate.
  destruct (fs_stat E path) as [stat | exc]; [|done].
  destruct (unchanged existing path stat); [done|].
  by destruct (_read_text_snippet E (l_self l) path (snd stat)).
Qed.

Lemma rebuild_loop_progress (on_progress : bool) (cancel_at : option nat)
    (existing : gmap Path (Q * Z)) (total : nat)
    (cands : list Path) (idx : nat) (l : loop_state) :
  l_progress (rebuild_loop E on_progress cancel_at existing total idx cands l)
  = l_progress l
    ++ (if on_progress
        then progress_calls E total idx (processed_prefix cancel_at (l_polls l) cands)
        else []).
Proof.
  revert idx l. induction cands as [|path rest IH]; intros idx l.
  - rewrite processed_prefix_nil. simpl. destruct on_progress; by rewrite app_nil_r.
  - cbn [rebuild_loop]. destruct (poll cancel_at (l_polls l)) eqn:Hpoll.
    + rewrite processed_prefix_cancel by done. simpl.
      destruct on_progress; by rewrite app_nil_r.
    + rewrite processed_prefix_cons by done. rewrite IH.
      destruct (process_candidate_frame E on_progress existing total idx path l)
        as (_ & _ & _ & -> & _).
      destruct on_progress.
      * rewrite process_candidate_progress. cbn [progress_calls].
        by rewrite <- app_assoc.
      * by rewrite process_candidate_no_progress.
Qed.

Lemma progress_calls_elem (total idx : nat) (reached : list Path)
    (i t : nat) (s : string) :
  (i, t, s) ∈ progress_calls E total idx reached ->
  t = total /\ (idx <= i < idx + length reached)%nat
  /\ exists p, reached !! (i - idx)%nat = Some p
               /\ s = path_str p /\ stat_succeeds E p = true.
Proof.
  revert idx. induction reached as [|p rest IH]; intros idx Hin; [inversion Hin|].
  cbn [progress_calls] in Hin. apply elem_of_app in Hin as [Hin | Hin].
  - destruct (stat_succeeds E p) eqn:Hp; [|inversion Hin].
    apply list_elem_of_singleton in Hin. injection Hin as -> -> ->.
    split; [done|]. split; [simpl; lia|]. exists p.
    by rewrite Nat.sub_diag.
  - destruct (IH (S idx) Hin) as (-> & Hrange & q & Hq & -> & Hok).
    split; [done|]. split; [simpl; lia|]. exists q.
    replace (i - idx)%nat with (S (i - S idx)) by lia. by split.
Qed.

Lemma progress_calls_sorted (total idx : nat) (reached : list Path) :
  StronglySorted lt ((fun c => c.1.1) <$> progress_calls E total idx reached).
Proof.
  revert idx. induction reached as [|p rest IH]; intros idx; [constructor|].
  cbn [progress_calls]. destruct (stat_succeeds E p); [|apply IH].
  cbn. constructor; [apply IH|].
  apply Forall_forall. intros i Hi.
  apply list_elem_of_fmap in Hi as ([[j t] s] & -> & Hc).
  apply progress_calls_elem in Hc as (_ & Hrange & _). simpl. lia.
Qed.

(** X20. The calls of the progress callback.  A run without a callback
    makes none.  With a callback, the calls are made in the order of the
    candidates, one for each processed candidate whose [stat] succeeds:
    every call [(idx, total, path)] has [total] the number of candidates,
    [idx] from 1 to [total], and [path] the text of the candidate at
    position [idx]; the [idx] of the calls increase strictly, so no
    candidate is reported twice. *)
Theorem progress_calls_follow_candidates (self : DataIndexer) (on_progress : bool)
    (cancel_at : option nat) (n : nat) :
  path_exists E (get_base_path E self) = true ->
  let r := rebuild_index E self on_progress cancel_at in
  r_processed (run_report r) = Some n ->
  let total := length (run_candidates r) in
  run_progress r
  = (if on_progress then progress_calls E total 1 (take n (run_candidates r)) else [])
  /\ (forall i t s, (i, t, s) ∈ run_progress r ->
        on_progress = true /\ t = total /\ (1 <= i <= n)%nat /\ (n <= total)%nat
        /\ exists p, run_candidates r !! (i - 1)%nat = Some p
                     /\ s = path_str p /\ stat_succeeds E p = true)
  /\ StronglySorted lt ((fun c => c.1.1) <$> run_progress r).
Proof.
  intros Hex. cbn zeta.
  rewrite (rebuild_index_unfold E self on_progress cancel_at Hex).
  set (w := _collect_candidates E _ _ _).
  set (self1 := with_diagnostics _ (w_skipped w) []).
  set (ex := snapshot (_conn self)).
  intros Hn.
  destruct (rebuild_loop_frame E on_progress cancel_at ex (length (w_candidates w))
              (w_candidates w) 1 (start_loop self1 (w_polls w)))
    as (_ & _ & Hproc & _).
  cbn zeta in Hproc. cbn [start_loop l_processed l_polls] in Hproc.
  cbn [finish_run run_report r_processed] in Hn.
  assert (n = length (processed_prefix cancel_at (w_polls w) (w_candidates w))) as ->.
  { injection Hn as <-. rewrite Hproc. cbn. lia. }
  cbn [finish_run run_candidates run_progress].
  rewrite take_processed_prefix, rebuild_loop_progress.
  cbn [start_loop l_progress l_polls app].
  set (reached := processed_prefix cancel_at (w_polls w) (w_candidates w)).
  pose proof (processed_prefix_length cancel_at (w_polls w) (w_candidates w)) as Hlen.
  fold reached in Hlen.
  split; [done|]. split.
  - intros i t s Hin. destruct on_progress; [|inversion Hin].
    apply progress_calls_elem in Hin as (-> & Hrange & p & Hp & -> & Hok).
    split; [done|]. split; [done|]. split; [lia|]. split; [done|].
    exists p. split; [|done].
    unfold reached in Hp. rewrite <- take_processed_prefix in Hp.
    by apply lookup_take_Some in Hp as [Hp _].
  - destruct on_progress; [apply progress_calls_sorted | constructor].
Qed.

End ProgressShape.

(** A run with a callback over the two notes, cancelled when it gets to
    the second candidate. *)
Lemma progress_calls_follow_candidates_witness :
  let E := Fixtures.notes_env true in
  let r := Indexer.rebuild_index E (Fixtures.indexer_on E 8) true (Some 2%nat) in
  let total := length (Indexer.run_candidates r) in
  Indexer.run_progress r
  = progress_calls E total 1 (take 1 (Indexer.run_candidates r))
  /\ (forall i t s, (i, t, s) ∈ Indexer.run_progress r ->
        true = true /\ t = total /\ (1 <= i <= 1)%nat /\ (1 <= total)%nat
        /\ exists p, Indexer.run_candidates r !! (i - 1)%nat = Some p
                     /\ s = path_str p /\ Indexer.stat_succeeds E p = true)
  /\ StronglySorted lt ((fun c => c.1.1) <$> Indexer.run_progress r).
Proof.
  apply (progress_calls_follow_candidates (Fixtures.notes_env true)
           (Fixtures.indexer_on (Fixtures.notes_env true) 8) true (Some 2%nat) 1%nat).
  - reflexivity.
  - vm_compute. reflexivity.
Defined.

(** ** Search: the results are indexed files, in rank order *)

Section DictFacts.
Context {K V : Type} `{EqDecision K}.

Lemma dict_set_elem (k : K) (v : V) (d : list (K * V)) (kv : K * V) :
  kv ∈ Search.dict_set k v d -> kv = (k, v) \/ kv ∈ d.
Proof.
  induction d as [|[k' v'] d IH]; simpl; intros Hin.
  - apply list_elem_of_singleton in Hin. by left.
  - case_bool_decide as Hk.
    + apply elem_of_cons in Hin as [-> | Hin]; [by left|]. right. by constructor.
    + apply elem_of_cons in Hin as [-> | Hin]; [right; constructor|].
      destruct (IH Hin) as [-> | Hd]; [by left|]. right. by constructor.
Qed.

Lemma dict_set_present (k : K) (v : V) (d : list (K * V)) :
  k ∈ fst <$> d -> fst <$> Search.dict_set k v d = fst <$> d.
Proof.
  induction d as [|[k' v'] d IH]; simpl; intros Hin; [inversion Hin|].
  case_bool_decide as Hk; [by subst|].
  rewrite fmap_cons. f_equal. apply IH.
  apply elem_of_cons in Hin as [Heq | Hin]; [by subst|done].
Qed.

Lemma dict_set_absent (k : K) (v : V) (d : list (K * V)) :
  k ∉ fst <$> d -> Search.dict_set k v d = d ++ [(k, v)].
Proof.
  induction d as [|[k' v'] d IH]; simpl; intros Hin; [done|].
  rewrite bool_decide_eq_false_2.
  - f_equal. apply IH. intros Hd. apply Hin. by constructor.
  - intros ->. apply Hin. constructor.
Qed.

Lemma dict_set_keys_NoDup (k : K) (v : V) (d : list (K * V)) :
  NoDup (fst <$> d) -> NoDup (fst <$> Search.dict_set k v d).
Proof.
  intros Hnd. destruct (decide (k ∈ fst <$> d)) as [Hin | Hout].
  - by rewrite dict_set_present.
  - rewrite dict_set_absent by done. rewrite fmap_app. simpl.
    apply NoDup_app. split; [done|]. split; [|apply NoDup_singleton].
    intros x Hx Hk. apply list_elem_of_singleton in Hk. by subst.
Qed.

Lemma dict_get_elem (k : K) (d : list (K * V)) (v : V) :
  Search.dict_get k d = Some v -> (k, v) ∈ d.
Proof.
  unfold Search.dict_get. intros Hget.
  destruct (List.find _ d) as [[k' v']|] eqn:Hfind; [|done].
  apply find_elem in Hfind as [Hin Hk]. apply bool_decide_eq_true in Hk.
  simpl in *. injection Hget as <-. by subst.
Qed.

Lemma dict_get_key (k : K) (d : list (K * V)) (v : V) :
  Search.dict_get k d = Some v -> k ∈ fst <$> d.
Proof.
  intros Hget. apply dict_get_elem in Hget. apply list_elem_of_fmap. by exists (k, v).
Qed.

End DictFacts.

Section SearchResults.
Import Store Indexer Search.
Variable E : Env.

Lemma from_row_with_score (row : file_row) (e : entry) (score : Q) (snippet : string) :
  from_row E row e -> from_row E row (with_score e score snippet).
Proof. by intros (? & ? & ? & ?). Qed.

Lemma merged_of_set (rows : list file_row) (m : list (Path * entry))
    (row : file_row) (e : entry) :
  merged_of E rows m -> row ∈ rows -> from_row E row e ->
  merged_of E rows (dict_set (f_path row) e m).
Proof.
  intros [Hnd Hall] Hrow He. split; [by apply dict_set_keys_NoDup|].
  intros k e' Hin. apply dict_set_elem in Hin as [Heq | Hin]; [|by apply Hall].
  injection Heq as -> ->. by exists row.
Qed.

Lemma merged_blank_of (now : Q) (rows all : list file_row) (m : list (Path * entry)) :
  merged_of E all m -> (forall r, r ∈ rows -> r ∈ all) ->
  merged_of E all
    (fold_left (fun merged row => dict_set (f_path row) (blank_entry E now row) merged)
               rows m).
Proof.
  revert m. induction rows as [|row rows IH]; intros m Hm Hsub; [done|].
  simpl. apply IH.
  - apply merged_of_set; [done | apply Hsub; constructor | by repeat split].
  - intros r Hr. apply Hsub. by constructor.
Qed.

Lemma merged_of_update (rows : list file_row) (m : list (Path * entry))
    (path : Path) (e : entry) (score : Q) (snippet : string) :
  merged_of E rows m -> dict_get path m = Some e ->
  merged_of E rows (dict_set path (with_score e score snippet) m)
  /\ fst <$> dict_set path (with_score e score snippet) m = fst <$> m.
Proof.
  intros [Hnd Hall] Hget. split; [|by apply dict_set_present, (dict_get_key _ _ e)].
  destruct (Hall path e (dict_get_elem _ _ _ Hget)) as (row & Hrow & <- & He).
  apply merged_of_set; [by split | done | by apply from_row_with_score].
Qed.

Lemma merge_names_of (query : string) (rows : list file_row)
    (scores : list (Path * Q)) (m : list (Path * entry)) :
  merged_of E rows m ->
  merged_of E rows (merge_names query scores m)
  /\ fst <$> merge_names query scores m = fst <$> m.
Proof.
  unfold merge_names. revert m.
  induction scores as [|[path score] scores IH]; intros m Hm; [done|].
  simpl. destruct (dict_get path m) as [e|] eqn:Hget; [|by apply IH].
  destruct (merged_of_update rows m path e (e_score e + score)%Q
              (if bool_decide (e_snippet e = "")
               then "Filename match for '" +:+ query +:+ "'" else e_snippet e) Hm Hget)
    as [Hm' Hkeys].
  destruct (IH _ Hm') as [Hm'' Hkeys']. split; [done|]. by rewrite Hkeys', Hkeys.
Qed.

Lemma merge_contents_of (rows : list file_row)
    (scores : list (Path * (Q * option string))) (m : list (Path * entry)) :
  merged_of E rows m ->
  merged_of E rows (merge_contents scores m)
  /\ fst <$> merge_contents scores m = fst <$> m.
Proof.
  unfold merge_contents. revert m.
  induction scores as [|[path [score snippet]] scores IH]; intros m Hm; [done|].
  simpl. destruct (dict_get path m) as [e|] eqn:Hget; [|by apply IH].
  match goal with
  | |- context [dict_set path (with_score e ?sc ?sn) m] =>
      destruct (merged_of_update rows m path e sc sn Hm Hget) as [Hm' Hkeys]
  end.
  destruct (IH _ Hm') as [Hm'' Hkeys']. split; [done|]. by rewrite Hkeys', Hkeys.
Qed.

Lemma merged_blank_keys (now : Q) (rows : list file_row) (m : list (Path * entry)) :
  NoDup ((fst <$> m) ++ (f_path <$> rows)) ->
  fst <$> fold_left (fun merged row => dict_set (f_path row) (blank_entry E now row) merged)
                    rows m
  = (fst <$> m) ++ (f_path <$> rows).
Proof.
  revert m. induction rows as [|row rows IH]; intros m Hnd; simpl.
  - by rewrite app_nil_r.
  - rewrite fmap_cons in Hnd.
    assert (f_path row ∉ fst <$> m) as Hout.
    { apply NoDup_app in Hnd as (_ & Hdisj & _). intros Hin.
      apply (Hdisj _ Hin). constructor. }
    rewrite IH; rewrite dict_set_absent by done; rewrite fmap_app; simpl.
    + by rewrite <- app_assoc.
    + by rewrite <- app_assoc.
Qed.

Lemma insert_sorted_perm (x : entry) (l : list entry) : insert_sorted x l ≡ₚ x :: l.
Proof.
  induction l as [|y l IH]; simpl; [done|].
  destruct (key_lt y x); [|done]. rewrite IH. apply Permutation_swap.
Qed.

Lemma sorted_perm (l : list entry) : sorted l ≡ₚ l.
Proof.
  unfold sorted. induction l as [|x l IH]; simpl; [done|].
  by rewrite insert_sorted_perm, IH.
Qed.

(** The entries before the ranking. *)
Lemma search_unfold (self : DataIndexer) (now : Q) (query : string) (limit : Z) :
  strip query <> "" ->
  exists m,
    search E self now query limit
    = take (Z.to_nat (Z.max 1 limit)) (sorted (snd <$> m))
    /\ merged_of E (files (_conn self)) m
    /\ fst <$> m = fst <$> merged_blank E now (files (_conn self)).
Proof.
  intros Hq. unfold search. rewrite bool_decide_eq_false_2 by done.
  set (rows := files (_conn self)).
  assert (merged_of E rows (merged_blank E now rows)) as H0.
  { apply merged_blank_of; [|done]. split; [constructor|].
    intros k e Hin. inversion Hin. }
  destruct (merge_names_of (strip query)
              rows (name_scores now (lower (strip query))
                      (tokenize (lower (strip query))) rows) _ H0) as [H1 K1].
  destruct (merge_contents_of rows
              (content_scores E (_conn self) (lower (strip query))
                 (tokenize (lower (strip query))) (Z.to_nat (Z.max 1 limit))) _ H1)
    as [H2 K2].
  eexists. split; [reflexivity|]. split; [exact H2|]. by rewrite K2, K1.
Qed.

Lemma merged_blank_length (now : Q) (rows : list file_row) (m : list (Path * entry)) :
  (length (fold_left (fun merged row =>
                        dict_set (f_path row) (blank_entry E now row) merged) rows m)
   <= length m + length rows)%nat.
Proof.
  revert m. induction rows as [|row rows IH]; intros m; simpl; [lia|].
  etrans; [apply IH|].
  destruct (decide (f_path row ∈ fst <$> m)) as [Hin | Hout].
  - rewrite <- (length_fmap fst (dict_set _ _ m)), dict_set_present by done.
    rewrite length_fmap. lia.
  - rewrite dict_set_absent by done. rewrite length_app. simpl. lia.
Qed.

(** X21. [search] returns entries of indexed files.  For every query and
    limit, the result has at most [max(1, limit)] entries and no more than
    there are rows in [files]; every entry carries the path, the name, the
    size and the modification time of a row of [files]; a query that is
    blank after stripping gives the empty list; and when the paths of
    [files] are unique, a query that is not blank returns exactly
    [min(max(1, limit), number of indexed files)] entries, whatever it
    matches. *)
Theorem search_returns_indexed_files (self : DataIndexer) (now : Q)
    (query : string) (limit : Z) :
  let res := search E self now query limit in
  (length res <= Z.to_nat (Z.max 1 limit))%nat
  /\ (length res <= length (files (_conn self)))%nat
  /\ (forall e, e ∈ res -> exists row, row ∈ files (_conn self) /\ from_row E row e)
  /\ (strip query = "" -> res = [])
  /\ (strip query <> "" -> NoDup (f_path <$> files (_conn self)) ->
      length res = Nat.min (Z.to_nat (Z.max 1 limit)) (length (files (_conn self)))).
Proof.
  cbn zeta. destruct (decide (strip query = "")) as [Hblank | Hq].
  { unfold search. rewrite bool_decide_eq_true_2 by done. cbn.
    repeat split; try lia; try done. intros e He. inversion He. }
  destruct (search_unfold self now query limit Hq) as (m & -> & [Hnd Hall] & Hkeys).
  set (n := Z.to_nat (Z.max 1 limit)).
  assert (length (sorted (snd <$> m)) = length m) as Hsorted.
  { rewrite (Permutation_length (sorted_perm _)). apply length_fmap. }
  assert (length m <= length (files (_conn self)))%nat as Hlen.
  { rewrite <- (length_fmap fst m), Hkeys, length_fmap. unfold merged_blank.
    pose proof (merged_blank_length now (files (_conn self)) []) as Hb. simpl in Hb. lia. }
  rewrite length_take, Hsorted.
  split; [lia|]. split; [lia|]. split; [|split; [done|]].
  - intros e He.
    assert (e ∈ sorted (snd <$> m)) as Hs.
    { eapply elem_of_sublist; [exact He | apply sublist_take]. }
    rewrite sorted_perm in Hs. apply list_elem_of_fmap in Hs as ([k e'] & -> & Hin).
    destruct (Hall k e' Hin) as (row & Hrow & _ & Hfrom). by exists row.
  - intros _ Hpaths. f_equal.
    rewrite <- (length_fmap fst m), Hkeys. unfold merged_blank.
    rewrite merged_blank_keys by done. simpl. apply length_fmap.
Qed.

End SearchResults.

Section SearchRanking.
Import Store Indexer Search.
Variable E : Env.

Lemma string_ltb_asym (a b : string) : String.ltb a b = true -> String.ltb b a = false.
Proof.
  unfold String.ltb. rewrite (String.compare_antisym b a).
  by destruct (String.compare a b).
Qed.

Lemma key_lt_asym (x y : entry) : key_lt x y = true -> key_lt y x = false.
Proof.
  unfold key_lt. intros H.
  pose proof (Qcompare_antisym (- e_score x) (- e_score y)) as Hq.
  pose proof (String.compare_antisym (e_name y) (e_name x)) as Hs.
  rewrite <- Hq, Hs.
  destruct (- e_score x ?= - e_score y)%Q; simpl in *; try done.
  destruct (String.compare (e_name x) (e_name y)); simpl in *; try done.
  by apply string_ltb_asym.
Qed.

Lemma insert_sorted_head (x : entry) (l : list entry) (z : entry) :
  HdRel ranked_before z l -> ranked_before z x ->
  HdRel ranked_before z (insert_sorted x l).
Proof.
  intros Hl Hx. destruct l as [|y l]; simpl; [by constructor|].
  destruct (key_lt y x); constructor; [|done]. by inversion Hl.
Qed.

Lemma insert_sorted_Sorted (x : entry) (l : list entry) :
  Sorted ranked_before l -> Sorted ranked_before (insert_sorted x l).
Proof.
  induction l as [|y l IH]; intros Hs; simpl; [by repeat constructor|].
  inversion Hs as [|? ? Hs' Hhd]; subst.
  destruct (key_lt y x) eqn:Hyx.
  - constructor; [by apply IH|]. apply insert_sorted_head; [done|].
    unfold ranked_before. by apply key_lt_asym.
  - constructor; [done|]. by constructor.
Qed.

Lemma sorted_Sorted (l : list entry) : Sorted ranked_before (sorted l).
Proof.
  unfold sorted. induction l as [|x l IH]; simpl; [constructor|].
  by apply insert_sorted_Sorted.
Qed.

Lemma Sorted_take {A} (R : A -> A -> Prop) (l : list A) (n : nat) :
  Sorted R l -> Sorted R (take n l).
Proof.
  revert n. induction l as [|x l IH]; intros n Hs; [by rewrite take_nil|].
  destruct n as [|n]; [constructor|]. simpl.
  inversion Hs as [|? ? Hs' Hhd]; subst. constructor; [by apply IH|].
  destruct l as [|y l]; [rewrite take_nil; constructor|].
  destruct n; simpl; constructor. by inversion Hhd.
Qed.

Lemma Qopp_le_rev (a b : Q) : (- a <= - b)%Q -> (b <= a)%Q.
Proof. intros H. apply Qopp_le_compat in H. by rewrite !Qopp_opp in H. Qed.

Lemma ranked_before_score (x y : entry) :
  ranked_before x y -> (e_score y <= e_score x)%Q.
Proof.
  unfold ranked_before, key_lt. intros Hk. apply Qopp_le_rev.
  destruct (- e_score y ?= - e_score x)%Q eqn:Hc; [| done |].
  - apply Qeq_alt in Hc. rewrite Hc. apply Qle_refl.
  - apply Qgt_alt in Hc. by apply Qlt_le_weak.
Qed.

Lemma ranked_before_tie (x y : entry) :
  ranked_before x y -> (e_score x == e_score y)%Q ->
  String.compare (e_name x) (e_name y) <> Gt
  /\ (e_name x = e_name y -> String.ltb (e_path y) (e_path x) = false).
Proof.
  unfold ranked_before, key_lt. intros Hk Heq.
  assert ((- e_score y ?= - e_score x)%Q = Eq) as Hc.
  { apply Qeq_alt. by rewrite Heq. }
  rewrite Hc in Hk. rewrite (String.compare_antisym (e_name x) (e_name y)).
  destruct (String.compare (e_name y) (e_name x)) eqn:Hn; simpl; try done.
  split; [done|]. intros Hsame. rewrite Hsame in Hn.
  pose proof (String.compare_antisym (e_name y) (e_name y)) as Hrefl.
  rewrite Hn in Hrefl. done.
Qed.

(** X22. The results of [search] are in rank order: the scores never
    increase along the list, and of two neighbours with equal scores the
    first has the name that is not the greater one, and, when the names
    are the same, not the greater path. *)
Theorem search_results_ranked (self : DataIndexer) (now : Q)
    (query : string) (limit : Z) :
  let res := search E self now query limit in
  StronglySorted (fun x y => (e_score y <= e_score x)%Q) res
  /\ (forall i x y, res !! i = Some x -> res !! S i = Some y ->
        (e_score x == e_score y)%Q ->
        String.compare (e_name x) (e_name y) <> Gt
        /\ (e_name x = e_name y -> String.ltb (e_path y) (e_path x) = false)).
Proof.
  cbn zeta.
  assert (Sorted ranked_before (search E self now query limit)) as Hs.
  { unfold search. case_bool_decide; [constructor|].
    apply Sorted_take, sorted_Sorted. }
  split.
  - apply Sorted_StronglySorted.
    + intros x y z Hxy Hyz. by apply Qle_trans with (e_score y).
    + eapply Sorted_ind with (P := Sorted (fun x y => (e_score y <= e_score x)%Q));
        [constructor | | exact Hs].
      intros a l _ IH Hhd. constructor; [exact IH|].
      destruct Hhd; constructor. by apply ranked_before_score.
  - generalize dependent (search E self now query limit). intros res Hs.
    induction Hs as [|x l Hs IH Hhd]; intros i a b Ha Hb Heq; [done|].
    destruct i as [|i]; simpl in *.
    + injection Ha as ->. destruct Hhd as [|y l Hxy]; [done|].
      simpl in Hb. injection Hb as ->. by apply ranked_before_tie.
    + by apply (IH i).
Qed.

Lemma findall_runs_none (s : string) :
  Forall (fun c => in_token_class c = false) (list_ascii_of_string s) ->
  findall_runs s [] = [].
Proof.
  induction s as [|c s IH]; simpl; intros Hall; [done|].
  inversion Hall as [|? ? Hc Hrest]; subst. rewrite Hc. simpl. by apply IH.
Qed.

(** X23. A query without the letter [w] and without a backslash never
    reaches the content of the files.  When the stripped, lower-cased
    query holds neither of the two characters that the token pattern
    accepts, [search] has no tokens and runs no content query: two
    indexers with the same [files] table give the same result, whatever
    their [file_content] tables hold. *)
Theorem search_without_tokens_ignores_content (self self' : DataIndexer) (now : Q)
    (query : string) (limit : Z) :
  Forall (fun c => in_token_class c = false)
         (list_ascii_of_string (lower (strip query))) ->
  files (_conn self) = files (_conn self') ->
  tokenize (lower (strip query)) = []
  /\ search E self now query limit = search E self' now query limit.
Proof.
  intros Hclass Hfiles.
  assert (tokenize (lower (strip query)) = []) as Htok.
  { unfold tokenize. by rewrite findall_runs_none. }
  split; [exact Htok|].
  unfold search. case_bool_decide; [done|].
  rewrite Htok, Hfiles. reflexivity.
Qed.

End SearchRanking.

(** The query [revenue] on two indexes that hold the rows of the two notes:
    one with their contents, one with an empty content table. *)
Lemma search_without_tokens_ignores_content_witness :
  let E := Fixtures.notes_env true in
  let rows := [Fixtures.notes_row; Fixtures.notes2_row] in
  let self :=
    Indexer.with_conn (Fixtures.indexer_on E 8)
      {| Store.files := rows;
         Store.file_content :=
           Store.FtsTable
             [ {| Store.fts_rowid := 1; Store.fts_path := Fixtures.docs ++ ["notes.md"];
                  Store.fts_content := "quarterly revenue report" |};
               {| Store.fts_rowid := 2; Store.fts_path := Fixtures.docs ++ ["notes2.md"];
                  Store.fts_content := "grocery list" |} ];
         Store.metadata := [] |} in
  let self' :=
    Indexer.with_conn (Fixtures.indexer_on E 8)
      {| Store.files := rows;
         Store.file_content := Store.FtsTable [];
         Store.metadata := [] |} in
  Search.tokenize (lower (Search.strip "revenue")) = []
  /\ Search.search E self 1700000200 "revenue" 20
     = Search.search E self' 1700000200 "revenue" 20.
Proof.
  intros E rows self self'.
  apply (search_without_tokens_ignores_content E self self' 1700000200 "revenue" 20).
  - vm_compute. repeat constructor.
  - vm_compute. reflexivity.
Defined.
